(** * CV data extraction for [hr.applicant] (module [hr_recruitment_gemini])

    A shallow embedding of [models/hr_applicant.py]: the response parser,
    the field writer, the taxonomy reconciler for skills, the per-record
    extraction job with its two savepoints, and the dispatcher action.

    Conventions.  A Python [str] is a [string] whose characters are code
    points below 256.  The record store (the ORM and its cursor), the
    generative model and Python's [json] decoder are collaborators of the
    file: they are described by the record [host] and by the table model
    of section "Record store". *)

From Stdlib Require Import String Ascii List Bool Arith ZArith Lia.
From Stdlib Require Import DecimalString.
Import ListNotations.

Set Warnings "-register-all".

Open Scope string_scope.

(** ** Text *)

Module Text.

(** [strip_prefix p s] is [Some t] when [s = p ++ t]: [s.startswith(p)]
    together with the remainder. *)
Fixpoint strip_prefix (p s : string) : option string :=
  match p, s with
  | EmptyString, _ => Some s
  | String a p', String b s' =>
      if Ascii.eqb a b then strip_prefix p' s' else None
  | String _ _, EmptyString => None
  end.

(** [find_first p s] splits [s] around the leftmost occurrence of [p]:
    [s.partition(p)] when [p] occurs, [None] otherwise. *)
Fixpoint find_first (p s : string) : option (string * string) :=
  match strip_prefix p s with
  | Some t => Some (EmptyString, t)
  | None =>
      match s with
      | EmptyString => None
      | String c s' =>
          match find_first p s' with
          | Some (a, b) => Some (String c a, b)
          | None => None
          end
      end
  end.

(** [upto_last c s] is the part of [s] before the last occurrence of the
    character [c]. *)
Fixpoint upto_last (c : ascii) (s : string) : option string :=
  match s with
  | EmptyString => None
  | String a s' =>
      match upto_last c s' with
      | Some p => Some (String a p)
      | None => if Ascii.eqb a c then Some EmptyString else None
      end
  end.

(** [str.isspace] on one character: the ASCII white space, the four
    separators FS, GS, RS, US, and NEL and NBSP. *)
Definition is_space (c : ascii) : bool :=
  let n := nat_of_ascii c in
  ((9 <=? n)%nat && (n <=? 13)%nat) || ((28 <=? n)%nat && (n <=? 32)%nat)
  || (n =? 133)%nat || (n =? 160)%nat.

Fixpoint lstrip (s : string) : string :=
  match s with
  | EmptyString => EmptyString
  | String c s' => if is_space c then lstrip s' else s
  end.

Fixpoint rstrip (s : string) : string :=
  match s with
  | EmptyString => EmptyString
  | String c s' =>
      match rstrip s' with
      | EmptyString => if is_space c then EmptyString else String c EmptyString
      | t => String c t
      end
  end.

(** [s.strip()] *)
Definition strip (s : string) : string := rstrip (lstrip s).

(** [c.lower()] on a code point below 256: the letters A to Z and the
    capitals from 192 to 222, the multiplication sign 215 apart, move up by
    32. *)
Definition lower_char (c : ascii) : ascii :=
  let n := nat_of_ascii c in
  if ((65 <=? n)%nat && (n <=? 90)%nat)
     || ((192 <=? n)%nat && (n <=? 222)%nat && negb (n =? 215)%nat)
  then ascii_of_nat (n + 32) else c.

(** [s.lower()] *)
Fixpoint lower (s : string) : string :=
  match s with
  | EmptyString => EmptyString
  | String c s' => String (lower_char c) (lower s')
  end.

(** [s.endswith(suf)] *)
Fixpoint endswith (s suf : string) : bool :=
  (s =? suf) ||
  match s with
  | EmptyString => false
  | String _ s' => endswith s' suf
  end.

End Text.

(** ** Exceptions and results *)

(** The exceptions the module raises or lets through, each with the text
    [str(e)] gives. *)
Inductive exn : Type :=
| UserError (msg : string)
| AttributeError (msg : string)
| TypeError (msg : string)
| ValueError (msg : string)
| StoreError (msg : string)
| ProviderError (msg : string).

Definition exn_str (e : exn) : string :=
  match e with
  | UserError m | AttributeError m | TypeError m | ValueError m
  | StoreError m | ProviderError m => m
  end.

Inductive result (A : Type) : Type :=
| Ok (a : A)
| Raise (e : exn).
Arguments Ok {A} a.
Arguments Raise {A} e.

(** ** Decoded JSON values *)

(** What [json.loads] returns.  A float is kept as its literal together
    with whether it differs from zero, the one observation the module makes
    of it.  An object is an association list; the first binding of a key
    is the dictionary's value for it. *)
Inductive json : Type :=
| JNull
| JBool (b : bool)
| JInt (z : Z)
| JFloat (nonzero : bool) (literal : string)
| JStr (s : string)
| JArr (items : list json)
| JObj (fields : list (string * json)).

(** Python's truth value of a decoded value. *)
Definition truthy (v : json) : bool :=
  match v with
  | JNull => false
  | JBool b => b
  | JInt z => negb (z =? 0)%Z
  | JFloat nonzero _ => nonzero
  | JStr s => negb (s =? EmptyString)
  | JArr items => match items with [] => false | _ => true end
  | JObj fields => match fields with [] => false | _ => true end
  end.

(** [type(v).__name__] *)
Definition type_name (v : json) : string :=
  match v with
  | JNull => "NoneType"
  | JBool _ => "bool"
  | JInt _ => "int"
  | JFloat _ _ => "float"
  | JStr _ => "str"
  | JArr _ => "list"
  | JObj _ => "dict"
  end.

(** The [AttributeError] of a method call on a value that lacks it. *)
Definition no_attribute (v : json) (attr : string) : exn :=
  AttributeError
    ("'" ++ type_name v ++ "' object has no attribute '" ++ attr ++ "'").

(** [d.get(key)] on the fields of an object: [None] when absent. *)
Fixpoint py_get (fields : list (string * json)) (key : string) : json :=
  match fields with
  | [] => JNull
  | (k, v) :: rest => if k =? key then v else py_get rest key
  end.

(** [len(v)] *)
Definition py_len (v : json) : result nat :=
  match v with
  | JStr s => Ok (String.length s)
  | JArr items => Ok (List.length items)
  | JObj fields => Ok (List.length fields)
  | _ => Raise (TypeError ("object of type '" ++ type_name v ++ "' has no len()"))
  end.

(** ** Record store *)

Inductive extract_state : Type :=
| no_extract | pending | processing | done | error.

Definition extract_state_eqb (a b : extract_state) : bool :=
  match a, b with
  | no_extract, no_extract | pending, pending | processing, processing
  | done, done | error, error => true
  | _, _ => false
  end.

(** The settings the module reads on [res.company].  An unset [Char] or
    [Selection] reads [False]; it is the empty string here. *)
Record company : Type := {
  gemini_api_key : string;
  gemini_model : string;
  gemini_cv_extract_mode : string
}.

Record attachment : Type := {
  datas : string;
  mimetype : string
}.

(** [hr.applicant].  The two many-to-one fields the module only reads hold
    the record they point to; [type_id] holds the id of a degree. *)
Record applicant : Type := {
  applicant_id : nat;
  company_id : option company;
  message_main_attachment_id : option attachment;
  gemini_extract_state : extract_state;
  gemini_extract_status : string;
  name : string;
  partner_name : string;
  email_from : string;
  partner_phone : string;
  linkedin_profile : string;
  type_id : option nat
}.

(** [hr.recruitment.degree] *)
Record degree : Type := {
  degree_id : nat;
  degree_name : string
}.

(** [hr.skill.type] *)
Record skill_type : Type := {
  skill_type_id : nat;
  skill_type_name : string;
  skill_level_ids : list nat
}.

(** [hr.skill.level] *)
Record skill_level : Type := {
  skill_level_id : nat;
  skill_level_name : string;
  level_progress : Z
}.

(** [hr.skill] *)
Record skill : Type := {
  skill_id : nat;
  skill_name : string;
  skill_type_of : nat
}.

(** [hr.applicant.skill], the link of an applicant to a skill. *)
Record applicant_skill : Type := {
  link_id : nat;
  link_applicant_id : nat;
  link_skill_id : nat;
  link_skill_level_id : nat;
  link_skill_type_id : nat
}.

(** The tables one cursor sees.  Each table lists its rows in the order the
    store enumerates them, which is the order of creation. *)
Record db : Type := {
  applicants : list applicant;
  degrees : list degree;
  skill_types : list skill_type;
  skill_levels : list skill_level;
  skills : list skill;
  applicant_skills : list applicant_skill;
  env_company : company;
  hr_recruitment_skills_state : string
}.

(** The values of one [write] on an applicant: a key that is absent from
    the dictionary is [None]. *)
Record applicant_vals : Type := {
  set_state : option extract_state;
  set_status : option string;
  set_partner_name : option string;
  set_name : option string;
  set_email_from : option string;
  set_partner_phone : option string;
  set_linkedin_profile : option string;
  set_type_id : option nat
}.

Definition no_vals : applicant_vals :=
  {| set_state := None; set_status := None; set_partner_name := None;
     set_name := None; set_email_from := None; set_partner_phone := None;
     set_linkedin_profile := None; set_type_id := None |}.

(** [bool(write_vals)]: the dictionary has a key. *)
Definition has_vals (v : applicant_vals) : bool :=
  match set_state v, set_status v, set_partner_name v, set_name v,
        set_email_from v, set_partner_phone v, set_linkedin_profile v,
        set_type_id v with
  | None, None, None, None, None, None, None, None => false
  | _, _, _, _, _, _, _, _ => true
  end.

(** The calls that change the store. *)
Inductive store_op : Type :=
| WriteApplicant (id : nat) (vals : applicant_vals)
| CreateDegree (name : string)
| CreateSkillType (name : string)
| CreateSkillLevel (name : string) (progress : Z)
| AddTypeLevel (type_id level_id : nat)
| CreateSkill (name : string) (type_id : nat)
| WriteSkillType (skill_id type_id : nat)
| CreateApplicantSkill (applicant_id skill_id level_id type_id : nat).

(** ** The collaborators *)

(** - [json_loads] is [json.loads]; [None] stands for
      [json.JSONDecodeError].
    - [py_repr] is [str] on a decoded value that is not a string.
    - [generate_content api_key model_name mime_type data] is the call of
      the generative model on the prompt and the document, followed by the
      reading of [response.text]; it answers a text or raises.
    - [rejects op d] is the message of the exception the store raises when
      it refuses the call [op] on the tables [d], [None] when it carries
      the call out.  A refused call leaves the tables as they were. *)
Record host : Type := {
  json_loads : string -> option json;
  py_repr : json -> string;
  generate_content : string -> string -> string -> string -> result string;
  rejects : store_op -> db -> option string
}.

(** [str(v)] *)
Definition py_str (h : host) (v : json) : string :=
  match v with
  | JStr s => s
  | _ => py_repr h v
  end.

(** ** Calls that read and raise *)

(** A computation on a state [S] that returns or raises.  The state at a
    raise is the state reached when the exception left the computation. *)
Definition M (S A : Type) : Type := S -> result A * S.

Definition ret {S A : Type} (a : A) : M S A := fun s => (Ok a, s).

Definition raise {S A : Type} (e : exn) : M S A := fun s => (Raise e, s).

Definition bind {S A B : Type} (m : M S A) (f : A -> M S B) : M S B :=
  fun s =>
    match m s with
    | (Ok a, s') => f a s'
    | (Raise e, s') => (Raise e, s')
    end.

Declare Scope store_scope.
Delimit Scope store_scope with store.
Notation "x <- m ;; k" := (bind m (fun x => k))
  (at level 61, m at next level, right associativity) : store_scope.
Notation "m ;;; k" := (bind m (fun _ => k))
  (at level 61, right associativity) : store_scope.
Open Scope store_scope.

(** A pure result inside a computation. *)
Definition lift {S A : Type} (r : result A) : M S A := fun s => (r, s).

(** [with self.env.cr.savepoint():] on the tables: an exception that
    leaves the block undoes what the block did, then goes on. *)
Definition savepoint {A : Type} (m : M db A) : M db A :=
  fun d =>
    match m d with
    | (Ok a, d') => (Ok a, d')
    | (Raise e, _) => (Raise e, d)
    end.

(** *** Rows *)

Definition with_applicants (d : db) (l : list applicant) : db :=
  {| applicants := l; degrees := degrees d; skill_types := skill_types d;
     skill_levels := skill_levels d; skills := skills d;
     applicant_skills := applicant_skills d; env_company := env_company d;
     hr_recruitment_skills_state := hr_recruitment_skills_state d |}.

Definition with_degrees (d : db) (l : list degree) : db :=
  {| applicants := applicants d; degrees := l; skill_types := skill_types d;
     skill_levels := skill_levels d; skills := skills d;
     applicant_skills := applicant_skills d; env_company := env_company d;
     hr_recruitment_skills_state := hr_recruitment_skills_state d |}.

Definition with_skill_types (d : db) (l : list skill_type) : db :=
  {| applicants := applicants d; degrees := degrees d; skill_types := l;
     skill_levels := skill_levels d; skills := skills d;
     applicant_skills := applicant_skills d; env_company := env_company d;
     hr_recruitment_skills_state := hr_recruitment_skills_state d |}.

Definition with_skill_levels (d : db) (l : list skill_level) : db :=
  {| applicants := applicants d; degrees := degrees d;
     skill_types := skill_types d; skill_levels := l; skills := skills d;
     applicant_skills := applicant_skills d; env_company := env_company d;
     hr_recruitment_skills_state := hr_recruitment_skills_state d |}.

Definition with_skills (d : db) (l : list skill) : db :=
  {| applicants := applicants d; degrees := degrees d;
     skill_types := skill_types d; skill_levels := skill_levels d;
     skills := l; applicant_skills := applicant_skills d;
     env_company := env_company d;
     hr_recruitment_skills_state := hr_recruitment_skills_state d |}.

Definition with_applicant_skills (d : db) (l : list applicant_skill) : db :=
  {| applicants := applicants d; degrees := degrees d;
     skill_types := skill_types d; skill_levels := skill_levels d;
     skills := skills d; applicant_skills := l;
     env_company := env_company d;
     hr_recruitment_skills_state := hr_recruitment_skills_state d |}.

(** The id the store gives to a new row of a table. *)
Definition fresh (ids : list nat) : nat := S (list_max ids).

(** [browse(id)] on each table. *)
Definition find_applicant (d : db) (id : nat) : option applicant :=
  find (fun a => (applicant_id a =? id)%nat) (applicants d).

Definition find_skill_type (d : db) (id : nat) : option skill_type :=
  find (fun t => (skill_type_id t =? id)%nat) (skill_types d).

Definition find_skill_level (d : db) (id : nat) : option skill_level :=
  find (fun l => (skill_level_id l =? id)%nat) (skill_levels d).

Definition find_skill (d : db) (id : nat) : option skill :=
  find (fun s => (skill_id s =? id)%nat) (skills d).

(** The exception of a read or a write on a record that is not there. *)
Definition missing_record : exn :=
  StoreError "Record does not exist or has been deleted.".

(** The operator [=ilike] of a search domain: equality up to the case of
    letters.  The characters that [LIKE] reads as wildcards are compared as
    they are. *)
Definition ilike (stored value : string) : bool :=
  Text.lower stored =? Text.lower value.

(** *** Searches, all with [limit=1] *)

Definition search_degree (d : db) (name : string) : option degree :=
  find (fun r => ilike (degree_name r) name) (degrees d).

Definition search_skill_type (d : db) (name : string) : option skill_type :=
  find (fun r => ilike (skill_type_name r) name) (skill_types d).

Definition search_skill (d : db) (name : string) : option skill :=
  find (fun r => ilike (skill_name r) name) (skills d).

Definition search_level_named (d : db) (name : string) : option skill_level :=
  find (fun r => ilike (skill_level_name r) name) (skill_levels d).

Definition search_level_exact (d : db) (name : string) (progress : Z)
  : option skill_level :=
  find (fun r => ilike (skill_level_name r) name
                 && (level_progress r =? progress)%Z)
       (skill_levels d).

(** The row of least progress among those kept so far and those of [l]
    with a positive progress; of two rows of equal progress, the earlier. *)
Fixpoint lowest_positive (best : option skill_level) (l : list skill_level)
  : option skill_level :=
  match l with
  | [] => best
  | r :: rest =>
      if (0 <? level_progress r)%Z then
        match best with
        | None => lowest_positive (Some r) rest
        | Some b =>
            if (level_progress r <? level_progress b)%Z
            then lowest_positive (Some r) rest
            else lowest_positive best rest
        end
      else lowest_positive best rest
  end.

(** [search([('level_progress', '>', 0)], order='level_progress asc',
    limit=1)] *)
Definition search_level_lowest (d : db) : option skill_level :=
  lowest_positive None (skill_levels d).

Definition search_link (d : db) (applicant skill : nat)
  : option applicant_skill :=
  find (fun r => (link_applicant_id r =? applicant)%nat
                 && (link_skill_id r =? skill)%nat)
       (applicant_skills d).

(** *** Calls that change the tables *)

(** A call the store may refuse. *)
Definition store_call {A : Type} (h : host) (op : store_op)
  (a : db -> A) (apply : db -> db) : M db A :=
  fun d =>
    match rejects h op d with
    | Some msg => (Raise (StoreError msg), d)
    | None => (Ok (a d), apply d)
    end.

Definition pick {A : Type} (new : option A) (old : A) : A :=
  match new with
  | Some v => v
  | None => old
  end.

Definition apply_vals (v : applicant_vals) (a : applicant) : applicant :=
  {| applicant_id := applicant_id a;
     company_id := company_id a;
     message_main_attachment_id := message_main_attachment_id a;
     gemini_extract_state := pick (set_state v) (gemini_extract_state a);
     gemini_extract_status := pick (set_status v) (gemini_extract_status a);
     name := pick (set_name v) (name a);
     partner_name := pick (set_partner_name v) (partner_name a);
     email_from := pick (set_email_from v) (email_from a);
     partner_phone := pick (set_partner_phone v) (partner_phone a);
     linkedin_profile := pick (set_linkedin_profile v) (linkedin_profile a);
     type_id := match set_type_id v with
                | Some i => Some i
                | None => type_id a
                end |}.

Definition update_applicant (id : nat) (v : applicant_vals) (d : db) : db :=
  with_applicants d
    (map (fun a => if (applicant_id a =? id)%nat then apply_vals v a else a)
         (applicants d)).

(** [applicant.write(vals)] *)
Definition write_applicant (h : host) (id : nat) (v : applicant_vals)
  : M db unit :=
  fun d =>
    match find_applicant d id with
    | None => (Raise missing_record, d)
    | Some _ =>
        store_call h (WriteApplicant id v) (fun _ => tt)
          (update_applicant id v) d
    end.

Definition new_degree_id (d : db) : nat := fresh (map degree_id (degrees d)).

(** [degree_env.create({'name': name})], the id of the new row *)
Definition create_degree (h : host) (name : string) : M db nat :=
  store_call h (CreateDegree name) new_degree_id
    (fun d => with_degrees d
       (degrees d ++ [{| degree_id := new_degree_id d; degree_name := name |}])).

Definition new_skill_type_id (d : db) : nat :=
  fresh (map skill_type_id (skill_types d)).

Definition create_skill_type (h : host) (name : string) : M db nat :=
  store_call h (CreateSkillType name) new_skill_type_id
    (fun d => with_skill_types d
       (skill_types d ++
          [{| skill_type_id := new_skill_type_id d; skill_type_name := name;
              skill_level_ids := [] |}])).

Definition new_skill_level_id (d : db) : nat :=
  fresh (map skill_level_id (skill_levels d)).

(** The tables with one more level. *)
Definition add_skill_level (name : string) (progress : Z) (d : db) : db :=
  with_skill_levels d
    (skill_levels d ++
       [{| skill_level_id := new_skill_level_id d;
           skill_level_name := name; level_progress := progress |}]).

Definition create_skill_level (h : host) (name : string) (progress : Z)
  : M db nat :=
  store_call h (CreateSkillLevel name progress) new_skill_level_id
    (add_skill_level name progress).

Definition has_id (id : nat) (ids : list nat) : bool :=
  existsb (fun i => (i =? id)%nat) ids.

(** [skill_type.write({'skill_level_ids': [(4, level)]})]: the command 4
    links the level to the type; a level already linked stays linked
    once. *)
Definition add_type_level (h : host) (type level : nat) : M db unit :=
  fun d =>
    match find_skill_type d type with
    | None => (Raise missing_record, d)
    | Some _ =>
        store_call h (AddTypeLevel type level) (fun _ => tt)
          (fun d => with_skill_types d
             (map (fun t =>
                     if (skill_type_id t =? type)%nat
                     then {| skill_type_id := skill_type_id t;
                             skill_type_name := skill_type_name t;
                             skill_level_ids :=
                               if has_id level (skill_level_ids t)
                               then skill_level_ids t
                               else skill_level_ids t ++ [level] |}
                     else t)
                  (skill_types d))) d
    end.

Definition new_skill_id (d : db) : nat := fresh (map skill_id (skills d)).

Definition create_skill (h : host) (name : string) (type : nat) : M db nat :=
  store_call h (CreateSkill name type) new_skill_id
    (fun d => with_skills d
       (skills d ++
          [{| skill_id := new_skill_id d; skill_name := name;
              skill_type_of := type |}])).

(** [skill.write({'skill_type_id': type})] *)
Definition write_skill_type (h : host) (id type : nat) : M db unit :=
  fun d =>
    match find_skill d id with
    | None => (Raise missing_record, d)
    | Some _ =>
        store_call h (WriteSkillType id type) (fun _ => tt)
          (fun d => with_skills d
             (map (fun s =>
                     if (skill_id s =? id)%nat
                     then {| skill_id := skill_id s;
                             skill_name := skill_name s;
                             skill_type_of := type |}
                     else s)
                  (skills d))) d
    end.

Definition new_link_id (d : db) : nat :=
  fresh (map link_id (applicant_skills d)).

Definition create_applicant_skill (h : host)
  (applicant skill level type : nat) : M db nat :=
  store_call h (CreateApplicantSkill applicant skill level type) new_link_id
    (fun d => with_applicant_skills d
       (applicant_skills d ++
          [{| link_id := new_link_id d; link_applicant_id := applicant;
              link_skill_id := skill; link_skill_level_id := level;
              link_skill_type_id := type |}])).

(** *** Record sets *)

(** [str(n)] on a natural number. *)
Definition int_str (n : nat) : string :=
  NilEmpty.string_of_uint (Nat.to_uint n).

(** The ids of a tuple of two or more, as [repr] writes them after the
    first. *)
Fixpoint ids_tail (ids : list nat) : string :=
  match ids with
  | [] => EmptyString
  | i :: rest => ", " ++ int_str i ++ ids_tail rest
  end.

(** [repr(ids)] on a tuple of ids. *)
Definition ids_repr (ids : list nat) : string :=
  match ids with
  | [] => "()"
  | [i] => "(" ++ int_str i ++ ",)"
  | i :: rest => "(" ++ int_str i ++ ids_tail rest ++ ")"
  end.

(** The exception of [self.id] on a record set of two or more applicants:
    the message ends with [repr(self)], the name of the model followed by
    the tuple of the ids. *)
Definition expected_singleton (self : list nat) : exn :=
  ValueError ("Expected singleton: hr.applicant" ++ ids_repr self).

(** [self.id] on a record set: [False] on the empty set, the id of a
    single record, an exception otherwise. *)
Definition record_id (self : list nat) : result (option nat) :=
  match self with
  | [] => Ok None
  | [i] => Ok (Some i)
  | _ => Raise (expected_singleton self)
  end.

(** ** The response parser *)

Definition fence_open : string :=
  String "`" (String "`" (String "`" ("json" ++ String "010" EmptyString))).

Definition fence_close : string :=
  String "010" (String "`" (String "`" (String "`" EmptyString))).

(** [re.search(r"```json\n(.*?)\n```", text, re.DOTALL)], group 1: the
    match starts at the leftmost opening fence, and the lazy group stops at
    the first closing fence after it. *)
Definition search_fence (text : string) : option string :=
  match Text.find_first fence_open text with
  | Some (_, rest) =>
      match Text.find_first fence_close rest with
      | Some (inner, _) => Some inner
      | None => None
      end
  | None => None
  end.

(** [re.search(r"\{.*\}", text, re.DOTALL)], group 0: from the leftmost
    opening brace to the last closing brace after it. *)
Definition search_braces (text : string) : option string :=
  match Text.find_first "{" text with
  | Some (_, rest) =>
      match Text.upto_last "}" rest with
      | Some mid => Some ("{" ++ mid ++ "}")
      | None => None
      end
  | None => None
  end.

Definition invalid_response (response_text : string) : exn :=
  UserError
    ("Gemini returned an invalid response that could not be parsed. Raw text: "
       ++ response_text).

(** The clause [except json.JSONDecodeError] on the record set [self]:
    the call of the logger reads [self.id], which raises on two records or
    more; otherwise the clause raises the [UserError] that quotes the whole
    response. *)
Definition parse_failed (self : list nat) (response_text : string)
  : result json :=
  match record_id self with
  | Ok _ => Raise (invalid_response response_text)
  | Raise e => Raise e
  end.

(** The end of the [try] block on a candidate text: [json_text.strip()]
    then [json.loads], whose failure the clause above handles. *)
Definition decode (h : host) (self : list nat)
  (response_text json_text : string) : result json :=
  match json_loads h (Text.strip json_text) with
  | Some v => Ok v
  | None => parse_failed self response_text
  end.

(** [_parse_gemini_response] on the record set [self].  When neither
    search matches, the call of the logger reads [self.id] too, so that on
    two records or more its exception leaves the function; otherwise the
    function raises a [json.JSONDecodeError] itself, which the clause
    above handles. *)
Definition _parse_gemini_response (h : host) (self : list nat)
  (response_text : string) : result json :=
  match search_fence response_text with
  | Some json_text => decode h self response_text json_text
  | None =>
      match search_braces response_text with
      | Some json_text => decode h self response_text json_text
      | None =>
          match record_id self with
          | Ok _ => parse_failed self response_text
          | Raise e => Raise e
          end
      end
  end.

(** ** The field writer *)

Definition application_suffix : string := "'s Application".

(** The degree of [_write_extracted_data]: the id to put under [type_id],
    if any.  A creation the store refuses is logged and passed over. *)
Definition resolve_degree (h : host) (degree_name : string)
  : M db (option nat) :=
  fun d =>
    match search_degree d degree_name with
    | Some r => (Ok (Some (degree_id r)), d)
    | None =>
        match create_degree h degree_name d with
        | (Ok id, d') => (Ok (Some id), d')
        | (Raise _, d') => (Ok None, d')
        end
    end.

(** The entries of [write_vals] that come from the payload alone;
    [current_name] is [self.name]. *)
Definition simple_vals (h : host) (current_name : string)
  (data : list (string * json)) : applicant_vals :=
  let v_name := py_get data "name" in
  let v_email := py_get data "email" in
  let v_phone := py_get data "phone" in
  let v_linkedin := py_get data "linkedin" in
  {| set_state := None;
     set_status := None;
     set_partner_name :=
       if truthy v_name then Some (py_str h v_name) else None;
     set_name :=
       if truthy v_name then
         if (current_name =? EmptyString)
            || Text.endswith current_name application_suffix
         then Some (py_str h v_name ++ application_suffix)
         else None
       else None;
     set_email_from :=
       if truthy v_email then Some (py_str h v_email) else None;
     set_partner_phone :=
       if truthy v_phone then Some (py_str h v_phone) else None;
     set_linkedin_profile :=
       if truthy v_linkedin then Some (py_str h v_linkedin) else None;
     set_type_id := None |}.

Definition with_type_id (v : applicant_vals) (t : option nat)
  : applicant_vals :=
  {| set_state := set_state v; set_status := set_status v;
     set_partner_name := set_partner_name v; set_name := set_name v;
     set_email_from := set_email_from v;
     set_partner_phone := set_partner_phone v;
     set_linkedin_profile := set_linkedin_profile v;
     set_type_id := t |}.

(** The reading of [self.name], which the writer does when the payload has
    a name. *)
Definition read_name (self : nat) : M db string :=
  fun d =>
    match find_applicant d self with
    | Some a => (Ok (name a), d)
    | None => (Raise missing_record, d)
    end.

(** [_write_extracted_data] *)
Definition _write_extracted_data (h : host) (self : nat) (data : json)
  : M db unit :=
  if negb (truthy data) then ret tt
  else
    match data with
    | JObj fields =>
        current_name <- (if truthy (py_get fields "name")
                         then read_name self else ret EmptyString) ;;
        let write_vals := simple_vals h current_name fields in
        t <- (if truthy (py_get fields "degree")
              then resolve_degree h (py_str h (py_get fields "degree"))
              else ret None) ;;
        let write_vals := with_type_id write_vals t in
        if has_vals write_vals then write_applicant h self write_vals
        else ret tt
    | _ => raise (no_attribute data "get")
    end.

(** ** The taxonomy reconciler *)

(** The message of the [UserError] that the function means to raise when
    it cannot create the level, before [% str(e)] is applied to it. *)
Definition default_level_message : string :=
  "Could not create default 'Beginner (15%)' skill level. "
    ++ "Please create one manually in the Skills module. Error: %s".

(** What [default_level_message % str(e)] raises instead of giving a text:
    the percent sign of [(15%)] is read as the start of a conversion, and
    the closing parenthesis after it, the character 39 of the message, is
    no conversion.  The message is taken as written, not translated. *)
Definition default_level_error (e : exn) : exn :=
  ValueError "unsupported format character ')' (0x29) at index 39".

(** [_get_or_create_default_skill_level], the id of the level. *)
Definition _get_or_create_default_skill_level (h : host) : M db nat :=
  fun d =>
    let default_name := "Beginner" in
    let default_progress := 15%Z in
    match search_level_exact d default_name default_progress with
    | Some l => (Ok (skill_level_id l), d)
    | None =>
        match search_level_named d default_name with
        | Some l => (Ok (skill_level_id l), d)
        | None =>
            match search_level_lowest d with
            | Some l => (Ok (skill_level_id l), d)
            | None =>
                match create_skill_level h default_name default_progress d with
                | (Ok id, d') => (Ok id, d')
                | (Raise e, d') => (Raise (default_level_error e), d')
                end
            end
        end
    end.

Definition is_digit (c : ascii) : bool :=
  let n := nat_of_ascii c in (48 <=? n)%nat && (n <=? 57)%nat.

(** The longest run of digits at the head of [s], and what follows. *)
Fixpoint span_digits (s : string) : string * string :=
  match s with
  | EmptyString => (EmptyString, EmptyString)
  | String c s' =>
      if is_digit c
      then let (ds, rest) := span_digits s' in (String c ds, rest)
      else (EmptyString, s)
  end.

(** [\s*\((\d+)%\)] at the head of [s]: the digits of the group.  The
    greedy runs admit one way only, since a closing character is neither a
    space nor a digit. *)
Definition match_percent (s : string) : option string :=
  match Text.lstrip s with
  | String "(" s1 =>
      match span_digits s1 with
      | (EmptyString, _) => None
      | (ds, String "%" (String ")" _)) => Some ds
      | (_, _) => None
      end
  | _ => None
  end.

(** [re.match(r"(.+?)\s*\((\d+)%\)", s)], groups 1 and 2: the lazy group
    takes the fewest characters, at least one and none of them a line
    feed, after which the rest matches. *)
Fixpoint level_match (s : string) : option (string * string) :=
  match s with
  | EmptyString => None
  | String c s' =>
      if Ascii.eqb c "010" then None
      else
        match match_percent s' with
        | Some ds => Some (String c EmptyString, ds)
        | None =>
            match level_match s' with
            | Some (g, ds) => Some (String c g, ds)
            | None => None
            end
        end
  end.

(** [int(ds)] on a string of digits. *)
Fixpoint int_of_digits (acc : Z) (ds : string) : Z :=
  match ds with
  | EmptyString => acc
  | String c ds' =>
      int_of_digits (10 * acc + Z.of_nat (nat_of_ascii c - 48)) ds'
  end.

(** The parsed label: [match.group(1).strip()] and [int(match.group(2))]. *)
Definition parse_level (label : string) : option (string * Z) :=
  match level_match label with
  | Some (g, ds) => Some (Text.strip g, int_of_digits 0 ds)
  | None => None
  end.

(** The dictionaries of one run of [_process_skills], which map a
    lower-cased name to the id of a row, and the default level once it has
    been looked up. *)
Record caches : Type := {
  type_cache : list (string * nat);
  level_cache : list (string * nat);
  skill_cache : list (string * nat);
  default_level : option nat
}.

Definition no_caches : caches :=
  {| type_cache := []; level_cache := []; skill_cache := [];
     default_level := None |}.

(** [cache.get(key)] *)
Fixpoint cache_get (cache : list (string * nat)) (key : string) : option nat :=
  match cache with
  | [] => None
  | (k, v) :: rest => if k =? key then Some v else cache_get rest key
  end.

(** [cache[key] = v] *)
Definition cache_set (cache : list (string * nat)) (key : string) (v : nat)
  : list (string * nat) :=
  (key, v) :: cache.

Definition remember_type (c : caches) (key : string) (t : nat) : caches :=
  {| type_cache := cache_set (type_cache c) key t;
     level_cache := level_cache c;
     skill_cache := skill_cache c;
     default_level := default_level c |}.

Definition remember_level (c : caches) (key : string) (l : nat) : caches :=
  {| type_cache := type_cache c;
     level_cache := cache_set (level_cache c) key l;
     skill_cache := skill_cache c;
     default_level := default_level c |}.

Definition remember_skill (c : caches) (key : string) (s : nat) : caches :=
  {| type_cache := type_cache c;
     level_cache := level_cache c;
     skill_cache := cache_set (skill_cache c) key s;
     default_level := default_level c |}.

Definition remember_default (c : caches) (l : nat) : caches :=
  {| type_cache := type_cache c;
     level_cache := level_cache c;
     skill_cache := skill_cache c;
     default_level := Some l |}.

(** Step 1 of an item: the skill type, from the cache, the store or a
    creation. *)
Definition resolve_type (h : host) (type_name_str : string) (c : caches)
  : M db (nat * caches) :=
  let type_name_lower := Text.lower type_name_str in
  match cache_get (type_cache c) type_name_lower with
  | Some t => ret (t, c)
  | None =>
      t <- (fun d =>
              match search_skill_type d type_name_str with
              | Some r => (Ok (skill_type_id r), d)
              | None => create_skill_type h type_name_str d
              end) ;;
      ret (t, remember_type c type_name_lower t)
  end.

(** Step 2 of an item, for a label that is a non-empty string: the level
    from the cache, else by the parsed name and progress, else by the whole
    label taken as a name, else created from the parsed name and progress;
    [None] when all of these give nothing. *)
Definition resolve_label (h : host) (level_name_str : string) (c : caches)
  : M db (option nat * caches) :=
  let level_name_lower := Text.lower level_name_str in
  match cache_get (level_cache c) level_name_lower with
  | Some l => ret (Some l, c)
  | None =>
      let parsed := parse_level level_name_str in
      l <- (fun d =>
              let by_pair :=
                match parsed with
                | Some (level_name_clean, progress) =>
                    search_level_exact d level_name_clean progress
                | None => None
                end in
              let by_name :=
                match by_pair with
                | Some r => Some r
                | None => search_level_named d level_name_str
                end in
              match by_name, parsed with
              | Some r, _ => (Ok (Some (skill_level_id r)), d)
              | None, Some (level_name_clean, progress) =>
                  match create_skill_level h level_name_clean progress d with
                  | (Ok id, d') => (Ok (Some id), d')
                  | (Raise e, d') => (Raise e, d')
                  end
              | None, None => (Ok None, d)
              end) ;;
      match l with
      | Some id => ret (Some id, remember_level c level_name_lower id)
      | None => ret (None, c)
      end
  end.

(** The default level, looked up on first use. *)
Definition resolve_default (h : host) (c : caches) : M db (nat * caches) :=
  match default_level c with
  | Some l => ret (l, c)
  | None =>
      l <- _get_or_create_default_skill_level h ;;
      ret (l, remember_default c l)
  end.

(** Step 2 of an item, whole. *)
Definition resolve_level (h : host) (level_name_str : json) (c : caches)
  : M db (nat * caches) :=
  r <- (if truthy level_name_str then
          match level_name_str with
          | JStr label => resolve_label h label c
          | _ => raise (no_attribute level_name_str "lower")
          end
        else ret (None, c)) ;;
  match fst r with
  | Some l => ret (l, snd r)
  | None => resolve_default h (snd r)
  end.

(** Step 3 of an item: the level joins the levels of the type. *)
Definition associate_level (h : host) (type level : nat) : M db unit :=
  fun d =>
    match find_skill_type d type with
    | None => (Raise missing_record, d)
    | Some t =>
        if has_id level (skill_level_ids t) then (Ok tt, d)
        else add_type_level h type level d
    end.

(** Step 4 of an item: the skill, from the cache, the store or a creation;
    a skill found in the store under another type is moved to the type of
    the item. *)
Definition resolve_skill (h : host) (skill_name_str : string) (type : nat)
  (c : caches) : M db (nat * caches) :=
  let skill_name_lower := Text.lower skill_name_str in
  match cache_get (skill_cache c) skill_name_lower with
  | Some s => ret (s, c)
  | None =>
      s <- (fun d =>
              match search_skill d skill_name_str with
              | None => create_skill h skill_name_str type d
              | Some r =>
                  if (skill_type_of r =? type)%nat then (Ok (skill_id r), d)
                  else
                    match write_skill_type h (skill_id r) type d with
                    | (Ok _, d') => (Ok (skill_id r), d')
                    | (Raise e, d') => (Raise e, d')
                    end
              end) ;;
      ret (s, remember_skill c skill_name_lower s)
  end.

(** Step 5 of an item: the link, unless the applicant has one to the
    skill. *)
Definition link_skill (h : host) (self skill level type : nat) : M db unit :=
  fun d =>
    match search_link d self skill with
    | Some _ => (Ok tt, d)
    | None =>
        match create_applicant_skill h self skill level type d with
        | (Ok _, d') => (Ok tt, d')
        | (Raise e, d') => (Raise e, d')
        end
    end.

(** [x or 'General'] *)
Definition or_general (v : json) : json :=
  if truthy v then v else JStr "General".

(** The body of the loop of [_process_skills] for one item. *)
Definition process_skill (h : host) (self : nat) (skill_obj : json)
  (c : caches) : M db caches :=
  match skill_obj with
  | JObj fields =>
      let skill_name_str := py_get fields "skill" in
      let type_name_str := or_general (py_get fields "type") in
      let level_name_str := py_get fields "level" in
      if negb (truthy skill_name_str) then ret c
      else
        match type_name_str with
        | JStr type_name =>
            tc <- resolve_type h type_name c ;;
            lc <- resolve_level h level_name_str (snd tc) ;;
            associate_level h (fst tc) (fst lc) ;;;
            match skill_name_str with
            | JStr skill_name =>
                sc <- resolve_skill h skill_name (fst tc) (snd lc) ;;
                link_skill h self (fst sc) (fst lc) (fst tc) ;;;
                ret (snd sc)
            | _ => raise (no_attribute skill_name_str "lower")
            end
        | _ => raise (no_attribute type_name_str "lower")
        end
  | _ => ret c
  end.

Fixpoint process_skill_list (h : host) (self : nat) (items : list json)
  (c : caches) : M db caches :=
  match items with
  | [] => ret c
  | skill_obj :: rest =>
      c' <- process_skill h self skill_obj c ;;
      process_skill_list h self rest c'
  end.

(** [_process_skills] *)
Definition _process_skills (h : host) (self : nat) (gemini_skills_list : json)
  : M db unit :=
  match gemini_skills_list with
  | JArr items =>
      if negb (truthy gemini_skills_list) then ret tt
      else process_skill_list h self items no_caches ;;; ret tt
  | _ => ret tt
  end.

(** ** The extraction job *)

(** One write of the field [gemini_extract_state]: the record, the state
    the writing cursor saw and the state written. *)
Record transition : Type := {
  tr_record : nat;
  tr_from : extract_state;
  tr_to : extract_state
}.

(** What a cursor works on: the tables as last committed, the tables as the
    open transaction sees them, and the journal of the writes of the state
    field.  The journal is not a table: no rollback rewinds it. *)
Record world : Type := {
  committed : db;
  working : db;
  journal : list transition
}.

(** [self.env.cr.commit()] *)
Definition commit (w : world) : world :=
  {| committed := working w; working := working w; journal := journal w |}.

(** [self.env.cr.rollback()] *)
Definition rollback (w : world) : world :=
  {| committed := committed w; working := committed w;
     journal := journal w |}.

(** A computation on the tables, run in the open transaction. *)
Definition on_working {A : Type} (m : M db A) : M world A :=
  fun w =>
    let (r, d) := m (working w) in
    (r, {| committed := committed w; working := d; journal := journal w |}).

(** [with self.env.cr.savepoint():] around a block of the job. *)
Definition savepoint_block {A : Type} (m : M world A) : M world A :=
  fun w =>
    match m w with
    | (Ok a, w') => (Ok a, w')
    | (Raise e, w') =>
        (Raise e, {| committed := committed w'; working := working w;
                     journal := journal w' |})
    end.

Definition state_vals (st : extract_state) (status : string)
  : applicant_vals :=
  {| set_state := Some st; set_status := Some status;
     set_partner_name := None; set_name := None; set_email_from := None;
     set_partner_phone := None; set_linkedin_profile := None;
     set_type_id := None |}.

Definition status_vals (status : string) : applicant_vals :=
  {| set_state := None; set_status := Some status;
     set_partner_name := None; set_name := None; set_email_from := None;
     set_partner_phone := None; set_linkedin_profile := None;
     set_type_id := None |}.

(** The journal entry of a write of state [st] on [self] in the tables
    [d]. *)
Definition entry (d : db) (self : nat) (st : extract_state)
  : list transition :=
  match find_applicant d self with
  | Some a => [{| tr_record := self; tr_from := gemini_extract_state a;
                  tr_to := st |}]
  | None => []
  end.

(** [applicant.write({'gemini_extract_state': st,
    'gemini_extract_status': status})] in the open transaction. *)
Definition write_state (h : host) (self : nat) (st : extract_state)
  (status : string) : M world unit :=
  fun w =>
    match write_applicant h self (state_vals st status) (working w) with
    | (Ok _, d) =>
        (Ok tt, {| committed := committed w; working := d;
                   journal := journal w ++ entry (working w) self st |})
    | (Raise e, d) =>
        (Raise e, {| committed := committed w; working := d;
                     journal := journal w |})
    end.

Definition default_model : string := "gemini-1.5-flash-latest".

(** [applicant.company_id or self.env.company] *)
Definition company_of (d : db) (a : applicant) : company :=
  match company_id a with
  | Some c => c
  | None => env_company d
  end.

(** Step 1 of the first block: the key, the model and the document, or
    the error of the first check that fails. *)
Definition validate (d : db) (self : nat)
  : result (string * string * attachment) :=
  match find_applicant d self with
  | None => Raise missing_record
  | Some a =>
      let company := company_of d a in
      let api_key := gemini_api_key company in
      let model_name :=
        if gemini_model company =? EmptyString then default_model
        else gemini_model company in
      if api_key =? EmptyString then
        Raise (UserError "Gemini API Key is not set in HR Settings.")
      else if model_name =? EmptyString then
        Raise (UserError "Gemini Model is not set in HR Settings.")
      else
        match message_main_attachment_id a with
        | None => Raise (UserError "No CV attached.")
        | Some att =>
            if datas att =? EmptyString then
              Raise (UserError "Attached CV is empty.")
            else Ok (api_key, model_name, att)
        end
  end.

(** Steps 1 to 4 of the first block, and the status written before the
    parsing: the text of the response. *)
Definition call_model (h : host) (self : nat) : M world string :=
  checked <- (fun w => (validate (working w) self, w)) ;;
  let '(api_key, model_name, att) := checked in
  write_state h self processing "Processing: Calling Gemini API..." ;;;
  response_text <-
    lift (generate_content h api_key model_name (mimetype att) (datas att)) ;;
  on_working
    (write_applicant h self
       (status_vals "Processing: Parsing response...")) ;;;
  ret response_text.

(** Steps 5 to 7 of the first block: the skills to process, [[]] when
    there are none to process.  The parser is called on [batch], the record
    set of the job, not on the applicant of the loop. *)
Definition apply_response (h : host) (batch : list nat) (self : nat)
  (response_text : string) : M world json :=
  extracted_data <- lift (_parse_gemini_response h batch response_text) ;;
  on_working (_write_extracted_data h self extracted_data) ;;;
  match extracted_data with
  | JObj fields =>
      fun w =>
        if truthy (py_get fields "skills")
           && (hr_recruitment_skills_state (working w) =? "installed")
        then (Ok (py_get fields "skills"), w)
        else (Ok (JArr []), w)
  | _ => raise (no_attribute extracted_data "get")
  end.

(** Transaction step 1, under its savepoint. *)
Definition core_step (h : host) (batch : list nat) (self : nat)
  : M world json :=
  savepoint_block
    (response_text <- call_model h self ;;
     apply_response h batch self response_text).

(** Transaction step 2, under its savepoint: the logging call takes the
    length of the list, then the skills are processed. *)
Definition skills_step (h : host) (self : nat) (gemini_skills_list : json)
  : M world unit :=
  savepoint_block
    (lift (py_len gemini_skills_list) ;;;
     on_working (_process_skills h self gemini_skills_list)).

Definition success_message : string := "Successfully extracted data.".

Definition partial_message (e_skill : exn) : string :=
  "Successfully saved simple data, but failed to process skills: "
    ++ exn_str e_skill.

Definition error_message (e : exn) : string := "Error: " ++ exn_str e.

(** The handler of the job: the transaction is rolled back, then a cursor
    of its own writes the error state and commits.  When that write fails
    the failure is logged and nothing is written. *)
Definition record_error (h : host) (self : nat) (e : exn) (w : world)
  : world :=
  let w1 := rollback w in
  match write_applicant h self (state_vals error (error_message e))
          (committed w1) with
  | (Ok _, d) =>
      {| committed := d; working := d;
         journal := journal w1 ++ entry (committed w1) self error |}
  | (Raise _, _) => w1
  end.

(** The body of the loop of [_run_gemini_extraction] on the record set
    [batch], for the applicant [self]. *)
Definition extract_one (h : host) (batch : list nat) (self : nat) (w : world)
  : world :=
  match core_step h batch self w with
  | (Raise e, w1) => record_error h self e w1
  | (Ok gemini_skills_list, w1) =>
      let (skill_status_message, w2) :=
        if truthy gemini_skills_list then
          match skills_step h self gemini_skills_list w1 with
          | (Ok _, w2) => (success_message, w2)
          | (Raise e_skill, w2) => (partial_message e_skill, w2)
          end
        else (success_message, w1) in
      match write_state h self done skill_status_message w2 with
      | (Ok _, w3) => commit w3
      | (Raise e, w3) => record_error h self e w3
      end
  end.

(** [_run_gemini_extraction] *)
Definition _run_gemini_extraction (h : host) (ids : list nat) (w : world)
  : world :=
  fold_left (fun w self => extract_one h ids self w) ids w.

(** [_run_gemini_extraction_in_thread]: the thread opens a cursor of its
    own, runs the job and commits when the cursor is released.  The job
    catches every exception, so the handler of the thread has nothing to
    handle here. *)
Definition _run_gemini_extraction_in_thread (h : host) (ids : list nat)
  (w : world) : world :=
  commit (_run_gemini_extraction h ids (rollback w)).

(** ** The dispatcher *)

Definition can_retry (st : extract_state) : bool :=
  match st with
  | no_extract | error | done => true
  | pending | processing => false
  end.

(** [_compute_can_extract_with_gemini] for one record. *)
Definition _compute_can_extract_with_gemini (d : db) (a : applicant) : bool :=
  let company := company_of d a in
  let is_manual_mode := gemini_cv_extract_mode company =? "manual_send" in
  is_manual_mode
  && match message_main_attachment_id a with
     | Some _ => true
     | None => false
     end
  && can_retry (gemini_extract_state a).

(** [self.filtered(lambda a: a.can_extract_with_gemini)] *)
Definition ready (d : db) (ids : list nat) : list nat :=
  filter (fun id =>
            match find_applicant d id with
            | Some a => _compute_can_extract_with_gemini d a
            | None => false
            end) ids.

Definition pending_vals : applicant_vals :=
  state_vals pending "Pending: Queued for extraction...".

(** [applicants_to_process.write(...)]: one call for all the records. *)
Fixpoint write_each (h : host) (ids : list nat) (v : applicant_vals)
  : M db unit :=
  match ids with
  | [] => ret tt
  | id :: rest => write_applicant h id v ;;; write_each h rest v
  end.

Definition no_applicants : exn :=
  UserError "There are no applicants here that are ready for extraction.".

(** [action_extract_with_gemini], up to the start of the thread: the ids
    handed to the thread. *)
Definition action_extract_with_gemini (h : host) (ids : list nat)
  : M world (list nat) :=
  fun w =>
    let applicants_to_process := ready (working w) ids in
    match applicants_to_process with
    | [] => (Raise no_applicants, w)
    | _ =>
        match write_each h applicants_to_process pending_vals (working w) with
        | (Ok _, d) =>
            (Ok applicants_to_process,
             commit {| committed := committed w; working := d;
                       journal :=
                         journal w ++
                         flat_map (fun id => entry (working w) id pending)
                                  applicants_to_process |})
        | (Raise e, d) =>
            (Raise e, {| committed := committed w; working := d;
                         journal := journal w |})
        end
    end.

(** The action followed by the run of its thread. *)
Definition submit (h : host) (ids : list nat) (w : world)
  : result unit * world :=
  match action_extract_with_gemini h ids w with
  | (Ok to_process, w1) =>
      (Ok tt, _run_gemini_extraction_in_thread h to_process w1)
  | (Raise e, w1) => (Raise e, rollback w1)
  end.

(** ** What the two searches of the parser are to find *)

Definition has_fence (text : string) : Prop :=
  exists pre inner post,
    text = pre ++ fence_open ++ inner ++ fence_close ++ post.

(** [inner] is group 1 of the leftmost match of the fenced pattern in
    [text], the lazy group being as short as a match allows. *)
Definition fence_match (text inner : string) : Prop :=
  exists pre post,
    text = pre ++ fence_open ++ inner ++ fence_close ++ post
    /\ (forall pre' inner' post',
           text = pre' ++ fence_open ++ inner' ++ fence_close ++ post' ->
           String.length pre <= String.length pre')
    /\ (forall inner' post',
           inner ++ fence_close ++ post = inner' ++ fence_close ++ post' ->
           String.length inner <= String.length inner').


(** [span] runs from the first opening brace of [text] that has a closing
    brace after it to the last closing brace of [text]. *)
Definition brace_match (text span : string) : Prop :=
  exists pre mid post,
    span = "{" ++ mid ++ "}"
    /\ text = pre ++ span ++ post
    /\ (forall pre' mid' post',
           text = pre' ++ "{" ++ mid' ++ "}" ++ post' ->
           String.length pre <= String.length pre')
    /\ (forall mid' post',
           mid ++ "}" ++ post = mid' ++ "}" ++ post' ->
           String.length mid' <= String.length mid).

(** [c] is a character of [s]. *)
Fixpoint occurs (c : ascii) (s : string) : Prop :=
  match s with
  | EmptyString => False
  | String a s' => a = c \/ occurs c s'
  end.

(** ** What the reconciler is to keep *)

(** No two links join the same applicant to the same skill. *)
Definition links_unique (d : db) : Prop :=
  NoDup (map (fun l => (link_applicant_id l, link_skill_id l))
             (applicant_skills d)).

(** The links of an applicant to a skill. *)
Definition links_to (d : db) (self skill : nat) : list applicant_skill :=
  filter (fun l => (link_applicant_id l =? self)%nat
                   && (link_skill_id l =? skill)%nat)
         (applicant_skills d).

(** The skill names of the items that the loop of [_process_skills] does
    not skip and can link: the objects whose skill is a non-empty
    string. *)
Fixpoint named_skills (items : list json) : list string :=
  match items with
  | [] => []
  | JObj fields :: rest =>
      match py_get fields "skill" with
      | JStr n => if n =? EmptyString then named_skills rest
                  else n :: named_skills rest
      | _ => named_skills rest
      end
  | _ :: rest => named_skills rest
  end.

(** The applicant has a link to the skill that a search for [n] finds. *)
Definition linked (d : db) (self : nat) (n : string) : Prop :=
  exists s l, search_skill d n = Some s
              /\ search_link d self (skill_id s) = Some l.

(** The id and the name of each skill, in the order of the table. *)
Definition skill_keys (d : db) : list (nat * string) :=
  map (fun s => (skill_id s, skill_name s)) (skills d).

(** The key names a skill that a search for [n] finds. *)
Definition key_matches (n : string) (k : nat * string) : bool :=
  ilike (snd k) n.

(** The skills, the links and the applicants are what they were. *)
Definition frame (d d' : db) : Prop :=
  skills d' = skills d /\ applicant_skills d' = applicant_skills d
  /\ applicants d' = applicants d.

(** The skills kept their ids and names; the links and the applicants are
    what they were. *)
Definition same (d d' : db) : Prop :=
  skill_keys d' = skill_keys d /\ applicant_skills d' = applicant_skills d
  /\ applicants d' = applicants d.

(** Skills and links were added at the end of their tables, the names of
    the skills were kept, no link was added twice, and the applicants are
    what they were. *)
Definition grows (d d' : db) : Prop :=
  (exists more, skill_keys d' = (skill_keys d ++ more)%list)
  /\ (exists more,
        applicant_skills d' = (applicant_skills d ++ more)%list)
  /\ (links_unique d -> links_unique d')
  /\ applicants d' = applicants d.

(** Every run of [m] relates the state before to the state after, whether
    it returns or raises. *)
Definition preserves {S A : Type} (R : S -> S -> Prop) (m : M S A) : Prop :=
  forall s r s', m s = (r, s') -> R s s'.

(** The cached skills are the ones a search would find. *)
Definition skill_cache_ok (c : caches) (d : db) : Prop :=
  forall k s, cache_get (skill_cache c) k = Some s ->
  forall n, Text.lower n = k ->
            option_map skill_id (search_skill d n) = Some s.

(** The cached skills are linked to the applicant. *)
Definition skill_cache_linked (c : caches) (d : db) (self : nat) : Prop :=
  forall k s, cache_get (skill_cache c) k = Some s ->
              exists l, search_link d self s = Some l.

(** ** What the job is to keep *)

(** Nothing was committed. *)
Definition keeps_committed (w w' : world) : Prop :=
  committed w' = committed w.

(** The writes of the state field made from [w] to [w'] all satisfy [P]. *)
Definition journal_adds (P : transition -> Prop) (w w' : world) : Prop :=
  exists new, journal w' = (journal w ++ new)%list /\ Forall P new.

(** A state the job writes. *)
Definition job_state (t : transition) : Prop :=
  tr_to t = processing \/ tr_to t = done \/ tr_to t = error.

(** The applicants are the same records, and all but [self] have the same
    fields. *)
Definition keeps_applicants (self : nat) (d d' : db) : Prop :=
  forall id,
    match find_applicant d id with
    | Some a =>
        exists a', find_applicant d' id = Some a' /\ (id <> self -> a' = a)
    | None => find_applicant d' id = None
    end.

(** The state of each applicant is what it was, or Done, or Error. *)
Definition settles (d d' : db) : Prop :=
  forall id,
    match find_applicant d id with
    | Some a =>
        exists a', find_applicant d' id = Some a'
          /\ (gemini_extract_state a' = gemini_extract_state a
              \/ gemini_extract_state a' = done
              \/ gemini_extract_state a' = error)
    | None => find_applicant d' id = None
    end.

(** What a block of the job on [self] may do: commit nothing, write to the
    state field only the states of the job, and change no other
    applicant. *)
Definition job_step (self : nat) (w w' : world) : Prop :=
  keeps_committed w w'
  /\ journal_adds job_state w w'
  /\ keeps_applicants self (working w) (working w').

(** ** What the dispatcher is to keep *)

(** The eligibility of a record: the company is in the manual mode, a
    document is attached, and the state is one from which a run may
    start. *)
Definition eligible (d : db) (a : applicant) : Prop :=
  gemini_cv_extract_mode (company_of d a) = "manual_send"
  /\ message_main_attachment_id a <> None
  /\ (gemini_extract_state a = no_extract
      \/ gemini_extract_state a = error
      \/ gemini_extract_state a = done).

(** A write of the state Pending on a record that the tables [d] hold and
    make eligible. *)
Definition enters_pending (d : db) (t : transition) : Prop :=
  tr_to t = pending
  /\ exists a, find_applicant d (tr_record t) = Some a
       /\ tr_from t = gemini_extract_state a
       /\ eligible d a.

(** The state of each applicant is what it was, or Pending for an
    applicant that was eligible. *)
Definition queues (d d' : db) : Prop :=
  forall id,
    match find_applicant d id with
    | Some a =>
        exists a', find_applicant d' id = Some a'
          /\ (gemini_extract_state a' = gemini_extract_state a
              \/ (gemini_extract_state a' = pending /\ eligible d a))
    | None => find_applicant d' id = None
    end.

(** ** Sample data *)

Module Sample.

(** A model that answers [text] whatever it is sent, and a decoder that
    knows that text alone. *)
Definition answering (text : string) (payload : option json)
  (refuse : store_op -> db -> option string) : host :=
  {| json_loads := fun s => if s =? text then payload else None;
     py_repr := fun _ => "?";
     generate_content := fun _ _ _ _ => Ok text;
     rejects := refuse |}.

(** A store that carries out every call. *)
Definition accept_all (op : store_op) (d : db) : option string := None.

Definition acme : company :=
  {| gemini_api_key := "key"; gemini_model := "gemini-pro";
     gemini_cv_extract_mode := "manual_send" |}.

Definition cv : attachment :=
  {| datas := "JVBERi0="; mimetype := "application/pdf" |}.

(** An applicant with a document, waiting in state [st] under the display
    name [display]. *)
Definition candidate (id : nat) (st : extract_state) (display : string)
  : applicant :=
  {| applicant_id := id;
     company_id := None;
     message_main_attachment_id := Some cv;
     gemini_extract_state := st;
     gemini_extract_status := EmptyString;
     name := display;
     partner_name := EmptyString;
     email_from := EmptyString;
     partner_phone := EmptyString;
     linkedin_profile := EmptyString;
     type_id := None |}.

(** Tables that hold the applicants [l] and the skill levels [levels]. *)
Definition tables (l : list applicant) (levels : list skill_level) : db :=
  {| applicants := l; degrees := []; skill_types := [];
     skill_levels := levels; skills := []; applicant_skills := [];
     env_company := acme; hr_recruitment_skills_state := "installed" |}.

Definition fresh_world (d : db) : world :=
  {| committed := d; working := d; journal := [] |}.

(** An applicant whose display name was typed by a recruiter, after an
    earlier extraction had found the name Alice. *)
Definition typed_by_hand : applicant :=
  {| applicant_id := 1;
     company_id := None;
     message_main_attachment_id := Some cv;
     gemini_extract_state := done;
     gemini_extract_status := EmptyString;
     name := "Team Lead's Application";
     partner_name := "Alice";
     email_from := EmptyString;
     partner_phone := EmptyString;
     linkedin_profile := EmptyString;
     type_id := None |}.

Definition bob : list (string * json) :=
  [("name", JStr "Bob"); ("degree", JStr "Master")].

(** A store that refuses to create degrees. *)
Definition no_new_degree (op : store_op) (d : db) : option string :=
  match op with
  | CreateDegree _ => Some "permission denied"
  | _ => None
  end.

(** A store that refuses to create degrees and to write applicants. *)
Definition no_degree_no_write (op : store_op) (d : db) : option string :=
  match op with
  | CreateDegree _ | WriteApplicant _ _ => Some "permission denied"
  | _ => None
  end.

(** A store that refuses to create skill levels. *)
Definition no_new_level (op : store_op) (d : db) : option string :=
  match op with
  | CreateSkillLevel _ _ => Some "permission denied"
  | _ => None
  end.

Definition beginner : skill_level :=
  {| skill_level_id := 1; skill_level_name := "Beginner";
     level_progress := 15 |}.

Definition expert : skill_level :=
  {| skill_level_id := 2; skill_level_name := "Expert";
     level_progress := 100 |}.

(** Two items that name the same skill, up to the case of letters. *)
Definition python_twice : list json :=
  [JObj [("type", JStr "Programming Languages"); ("skill", JStr "Python");
         ("level", JStr "Advanced (80%)")];
   JObj [("skill", JStr "python")]].

(** A store that refuses to write the state [st] on an applicant. *)
Definition no_state (st : extract_state) (op : store_op) (d : db)
  : option string :=
  match op with
  | WriteApplicant _ v =>
      match set_state v with
      | Some st' =>
          if extract_state_eqb st st' then Some "could not serialize access"
          else None
      | None => None
      end
  | _ => None
  end.

Definition quote : string := String (ascii_of_nat 34) EmptyString.

(** The response of the module's test of an invalid response. *)
Definition unterminated : string := "Here is the data: { 'name': 'test' ".

(** A response whose skills are a number. *)
Definition skills_five_text : string :=
  "{" ++ quote ++ "name" ++ quote ++ ": " ++ quote ++ "Bob" ++ quote ++ ", "
      ++ quote ++ "skills" ++ quote ++ ": 5}".

Definition skills_five : json :=
  JObj [("name", JStr "Bob"); ("skills", JInt 5)].

(** A response with one skill whose type is a number. *)
Definition typed_five_text : string :=
  "{" ++ quote ++ "name" ++ quote ++ ": " ++ quote ++ "Bob" ++ quote ++ ", "
      ++ quote ++ "skills" ++ quote ++ ": [{" ++ quote ++ "skill" ++ quote
      ++ ": " ++ quote ++ "Python" ++ quote ++ ", " ++ quote ++ "type"
      ++ quote ++ ": 5}]}".

Definition typed_five : json :=
  JObj [("name", JStr "Bob");
        ("skills", JArr [JObj [("skill", JStr "Python"); ("type", JInt 5)]])].

(** A company in the manual mode that has no API key. *)
Definition keyless : company :=
  {| gemini_api_key := EmptyString; gemini_model := "gemini-pro";
     gemini_cv_extract_mode := "manual_send" |}.

(** An applicant of that company, with a document, never extracted. *)
Definition keyless_candidate : applicant :=
  {| applicant_id := 1;
     company_id := Some keyless;
     message_main_attachment_id := Some cv;
     gemini_extract_state := no_extract;
     gemini_extract_status := EmptyString;
     name := EmptyString;
     partner_name := EmptyString;
     email_from := EmptyString;
     partner_phone := EmptyString;
     linkedin_profile := EmptyString;
     type_id := None |}.

(** One applicant queued for extraction, and a level Beginner. *)
Definition queued : world :=
  fresh_world (tables [candidate 1 pending EmptyString] [beginner]).

(** The model answers the unterminated text; the store accepts
    everything. *)
Definition garbled : host := answering unterminated None accept_all.


(** The model answers a skill whose type is a number. *)
Definition ill_typed : host :=
  answering typed_five_text (Some typed_five) accept_all.

(** The same, with a store that refuses to write the state Done. *)
Definition ill_typed_unfinished : host :=
  answering typed_five_text (Some typed_five) (no_state done).

(** The model answers skills that are a number. *)
Definition numbered : host :=
  answering skills_five_text (Some skills_five) accept_all.

End Sample.

(** ** What the parsers of text are to accept *)

(** Every character of [s] is white space. *)
Fixpoint blank (s : string) : bool :=
  match s with
  | EmptyString => true
  | String c s' => Text.is_space c && blank s'
  end.

(** Every character of [s] is a decimal digit. *)
Fixpoint digits (s : string) : bool :=
  match s with
  | EmptyString => true
  | String c s' => is_digit c && digits s'
  end.

(** ** What the writer is to keep *)

(** The taxonomy of skills and the links are what they were. *)
Definition same_taxonomy (d d' : db) : Prop :=
  skill_types d' = skill_types d /\ skill_levels d' = skill_levels d
  /\ skills d' = skills d /\ applicant_skills d' = applicant_skills d.

(** The company of the environment and the state of the skills module are
    what they were. *)
Definition same_setup (d d' : db) : Prop :=
  env_company d' = env_company d
  /\ hr_recruitment_skills_state d' = hr_recruitment_skills_state d.

(** The applicants are the same records; each has the state, the status,
    the company and the document it had, and all but [self] have all the
    fields they had. *)
Definition keeps_progress (self : nat) (d d' : db) : Prop :=
  forall id,
    match find_applicant d id with
    | Some a =>
        exists a', find_applicant d' id = Some a'
          /\ gemini_extract_state a' = gemini_extract_state a
          /\ gemini_extract_status a' = gemini_extract_status a
          /\ company_id a' = company_id a
          /\ message_main_attachment_id a' = message_main_attachment_id a
          /\ (id <> self -> a' = a)
    | None => find_applicant d' id = None
    end.

(** ** What the reconciler works on, and what it is to keep *)

(** The items the loop of [_process_skills] does not skip: the objects
    whose skill is neither missing, null nor empty. *)
Definition has_skill (item : json) : bool :=
  match item with
  | JObj fields => truthy (py_get fields "skill")
  | _ => false
  end.

(** The level is one of the levels of the type. *)
Definition level_of_type (d : db) (type level : nat) : Prop :=
  exists t, find_skill_type d type = Some t
            /\ has_id level (skill_level_ids t) = true.

(** Every link names a level among the levels of the type it names. *)
Definition links_typed (d : db) : Prop :=
  Forall (fun l => level_of_type d (link_skill_type_id l)
                     (link_skill_level_id l))
         (applicant_skills d).

(** The types are still there, each with the levels it had and maybe
    more. *)
Definition types_grow (d d' : db) : Prop :=
  forall type level, level_of_type d type level -> level_of_type d' type level.

(** No two skill types and no two skills share a name, and no two levels
    share a name and a progress, names being compared as [=ilike]
    compares them. *)
Definition taxonomy_unique (d : db) : Prop :=
  NoDup (map (fun t => Text.lower (skill_type_name t)) (skill_types d))
  /\ NoDup (map (fun s => Text.lower (skill_name s)) (skills d))
  /\ NoDup (map (fun l => (Text.lower (skill_level_name l), level_progress l))
                (skill_levels d)).

(** No two degrees share a name, up to the case of letters. *)
Definition degrees_unique (d : db) : Prop :=
  NoDup (map (fun r => Text.lower (degree_name r)) (degrees d)).

(** The links of [d'] name levels of their types when those of [d] do, and
    the types have kept their levels. *)
Definition typed_step (d d' : db) : Prop :=
  types_grow d d' /\ (links_typed d -> links_typed d').

(** The taxonomy of [d'] has no duplicate when that of [d] has none. *)
Definition unique_step (d d' : db) : Prop :=
  taxonomy_unique d -> taxonomy_unique d'.

(** ** What the job is to reach *)

(** The record has been through the job: it is Done with the message of a
    full or of a partial success, or in Error with the message of an
    error. *)
Definition finished (a : applicant) : Prop :=
  (gemini_extract_state a = done
   /\ (gemini_extract_status a = success_message
       \/ exists e, gemini_extract_status a = partial_message e))
  \/ (gemini_extract_state a = error
      /\ exists e, gemini_extract_status a = error_message e).

(** Nothing was committed, and the open transaction has the settings and
    the taxonomy it had. *)
Definition keeps_skills (w w' : world) : Prop :=
  committed w' = committed w
  /\ same_setup (working w) (working w')
  /\ same_taxonomy (working w) (working w').

(** ** What the reconciler may add, and when it returns *)

(** The id and the name of each type, in the order of the table. *)
Definition type_keys (d : db) : list (nat * string) :=
  map (fun t => (skill_type_id t, skill_type_name t)) (skill_types d).

(** Rows were added at the end of the tables of types, levels, skills and
    links, and none was removed; the types and the skills kept their ids
    and names and the levels all their fields; every link added is a link
    of [self]; the applicants, the degrees and the settings are what they
    were. *)
Definition only_adds (self : nat) (d d' : db) : Prop :=
  applicants d' = applicants d
  /\ degrees d' = degrees d
  /\ same_setup d d'
  /\ (exists more, type_keys d' = (type_keys d ++ more)%list)
  /\ (exists more, skill_levels d' = (skill_levels d ++ more)%list)
  /\ (exists more, skill_keys d' = (skill_keys d ++ more)%list)
  /\ (exists more,
        applicant_skills d' = (applicant_skills d ++ more)%list
        /\ Forall (fun l => link_applicant_id l = self) more).

(** A value of an item that the loop can take: a string, or a value that
    counts as missing. *)
Definition stringy (v : json) : bool :=
  match v with
  | JStr _ => true
  | _ => negb (truthy v)
  end.

(** An item that the loop skips or whose three values it can take. *)
Definition well_formed (item : json) : bool :=
  match item with
  | JObj fields =>
      negb (truthy (py_get fields "skill"))
      || (stringy (py_get fields "skill") && stringy (py_get fields "type")
          && stringy (py_get fields "level"))
  | _ => true
  end.

(** The cached types are rows of the table. *)
Definition type_cache_ok (c : caches) (d : db) : Prop :=
  forall k t, cache_get (type_cache c) k = Some t ->
              find_skill_type d t <> None.

(** No write of the state field was made. *)
Definition quiet (w w' : world) : Prop := journal w' = journal w.

(** The states that the job on one record may write, in the order of the
    writes. *)
Definition run_writes (l : list extract_state) : Prop :=
  l = [] \/ l = [error] \/ l = [processing]
  \/ l = [processing; error] \/ l = [processing; done].

(** ** More sample data *)

Module Stock.

(** A host whose store carries every call out and whose model answers the
    empty text. *)
Definition willing : host :=
  Sample.answering EmptyString None Sample.accept_all.

(** One applicant with a document, queued, and no taxonomy but the level
    Beginner. *)
Definition one_queued : db :=
  Sample.tables [Sample.candidate 1 pending EmptyString] [Sample.beginner].

(** Tables of a database where the module of skills is not installed. *)
Definition bare (l : list applicant) : db :=
  {| applicants := l; degrees := []; skill_types := []; skill_levels := [];
     skills := []; applicant_skills := []; env_company := Sample.acme;
     hr_recruitment_skills_state := "uninstalled" |}.

(** Two types, and the skill Python filed under the first. *)
Definition typed_python : db :=
  {| applicants := []; degrees := [];
     skill_types :=
       [{| skill_type_id := 1; skill_type_name := "IT";
           skill_level_ids := [] |};
        {| skill_type_id := 2; skill_type_name := "Programming Languages";
           skill_level_ids := [] |}];
     skill_levels := [Sample.beginner];
     skills := [{| skill_id := 1; skill_name := "Python";
                   skill_type_of := 1 |}];
     applicant_skills := []; env_company := Sample.acme;
     hr_recruitment_skills_state := "installed" |}.

(** A payload with a name and two skills. *)
Definition skilled : json :=
  JObj [("name", JStr "Bob"); ("skills", JArr Sample.python_twice)].

(** A payload with a name and a null email. *)
Definition bob_no_email : list (string * json) :=
  [("name", JStr "Bob"); ("email", JNull)].

(** An answer that wraps the JSON value null in a fenced block. *)
Definition fenced_null : string := fence_open ++ "null" ++ fence_close.

(** Two applicants queued for extraction, and a level Beginner. *)
Definition two_queued : world :=
  Sample.fresh_world
    (Sample.tables [Sample.candidate 1 pending EmptyString;
                    Sample.candidate 2 pending EmptyString]
       [Sample.beginner]).

(** Two applicants, the first ready for a run, the second in a run. *)
Definition two_records : world :=
  Sample.fresh_world
    (Sample.tables [Sample.candidate 1 no_extract EmptyString;
                    Sample.candidate 2 processing EmptyString]
       [Sample.beginner]).

End Stock.

(** * Properties *)

(** ** Text *)

Module TextFacts.
Import Text.

Lemma app_nil_r (s : string) : s ++ EmptyString = s.
Proof. induction s as [|c s IH]; simpl; [reflexivity | now rewrite IH]. Qed.

Lemma app_assoc (a b c : string) : (a ++ b) ++ c = a ++ b ++ c.
Proof. induction a as [|x a IH]; simpl; [reflexivity | now rewrite IH]. Qed.

Lemma length_app (a b : string) :
  String.length (a ++ b) = String.length a + String.length b.
Proof. induction a as [|x a IH]; simpl; [reflexivity | now rewrite IH]. Qed.

(** Two splits of one text, the first prefix being the shorter: the
    second prefix extends the first. *)
Lemma app_split (a : string) :
  forall b x y, a ++ x = b ++ y -> String.length a <= String.length b ->
  exists z, b = a ++ z /\ x = z ++ y.
Proof.
  induction a as [|c a IH]; intros b x y E L.
  - exists b. split; [reflexivity | exact E].
  - destruct b as [|c' b]; simpl in L; [lia|].
    simpl in E. injection E as -> E.
    destruct (IH b x y E ltac:(lia)) as (z & -> & ->).
    exists z. split; reflexivity.
Qed.

Lemma app_inj_length (a b x y : string) :
  a ++ x = b ++ y -> String.length a = String.length b -> a = b /\ x = y.
Proof.
  intros E L.
  destruct (app_split a b x y E ltac:(lia)) as (z & -> & ->).
  rewrite length_app in L.
  destruct z; simpl in L; [|lia].
  rewrite app_nil_r. split; reflexivity.
Qed.

Lemma strip_prefix_spec (p : string) :
  forall s t, strip_prefix p s = Some t <-> s = p ++ t.
Proof.
  induction p as [|a p IH]; intros s t; simpl.
  - split; [intros [= ->] | intros ->]; reflexivity.
  - destruct s as [|b s].
    + split; discriminate.
    + destruct (Ascii.eqb_spec a b) as [->|N].
      * rewrite IH. split; [intros -> | intros [= ->]]; reflexivity.
      * split; [discriminate | intros [= E _]; congruence].
Qed.

Lemma find_first_sound (p : string) :
  forall s a b, find_first p s = Some (a, b) -> s = a ++ p ++ b.
Proof.
  induction s as [|c s IH]; intros a b; simpl.
  - destruct (strip_prefix p EmptyString) eqn:E; [|discriminate].
    intros [= <- <-]. apply strip_prefix_spec in E. exact E.
  - destruct (strip_prefix p (String c s)) eqn:E.
    + intros [= <- <-]. apply strip_prefix_spec in E. exact E.
    + destruct (find_first p s) as [[a' b']|] eqn:F; [|discriminate].
      intros [= <- <-]. simpl. now rewrite (IH a' b').
Qed.

(** The split is at the leftmost occurrence. *)
Lemma find_first_leftmost (p : string) :
  forall a' s b', s = a' ++ p ++ b' ->
  exists a b, find_first p s = Some (a, b)
              /\ String.length a <= String.length a'.
Proof.
  induction a' as [|c a' IH]; intros s b' ->.
  - exists EmptyString, b'. split; [|simpl; lia].
    assert (E : strip_prefix p (p ++ b') = Some b')
      by now apply strip_prefix_spec.
    simpl (EmptyString ++ _).
    destruct (p ++ b'); simpl; simpl in E; rewrite E; reflexivity.
  - simpl. destruct (strip_prefix p (String c (a' ++ p ++ b'))) eqn:E.
    + exists EmptyString, s. split; [reflexivity | simpl; lia].
    + destruct (IH (a' ++ p ++ b') b' eq_refl) as (a & b & F & L).
      rewrite F. exists (String c a), b. split; [reflexivity | simpl; lia].
Qed.

Lemma find_first_none (p s : string) :
  find_first p s = None <-> (forall a b, s <> a ++ p ++ b).
Proof.
  split.
  - intros N a b E.
    destruct (find_first_leftmost p a s b E) as (? & ? & F & _). congruence.
  - intros N. destruct (find_first p s) as [[a b]|] eqn:F; [|reflexivity].
    destruct (N a b). now apply find_first_sound.
Qed.

Lemma occurs_app (c : ascii) (a b : string) :
  occurs c (a ++ b) <-> occurs c a \/ occurs c b.
Proof. induction a as [|x a IH]; simpl; tauto. Qed.

Lemma upto_last_none (c : ascii) (s : string) :
  upto_last c s = None <-> ~ occurs c s.
Proof.
  induction s as [|a s IH]; simpl; [tauto|].
  destruct (upto_last c s) eqn:E.
  - split; [discriminate|]. intros N. exfalso.
    destruct IH as [_ IH]. assert (H : Some s0 = None) by (apply IH; tauto).
    discriminate.
  - destruct (Ascii.eqb_spec a c) as [->|N].
    + split; [discriminate | tauto].
    + split; [|reflexivity]. intros _. destruct IH as [IH _]. 
      specialize (IH eq_refl). tauto.
Qed.

(** The split is at the last occurrence. *)
Lemma upto_last_sound (c : ascii) (s : string) :
  forall m, upto_last c s = Some m ->
  exists post, s = m ++ String c post /\ ~ occurs c post.
Proof.
  induction s as [|a s IH]; simpl; intros m; [discriminate|].
  destruct (upto_last c s) eqn:E.
  - intros [= <-]. destruct (IH s0 eq_refl) as (post & -> & N).
    exists post. split; [reflexivity | exact N].
  - destruct (Ascii.eqb_spec a c) as [->|N]; [|discriminate].
    intros [= <-]. exists s. split; [reflexivity|].
    now apply upto_last_none.
Qed.

Lemma upto_last_some (c : ascii) (s : string) :
  occurs c s -> exists m, upto_last c s = Some m.
Proof.
  intros O. destruct (upto_last c s) eqn:E; [eauto|].
  apply upto_last_none in E. tauto.
Qed.

End TextFacts.

(** ** The response parser *)

Module ParserFacts.
Import Text TextFacts.

Lemma last_is_longest (c : ascii) (m : string) :
  forall m' p p', m ++ String c p = m' ++ String c p' -> ~ occurs c p ->
  String.length m' <= String.length m.
Proof.
  intros m' p p' E N.
  destruct (Nat.le_gt_cases (String.length m') (String.length m)) as [L|L];
    [exact L | exfalso].
  destruct (app_split m m' _ _ E ltac:(lia)) as (z & -> & E').
  rewrite length_app in L.
  destruct z as [|x z]; simpl in L; [lia|].
  simpl in E'. injection E' as _ ->.
  apply N, occurs_app. right. simpl. left. reflexivity.
Qed.


Lemma search_fence_complete (text inner : string) :
  fence_match text inner -> search_fence text = Some inner.
Proof.
  intros (pre & post & E & Left & Lazy). unfold search_fence.
  destruct (find_first_leftmost _ _ _ _ E) as (a & b & F & L).
  rewrite F. pose proof (find_first_sound _ _ _ _ F) as Ea.
  assert (Eab : a ++ fence_open ++ b
                = pre ++ fence_open ++ inner ++ fence_close ++ post)
    by congruence.
  destruct (app_split _ _ _ _ Eab L) as (z & -> & Ez).
  rewrite <- app_assoc in Ez.
  destruct (app_split fence_open (z ++ fence_open) _ _ Ez
              ltac:(rewrite length_app; lia)) as (y & Ey & ->).
  assert (Lz : String.length (a ++ z) <= String.length a).
  { apply (Left a (y ++ inner) post). rewrite Ea.
    now rewrite !app_assoc. }
  rewrite length_app in Lz.
  destruct z as [|x z]; simpl in Lz; [|lia].
  change (EmptyString ++ fence_open) with fence_open in Ey.
  assert (y = EmptyString) as ->.
  { apply (f_equal String.length) in Ey. rewrite length_app in Ey.
    destruct y; [reflexivity | simpl in Ey; lia]. }
  change (EmptyString ++ ?x) with x.
  destruct (find_first_leftmost fence_close inner
              (inner ++ fence_close ++ post) post eq_refl)
    as (i2 & p2 & G & L2).
  rewrite G. pose proof (find_first_sound _ _ _ _ G) as E2.
  pose proof (Lazy i2 p2 E2) as L3.
  destruct (app_inj_length _ _ _ _ E2 ltac:(lia)) as [-> _].
  reflexivity.
Qed.

Lemma search_fence_none (text : string) :
  search_fence text = None <-> ~ has_fence text.
Proof.
  unfold search_fence, has_fence. split.
  - intros N (pre & inner & post & E).
    destruct (find_first_leftmost _ _ _ _ E) as (a & b & F & L).
    rewrite F in N. pose proof (find_first_sound _ _ _ _ F) as Ea.
    assert (Eab : a ++ fence_open ++ b
                  = pre ++ fence_open ++ inner ++ fence_close ++ post)
      by congruence.
    destruct (app_split _ _ _ _ Eab L) as (z & -> & Ez).
    rewrite <- app_assoc in Ez.
    destruct (app_split fence_open (z ++ fence_open) _ _ Ez
                ltac:(rewrite length_app; lia)) as (y & Ey & ->).
    destruct (find_first fence_close (y ++ inner ++ fence_close ++ post))
      as [[i p]|] eqn:G; [discriminate|].
    apply find_first_none with (a := y ++ inner) (b := post) in G.
    apply G. now rewrite app_assoc.
  - intros N.
    destruct (find_first fence_open text) as [[pre rest]|] eqn:F;
      [|reflexivity].
    destruct (find_first fence_close rest) as [[i post]|] eqn:G;
      [|reflexivity].
    destruct N. exists pre, i, post.
    rewrite (find_first_sound _ _ _ _ F), (find_first_sound _ _ _ _ G).
    reflexivity.
Qed.


Lemma search_braces_complete (text span : string) :
  brace_match text span -> search_braces text = Some span.
Proof.
  intros (pre & mid & post & -> & E & Left & Greedy). unfold search_braces.
  assert (E' : text = pre ++ "{" ++ mid ++ "}" ++ post).
  { rewrite E. simpl. now rewrite !app_assoc. }
  destruct (find_first_leftmost _ _ _ _ E') as (a & b & F & L).
  rewrite F. pose proof (find_first_sound _ _ _ _ F) as Ea.
  assert (Eab : a ++ "{" ++ b = pre ++ "{" ++ mid ++ "}" ++ post)
    by congruence.
  destruct (app_split _ _ _ _ Eab L) as (z & -> & Ez).
  assert (z = EmptyString) as ->.
  { destruct z as [|x z]; [reflexivity | exfalso].
    simpl in Ez. injection Ez as _ ->.
    assert (Lz : String.length (a ++ String x z) <= String.length a).
    { apply (Left a (z ++ "{" ++ mid) post). rewrite Ea. simpl.
      now rewrite !app_assoc. }
    rewrite length_app in Lz. simpl in Lz. lia. }
  simpl in Ez. injection Ez as ->.
  destruct (upto_last_some "}" (mid ++ String "}" post)) as (m & G).
  { apply occurs_app. right. simpl. now left. }
  rewrite G. destruct (upto_last_sound _ _ _ G) as (p2 & E2 & N).
  pose proof (Greedy m p2 E2) as L1.
  pose proof (last_is_longest _ _ _ _ _ (eq_sym E2) N) as L2.
  destruct (app_inj_length _ _ _ _ E2 ltac:(lia)) as [-> _].
  reflexivity.
Qed.


End ParserFacts.

Section ParserClaims.
Variable h : host.


End ParserClaims.


(** On one record the same response fails with the parse error. *)
Example parser_on_one_record_quotes_the_response :
  let h := Sample.garbled in
  let response_text := "I could not read the document." in
  _parse_gemini_response h [1] response_text
  = Raise
      (UserError
         "Gemini returned an invalid response that could not be parsed. Raw text: I could not read the document.").
Proof. reflexivity. Qed.

(** ** Record store *)

Module StoreFacts.

Lemma find_map {A : Type} (p : A -> bool) (g : A -> A) (l : list A) :
  (forall x, p (g x) = p x) ->
  find p (map g l) = option_map g (find p l).
Proof.
  intros P. induction l as [|x l IH]; simpl; [reflexivity|].
  rewrite P. destruct (p x); [reflexivity | exact IH].
Qed.

Lemma find_app_some {A : Type} (p : A -> bool) (l l' : list A) (r : A) :
  find p l = Some r -> find p (l ++ l') = Some r.
Proof.
  induction l as [|x l IH]; simpl; [discriminate|].
  destruct (p x); [trivial | exact IH].
Qed.

Lemma find_app_none {A : Type} (p : A -> bool) (l l' : list A) :
  find p l = None -> find p (l ++ l') = find p l'.
Proof.
  induction l as [|x l IH]; simpl; [reflexivity|].
  destruct (p x); [discriminate | exact IH].
Qed.

Lemma find_applicant_update (id : nat) (v : applicant_vals) (d : db)
  (id' : nat) :
  find_applicant (update_applicant id v d) id'
  = option_map
      (fun a => if (applicant_id a =? id)%nat then apply_vals v a else a)
      (find_applicant d id').
Proof.
  unfold find_applicant, update_applicant. simpl. apply find_map.
  intros a. destruct (applicant_id a =? id)%nat; reflexivity.
Qed.

Lemma find_applicant_id (d : db) (id : nat) (a : applicant) :
  find_applicant d id = Some a -> applicant_id a = id.
Proof.
  unfold find_applicant. intros F. apply find_some in F.
  now apply Nat.eqb_eq.
Qed.

Lemma write_applicant_ok (h : host) (id : nat) (v : applicant_vals)
  (d d' : db) (u : unit) :
  write_applicant h id v d = (Ok u, d') ->
  d' = update_applicant id v d
  /\ rejects h (WriteApplicant id v) d = None
  /\ exists a, find_applicant d id = Some a.
Proof.
  unfold write_applicant, store_call.
  destruct (find_applicant d id) as [a|]; [|discriminate].
  destruct (rejects h (WriteApplicant id v) d); [discriminate|].
  intros [= _ <-]. eauto.
Qed.

Lemma write_applicant_accepted (h : host) (id : nat) (v : applicant_vals)
  (d : db) (a : applicant) :
  find_applicant d id = Some a ->
  rejects h (WriteApplicant id v) d = None ->
  write_applicant h id v d = (Ok tt, update_applicant id v d).
Proof.
  unfold write_applicant, store_call. now intros -> ->.
Qed.

Lemma write_applicant_raise (h : host) (id : nat) (v : applicant_vals)
  (d d' : db) (e : exn) :
  write_applicant h id v d = (Raise e, d') -> d' = d.
Proof.
  unfold write_applicant, store_call.
  destruct (find_applicant d id) as [a|]; [|now intros [= _ <-]].
  destruct (rejects h (WriteApplicant id v) d);
    [now intros [= _ <-] | discriminate].
Qed.

Lemma resolve_degree_returns (h : host) (n : string) (d : db) :
  exists t d', resolve_degree h n d = (Ok t, d')
               /\ applicants d' = applicants d.
Proof.
  unfold resolve_degree, create_degree, store_call.
  destruct (search_degree d n) as [r|]; [eauto|].
  destruct (rejects h (CreateDegree n) d); eauto.
Qed.

End StoreFacts.

(** ** The field writer *)

Module WriterFacts.
Import Text TextFacts StoreFacts.

Lemma endswith_nil (suf : string) :
  endswith EmptyString suf = (EmptyString =? suf).
Proof. unfold endswith. apply orb_false_r. Qed.

Lemma endswith_cons (c : ascii) (s suf : string) :
  endswith (String c s) suf = (String c s =? suf) || endswith s suf.
Proof. reflexivity. Qed.

Lemma endswith_spec (suf : string) :
  forall s, endswith s suf = true <-> exists pre, s = pre ++ suf.
Proof.
  induction s as [|c s IH].
  - rewrite endswith_nil, String.eqb_eq. split.
    + intros <-. now exists EmptyString.
    + intros ([|x pre] & E); [exact E | discriminate].
  - rewrite endswith_cons, orb_true_iff, String.eqb_eq, IH. split.
    + intros [<- | (pre & ->)].
      * now exists EmptyString.
      * now exists (String c pre).
    + intros ([|x pre] & E); simpl in E.
      * now left.
      * injection E as -> ->. right. now exists pre.
Qed.

Lemma truthy_get_nonempty (fields : list (string * json)) (k : string) :
  truthy (py_get fields k) = true -> truthy (JObj fields) = true.
Proof. destruct fields; [discriminate | reflexivity]. Qed.

Lemma simple_vals_name_irrelevant (h : host) (fields : list (string * json))
  (n n' : string) :
  truthy (py_get fields "name") = false ->
  simple_vals h n fields = simple_vals h n' fields.
Proof. unfold simple_vals. now intros ->. Qed.

(** A write of no value changes nothing. *)
Lemma apply_no_vals (v : applicant_vals) (a : applicant) :
  has_vals v = false -> apply_vals v a = a.
Proof.
  unfold has_vals, apply_vals. destruct v as [s1 s2 s3 s4 s5 s6 s7 s8]. simpl.
  destruct s1, s2, s3, s4, s5, s6, s7, s8; try discriminate.
  intros _. now destruct a.
Qed.

Lemma has_vals_type_id (v : applicant_vals) (i : nat) :
  has_vals (with_type_id v (Some i)) = true.
Proof.
  unfold has_vals, with_type_id. simpl.
  destruct (set_state v), (set_status v), (set_partner_name v), (set_name v),
    (set_email_from v), (set_partner_phone v), (set_linkedin_profile v);
    reflexivity.
Qed.

(** The writer on an object, for a record that is there. *)
Lemma write_extracted_unfold (h : host) (self : nat) (a : applicant)
  (fields : list (string * json)) (d : db) :
  find_applicant d self = Some a ->
  truthy (JObj fields) = true ->
  _write_extracted_data h self (JObj fields) d
  = (t <- (if truthy (py_get fields "degree")
           then resolve_degree h (py_str h (py_get fields "degree"))
           else ret None) ;;
     if has_vals (with_type_id (simple_vals h (name a) fields) t)
     then write_applicant h self
            (with_type_id (simple_vals h (name a) fields) t)
     else ret tt) d.
Proof.
  intros F T. unfold _write_extracted_data. rewrite T.
  change (negb true) with false. cbv iota.
  unfold bind at 1.
  destruct (truthy (py_get fields "name")) eqn:N.
  - unfold read_name. rewrite F. reflexivity.
  - unfold ret at 1.
    now rewrite (simple_vals_name_irrelevant h fields EmptyString (name a)).
Qed.

End WriterFacts.

Section WriterClaims.
Variable h : host.
Import Text TextFacts StoreFacts WriterFacts.

(** C8, as amended.  When the payload has a name and the writer carries
    its write out, the display name of the record becomes
    "<new-name>'s Application" if it was empty or ended with
    "'s Application", whatever came before that suffix, and is left as it
    was otherwise. *)
Theorem display_name_follows_suffix (self : nat) (a : applicant)
  (fields : list (string * json)) (d d' : db) :
  find_applicant d self = Some a ->
  truthy (py_get fields "name") = true ->
  _write_extracted_data h self (JObj fields) d = (Ok tt, d') ->
  exists a', find_applicant d' self = Some a'
    /\ (name a = EmptyString
        \/ (exists pre, name a = pre ++ application_suffix) ->
        name a' = py_str h (py_get fields "name") ++ application_suffix)
    /\ (name a <> EmptyString ->
        (forall pre, name a <> pre ++ application_suffix) ->
        name a' = name a).
Proof.
  intros F N W.
  rewrite (write_extracted_unfold h self a fields d F
             (truthy_get_nonempty _ _ N)) in W.
  unfold bind in W.
  assert (exists t d1,
            (if truthy (py_get fields "degree")
             then resolve_degree h (py_str h (py_get fields "degree"))
             else ret None) d = (Ok t, d1)
            /\ applicants d1 = applicants d) as (t & d1 & R & A).
  { destruct (truthy (py_get fields "degree")).
    - apply resolve_degree_returns.
    - exists None, d. split; reflexivity. }
  rewrite R in W.
  assert (HV : has_vals (with_type_id (simple_vals h (name a) fields) t)
               = true).
  { unfold has_vals, with_type_id, simple_vals. simpl. rewrite N.
    reflexivity. }
  rewrite HV in W.
  apply write_applicant_ok in W. destruct W as (-> & _ & _).
  rewrite find_applicant_update.
  assert (F1 : find_applicant d1 self = Some a).
  { unfold find_applicant. rewrite A. exact F. }
  rewrite F1. simpl.
  rewrite (find_applicant_id _ _ _ F), Nat.eqb_refl.
  eexists. split; [reflexivity|]. simpl. rewrite N. split.
  - intros C.
    assert ((name a =? EmptyString) || endswith (name a) application_suffix
            = true) as ->.
    { apply orb_true_iff. destruct C as [C|C].
      - left. now apply String.eqb_eq.
      - right. now apply endswith_spec. }
    reflexivity.
  - intros C1 C2.
    assert ((name a =? EmptyString) || endswith (name a) application_suffix
            = false) as ->.
    { apply orb_false_iff. split.
      - now apply String.eqb_neq.
      - destruct (endswith (name a) application_suffix) eqn:E;
          [|reflexivity].
        apply endswith_spec in E. destruct E as (pre & E).
        now destruct (C2 pre). }
    reflexivity.
Qed.

End WriterClaims.

Section DegreeClaims.
Variable h : host.
Import Text TextFacts StoreFacts WriterFacts.

(** C9, as amended.  For a payload with a degree name, on a record that
    is there.  A degree whose name equals the payload's up to the case of
    letters is the one written under [type_id], and no degree is created.
    When there is none, a degree with that name and nothing else is
    created and written under [type_id].  When the store refuses the
    creation, the writer goes on as it does for the same payload with a
    null degree: no degree is added, [type_id] is left as it was, and the
    other fields are written, if there are any.  A write is what the store
    makes of it: carried out, the writer returns and the record holds the
    new values; refused, the writer fails with the error of the store and
    nothing is written. *)
Theorem degree_found_created_or_passed_over (self : nat) (a : applicant)
  (fields : list (string * json)) (d : db) :
  find_applicant d self = Some a ->
  truthy (py_get fields "degree") = true ->
  let n := py_str h (py_get fields "degree") in
  let vals := with_type_id (simple_vals h (name a) fields) in
  let out := _write_extracted_data h self (JObj fields) d in
  let written (v : applicant_vals) (d1 : db) :=
    match rejects h (WriteApplicant self v) d1 with
    | None => (Ok tt, update_applicant self v d1)
    | Some msg => (Raise (StoreError msg), d1)
    end in
  match search_degree d n with
  | Some r =>
      In r (degrees d)
      /\ lower (degree_name r) = lower n
      /\ out = written (vals (Some (degree_id r))) d
  | None =>
      (forall r, In r (degrees d) -> lower (degree_name r) <> lower n)
      /\ match rejects h (CreateDegree n) d with
         | None =>
             out
             = written (vals (Some (new_degree_id d)))
                 (with_degrees d
                    (degrees d ++ [{| degree_id := new_degree_id d;
                                      degree_name := n |}]))
         | Some _ =>
             out
             = _write_extracted_data h self
                 (JObj (("degree", JNull) :: fields)) d
             /\ out
                = (if has_vals (vals None) then written (vals None) d
                   else (Ok tt, d))
             /\ degrees (snd out) = degrees d
             /\ (exists a', find_applicant (snd out) self = Some a'
                   /\ type_id a' = type_id a)
             /\ (rejects h (WriteApplicant self (vals None)) d = None ->
                 fst out = Ok tt
                 /\ find_applicant (snd out) self
                    = Some (apply_vals (vals None) a))
         end
  end.
Proof.
  intros F D n vals out written.
  assert (W : forall v d1,
            applicants d1 = applicants d ->
            write_applicant h self v d1 = written v d1).
  { intros v d1 A. unfold write_applicant, store_call, written.
    assert (find_applicant d1 self = Some a) as ->.
    { unfold find_applicant. rewrite A. exact F. }
    reflexivity. }
  unfold out.
  rewrite (write_extracted_unfold h self a fields d F
             (truthy_get_nonempty _ _ D)).
  unfold bind. rewrite D. fold n. unfold resolve_degree.
  destruct (search_degree d n) as [r|] eqn:S.
  - unfold search_degree in S. pose proof (find_some _ _ S) as [I L].
    split; [exact I|]. split; [now apply String.eqb_eq|].
    rewrite has_vals_type_id. now apply W.
  - split.
    { intros r I E. unfold search_degree in S.
      pose proof (find_none _ _ S r I) as N. unfold ilike in N.
      apply String.eqb_neq in N. contradiction. }
    unfold create_degree, store_call.
    destruct (rejects h (CreateDegree n) d) eqn:R.
    + assert (E : (if has_vals (with_type_id
                                  (simple_vals h (name a) fields) None)
                   then write_applicant h self
                          (with_type_id (simple_vals h (name a) fields) None)
                   else ret tt) d
                  = (if has_vals (vals None) then written (vals None) d
                     else (Ok tt, d))).
      { fold vals. destruct (has_vals (vals None)); [now apply W|].
        reflexivity. }
      split.
      { rewrite (write_extracted_unfold h self a
                   (("degree", JNull) :: fields) d F eq_refl).
        unfold bind. simpl. reflexivity. }
      rewrite E. split; [reflexivity|].
      assert (U : find_applicant (update_applicant self (vals None) d) self
                  = Some (apply_vals (vals None) a)).
      { rewrite find_applicant_update, F. simpl.
        now rewrite (find_applicant_id _ _ _ F), Nat.eqb_refl. }
      unfold written.
      destruct (has_vals (vals None)) eqn:HV;
        [destruct (rejects h (WriteApplicant self (vals None)) d) eqn:RW|];
        simpl.
      * split; [reflexivity|]. split; [now exists a|]. discriminate.
      * split; [reflexivity|]. rewrite U.
        split; [eexists; split; reflexivity|]. intros _. now split.
      * split; [reflexivity|]. split; [now exists a|]. intros _.
        split; [reflexivity|]. rewrite F. f_equal.
        symmetry. now apply apply_no_vals.
    + rewrite has_vals_type_id. now apply W.
Qed.

End DegreeClaims.

(** The amended C8 on a record named "Ann's Application" and a payload
    that names Bob. *)
Lemma display_name_follows_suffix_witness :
  let h := Sample.answering EmptyString None Sample.accept_all in
  let d := Sample.tables [Sample.candidate 1 pending "Ann's Application"] [] in
  let d' := snd (_write_extracted_data h 1 (JObj Sample.bob) d) in
  find_applicant d 1 = Some (Sample.candidate 1 pending "Ann's Application")
  /\ truthy (py_get Sample.bob "name") = true
  /\ _write_extracted_data h 1 (JObj Sample.bob) d = (Ok tt, d')
  /\ exists a', find_applicant d' 1 = Some a'
       /\ (name (Sample.candidate 1 pending "Ann's Application") = EmptyString
           \/ (exists pre, name (Sample.candidate 1 pending "Ann's Application")
                           = pre ++ application_suffix) ->
           name a' = py_str h (py_get Sample.bob "name") ++ application_suffix)
       /\ (name (Sample.candidate 1 pending "Ann's Application") <> EmptyString ->
           (forall pre, name (Sample.candidate 1 pending "Ann's Application")
                        <> pre ++ application_suffix) ->
           name a' = name (Sample.candidate 1 pending "Ann's Application")).
Proof.
  intros h d d'.
  assert (F : find_applicant d 1
              = Some (Sample.candidate 1 pending "Ann's Application"))
    by reflexivity.
  assert (N : truthy (py_get Sample.bob "name") = true) by reflexivity.
  assert (W : _write_extracted_data h 1 (JObj Sample.bob) d = (Ok tt, d'))
    by reflexivity.
  split; [exact F|]. split; [exact N|]. split; [exact W|].
  exact (display_name_follows_suffix h 1 _ Sample.bob d d' F N W).
Defined.

(** C8 as stated fails: the display name was typed by hand and is not the
    previously extracted name followed by "'s Application", yet the writer
    replaces it. *)
Lemma display_name_typed_by_hand_is_replaced :
  let h := Sample.answering EmptyString None Sample.accept_all in
  let a := Sample.typed_by_hand in
  let d := Sample.tables [a] [] in
  let out := _write_extracted_data h 1 (JObj Sample.bob) d in
  name a <> EmptyString
  /\ name a <> partner_name a ++ application_suffix
  /\ fst out = Ok tt
  /\ option_map name (find_applicant (snd out) 1) = Some "Bob's Application"
  /\ option_map name (find_applicant (snd out) 1) <> Some (name a).
Proof.
  intros h a d out. split; [discriminate|]. split; [discriminate|].
  split; [reflexivity|]. split; [reflexivity | discriminate].
Qed.

(** The amended C9 on a store that refuses to create degrees and carries
    the writes out: the writer returns, the record has the name of the
    payload and no degree. *)
Lemma degree_found_created_or_passed_over_witness :
  let h := Sample.answering EmptyString None Sample.no_new_degree in
  let a := Sample.candidate 1 pending EmptyString in
  let d := Sample.tables [a] [] in
  let out := _write_extracted_data h 1 (JObj Sample.bob) d in
  find_applicant d 1 = Some a
  /\ truthy (py_get Sample.bob "degree") = true
  /\ out
     = _write_extracted_data h 1 (JObj (("degree", JNull) :: Sample.bob)) d
  /\ degrees (snd out) = degrees d
  /\ fst out = Ok tt
  /\ option_map type_id (find_applicant (snd out) 1) = Some None
  /\ option_map partner_name (find_applicant (snd out) 1) = Some "Bob"
  /\ option_map name (find_applicant (snd out) 1) = Some "Bob's Application".
Proof.
  intros h a d out.
  assert (F : find_applicant d 1 = Some a) by reflexivity.
  assert (D : truthy (py_get Sample.bob "degree") = true) by reflexivity.
  split; [exact F|]. split; [exact D|].
  pose proof (degree_found_created_or_passed_over h 1 a Sample.bob d F D)
    as T.
  destruct (proj2 T) as (T1 & _ & T3 & _ & T5).
  split; [exact T1|]. split; [exact T3|].
  destruct (T5 eq_refl) as (T6 & T7).
  split; [exact T6|]. unfold out. rewrite T7. repeat split.
Defined.

(** C9 as stated fails: the store refuses the creation of the degree, the
    failure is swallowed, and the write of the other fields, which the
    store refuses too, does not complete: the writer fails and the record
    is as it was. *)
Lemma refused_creation_then_refused_write :
  let h := Sample.answering EmptyString None Sample.no_degree_no_write in
  let a := Sample.candidate 1 pending EmptyString in
  let d := Sample.tables [a] [] in
  let out := _write_extracted_data h 1 (JObj Sample.bob) d in
  search_degree d "Master" = None
  /\ rejects h (CreateDegree "Master") d = Some "permission denied"
  /\ out = (Raise (StoreError "permission denied"), d)
  /\ find_applicant (snd out) 1 = Some a
  /\ partner_name a = EmptyString.
Proof. intros h a d out. repeat split. Qed.

(** ** The taxonomy reconciler: levels *)

Module LevelFacts.
Import Text StoreFacts.

Lemma lowest_positive_spec (l : list skill_level) :
  forall best,
    (forall b, best = Some b -> (0 < level_progress b)%Z) ->
    match lowest_positive best l with
    | Some r =>
        (best = Some r \/ In r l)
        /\ (0 < level_progress r)%Z
        /\ (forall b, best = Some b ->
                      (level_progress r <= level_progress b)%Z)
        /\ (forall x, In x l -> (0 < level_progress x)%Z ->
                      (level_progress r <= level_progress x)%Z)
    | None =>
        best = None
        /\ (forall x, In x l -> (level_progress x <= 0)%Z)
    end.
Proof.
  induction l as [|x l IH]; intros best B; simpl.
  - destruct best as [b|].
    + split; [now left|]. split; [now apply B|].
      split; [intros ? [= <-]; lia | intros ? []].
    + split; [reflexivity | intros ? []].
  - destruct (0 <? level_progress x)%Z eqn:P.
    + apply Z.ltb_lt in P. destruct best as [b|].
      * destruct (level_progress x <? level_progress b)%Z eqn:C.
        -- apply Z.ltb_lt in C.
           specialize (IH (Some x) ltac:(intros ? [= <-]; exact P)).
           destruct (lowest_positive (Some x) l) as [r|].
           ++ destruct IH as (I & Pr & Lb & Lx).
              specialize (Lb x eq_refl).
              split; [destruct I as [[= <-]|I]; [right; now left | right; now right]|].
              split; [exact Pr|]. split.
              ** intros ? [= <-]. lia.
              ** intros y [<-|Iy] Py; [exact Lb | now apply Lx].
           ++ destruct IH as [[=] _].
        -- apply Z.ltb_ge in C. specialize (IH (Some b) B).
           destruct (lowest_positive (Some b) l) as [r|].
           ++ destruct IH as (I & Pr & Lb & Lx).
              specialize (Lb b eq_refl).
              split; [destruct I as [I|I]; [now left | right; now right]|].
              split; [exact Pr|]. split.
              ** intros ? [= <-]. exact Lb.
              ** intros y [<-|Iy] Py; [lia | now apply Lx].
           ++ destruct IH as [[=] _].
      * specialize (IH (Some x) ltac:(intros ? [= <-]; exact P)).
        destruct (lowest_positive (Some x) l) as [r|].
        -- destruct IH as (I & Pr & Lb & Lx). specialize (Lb x eq_refl).
           split; [destruct I as [[= <-]|I]; [right; now left | right; now right]|].
           split; [exact Pr|]. split; [intros ? [=]|].
           intros y [<-|Iy] Py; [exact Lb | now apply Lx].
        -- destruct IH as [[=] _].
    + apply Z.ltb_ge in P. specialize (IH best B).
      destruct (lowest_positive best l) as [r|].
      * destruct IH as (I & Pr & Lb & Lx).
        split; [destruct I as [I|I]; [now left | right; now right]|].
        split; [exact Pr|]. split; [exact Lb|].
        intros y [<-|Iy] Py; [lia | now apply Lx].
      * destruct IH as (-> & N). split; [reflexivity|].
        intros y [<-|Iy]; [exact P | now apply N].
Qed.

Lemma search_level_lowest_spec (d : db) :
  match search_level_lowest d with
  | Some r =>
      In r (skill_levels d) /\ (0 < level_progress r)%Z
      /\ (forall x, In x (skill_levels d) -> (0 < level_progress x)%Z ->
                    (level_progress r <= level_progress x)%Z)
  | None => forall x, In x (skill_levels d) -> (level_progress x <= 0)%Z
  end.
Proof.
  unfold search_level_lowest.
  pose proof (lowest_positive_spec (skill_levels d) None
                ltac:(intros ? [=])) as S.
  destruct (lowest_positive None (skill_levels d)) as [r|].
  - destruct S as ([[=]|I] & P & _ & L). auto.
  - now destruct S.
Qed.

Lemma search_level_exact_some (d : db) (n : string) (p : Z)
  (r : skill_level) :
  search_level_exact d n p = Some r ->
  In r (skill_levels d) /\ lower (skill_level_name r) = lower n
  /\ level_progress r = p.
Proof.
  unfold search_level_exact. intros F. apply find_some in F.
  destruct F as [I C]. apply andb_true_iff in C. destruct C as [C1 C2].
  split; [exact I|]. split; [now apply String.eqb_eq | now apply Z.eqb_eq].
Qed.

Lemma search_level_exact_none (d : db) (n : string) (p : Z) :
  search_level_exact d n p = None ->
  forall r, In r (skill_levels d) ->
            ~ (lower (skill_level_name r) = lower n /\ level_progress r = p).
Proof.
  unfold search_level_exact. intros F r I [C1 C2].
  pose proof (find_none _ _ F r I) as N. simpl in N.
  apply andb_false_iff in N. destruct N as [N|N].
  - unfold ilike in N. apply String.eqb_neq in N. contradiction.
  - apply Z.eqb_neq in N. contradiction.
Qed.

Lemma search_level_named_some (d : db) (n : string) (r : skill_level) :
  search_level_named d n = Some r ->
  In r (skill_levels d) /\ lower (skill_level_name r) = lower n.
Proof.
  unfold search_level_named. intros F. apply find_some in F.
  destruct F as [I C]. split; [exact I | now apply String.eqb_eq].
Qed.

Lemma search_level_named_none (d : db) (n : string) :
  search_level_named d n = None ->
  forall r, In r (skill_levels d) -> lower (skill_level_name r) <> lower n.
Proof.
  unfold search_level_named. intros F r I C.
  pose proof (find_none _ _ F r I) as N. unfold ilike in N.
  apply String.eqb_neq in N. contradiction.
Qed.

End LevelFacts.

Section LevelClaims.
Variable h : host.
Import Text StoreFacts LevelFacts.

(** C7, as amended.  The default level is found or made by the cascade:
    a level named Beginner, up to the case of letters, with progress 15;
    else a level named Beginner; else a level of least positive progress;
    else a new level Beginner with progress 15.  The call returns a level
    of the resulting tables in each case but one: when the cascade comes
    to the creation and the store refuses it, the call returns no level.
    It means to raise a [UserError] then, but the formatting of the
    message of that error fails on the percent sign of "(15%)", and what
    the call raises is the [ValueError] of the formatting. *)
Theorem default_level_cascade (d : db) :
  let out := _get_or_create_default_skill_level h d in
  (exists l, In l (skill_levels d)
     /\ lower (skill_level_name l) = "beginner" /\ level_progress l = 15%Z
     /\ out = (Ok (skill_level_id l), d))
  \/ ((forall r, In r (skill_levels d) ->
         ~ (lower (skill_level_name r) = "beginner"
            /\ level_progress r = 15%Z))
      /\ exists l, In l (skill_levels d)
           /\ lower (skill_level_name l) = "beginner"
           /\ out = (Ok (skill_level_id l), d))
  \/ ((forall r, In r (skill_levels d) ->
         lower (skill_level_name r) <> "beginner")
      /\ exists l, In l (skill_levels d) /\ (0 < level_progress l)%Z
           /\ (forall x, In x (skill_levels d) -> (0 < level_progress x)%Z ->
                         (level_progress l <= level_progress x)%Z)
           /\ out = (Ok (skill_level_id l), d))
  \/ ((forall r, In r (skill_levels d) ->
         lower (skill_level_name r) <> "beginner"
         /\ (level_progress r <= 0)%Z)
      /\ rejects h (CreateSkillLevel "Beginner" 15) d = None
      /\ exists d',
           out = (Ok (new_skill_level_id d), d')
           /\ skill_levels d'
              = (skill_levels d
                 ++ [{| skill_level_id := new_skill_level_id d;
                        skill_level_name := "Beginner";
                        level_progress := 15 |}])%list)
  \/ ((forall r, In r (skill_levels d) ->
         lower (skill_level_name r) <> "beginner"
         /\ (level_progress r <= 0)%Z)
      /\ exists msg,
           rejects h (CreateSkillLevel "Beginner" 15) d = Some msg
           /\ out
              = (Raise
                   (ValueError
                      "unsupported format character ')' (0x29) at index 39"),
                 d)).
Proof.
  intros out. unfold out, _get_or_create_default_skill_level.
  destruct (search_level_exact d "Beginner" 15) as [l|] eqn:E.
  { left. apply search_level_exact_some in E. destruct E as (I & N & P).
    exists l. repeat split; assumption. }
  right. pose proof (search_level_exact_none _ _ _ E) as NE.
  destruct (search_level_named d "Beginner") as [l|] eqn:B.
  { left. split; [exact NE|]. apply search_level_named_some in B.
    destruct B as (I & N). exists l. repeat split; assumption. }
  right. pose proof (search_level_named_none _ _ B) as NB.
  pose proof (search_level_lowest_spec d) as L.
  destruct (search_level_lowest d) as [l|].
  { left. split; [exact NB|]. destruct L as (I & P & M).
    exists l. repeat split; assumption. }
  right. unfold create_skill_level, store_call.
  destruct (rejects h (CreateSkillLevel "Beginner" 15) d) as [msg|] eqn:R.
  - right. split; [intros r I; split; [now apply NB | now apply L]|].
    exists msg. split; reflexivity.
  - left. split; [intros r I; split; [now apply NB | now apply L]|].
    split; [reflexivity|]. eexists. split; reflexivity.
Qed.

End LevelClaims.

(** C7 as stated fails: the taxonomy is empty and the store refuses to
    create a level, so the call raises and returns no level.  What it
    raises is the error of the formatting of its message. *)
Lemma default_level_refused_on_empty_taxonomy :
  let h := Sample.answering EmptyString None Sample.no_new_level in
  let d := Sample.tables [] [] in
  skill_levels d = []
  /\ _get_or_create_default_skill_level h d
     = (Raise
          (ValueError "unsupported format character ')' (0x29) at index 39"),
        d).
Proof. intros h d. split; reflexivity. Qed.

(** The character 38 of the message is the percent sign of "(15%)", and
    the character 39 the closing parenthesis that follows it. *)
Example default_level_message_percent :
  String.get 38 default_level_message = Some "%"%char
  /\ String.get 39 default_level_message = Some ")"%char
  /\ nat_of_ascii ")" = 41.
Proof. repeat split. Qed.

(** On an empty taxonomy that accepts the creation, the default level is
    the new level Beginner with progress 15. *)
Example default_level_created_on_empty_taxonomy :
  let h := Sample.answering EmptyString None Sample.accept_all in
  let d := Sample.tables [] [] in
  exists d',
    _get_or_create_default_skill_level h d = (Ok 1, d')
    /\ skill_levels d'
       = [{| skill_level_id := 1; skill_level_name := "Beginner";
             level_progress := 15 |}].
Proof. intros h d. eexists. split; reflexivity. Qed.

Section LabelClaims.
Variable h : host.
Import Text StoreFacts LevelFacts.

(** C6, as amended.  A label that is missing or empty gives the default
    level.  For a label that is a non-empty string: a label resolved
    earlier in the run, up to the case of letters, gives the same level
    again.  Otherwise, when the label parses as "<Name> (<Progress>%)",
    the level is one with that name and that progress; failing that, one
    whose name is the whole label; failing that, a new level with the
    parsed name and progress, or the error of the store if it refuses the
    creation.  When the label does not parse, the level is one whose name
    is the whole label, and the default level only when there is none.
    Names are compared up to the case of letters. *)
Theorem level_label_resolution (c : caches) (d : db) :
  (forall v, truthy v = false ->
     resolve_level h v c d = resolve_default h c d)
  /\ forall label, label <> EmptyString ->
     let out := resolve_level h (JStr label) c d in
     let key := lower label in
     match cache_get (level_cache c) key with
     | Some l => out = (Ok (l, c), d)
     | None =>
         let by_label :=
           exists r, In r (skill_levels d)
             /\ lower (skill_level_name r) = lower label
             /\ out = (Ok (skill_level_id r,
                           remember_level c key (skill_level_id r)), d) in
         let no_label :=
           forall r, In r (skill_levels d) ->
                     lower (skill_level_name r) <> lower label in
         match parse_level label with
         | Some (nm, p) =>
             let no_pair :=
               forall r, In r (skill_levels d) ->
                 ~ (lower (skill_level_name r) = lower nm
                    /\ level_progress r = p) in
             (exists r, In r (skill_levels d)
                /\ lower (skill_level_name r) = lower nm
                /\ level_progress r = p
                /\ out = (Ok (skill_level_id r,
                              remember_level c key (skill_level_id r)), d))
             \/ (no_pair /\ by_label)
             \/ (no_pair /\ no_label
                 /\ rejects h (CreateSkillLevel nm p) d = None
                 /\ out = (Ok (new_skill_level_id d,
                               remember_level c key (new_skill_level_id d)),
                           add_skill_level nm p d))
             \/ (no_pair /\ no_label
                 /\ exists msg,
                      rejects h (CreateSkillLevel nm p) d = Some msg
                      /\ out = (Raise (StoreError msg), d))
         | None =>
             by_label \/ (no_label /\ out = resolve_default h c d)
         end
     end.
Proof.
  split.
  { intros v T. unfold resolve_level. rewrite T. unfold bind, ret. simpl.
    reflexivity. }
  intros label NE out key. unfold out, resolve_level.
  assert (T : truthy (JStr label) = true).
  { simpl. apply negb_true_iff. now apply String.eqb_neq. }
  rewrite T. unfold resolve_label. fold key.
  destruct (cache_get (level_cache c) key) as [l|]; [reflexivity|].
  unfold bind, ret. cbv beta.
  destruct (parse_level label) as [[nm p]|].
  - destruct (search_level_exact d nm p) as [r|] eqn:E.
    { left. apply search_level_exact_some in E. destruct E as (I & N & P).
      exists r. repeat split; try assumption; reflexivity. }
    right. pose proof (search_level_exact_none _ _ _ E) as NE'.
    destruct (search_level_named d label) as [r|] eqn:B.
    { left. split; [exact NE'|]. apply search_level_named_some in B.
      destruct B as (I & N). exists r. repeat split; try assumption; reflexivity. }
    right. pose proof (search_level_named_none _ _ B) as NB.
    unfold create_skill_level, store_call.
    destruct (rejects h (CreateSkillLevel nm p) d) as [msg|] eqn:R.
    + right. split; [exact NE'|]. split; [exact NB|].
      exists msg. split; reflexivity.
    + left. split; [exact NE'|]. split; [exact NB|]. split; reflexivity.
  - destruct (search_level_named d label) as [r|] eqn:B.
    { left. apply search_level_named_some in B.
      destruct B as (I & N). exists r. repeat split; try assumption; reflexivity. }
    right. split; [exact (search_level_named_none _ _ B) | reflexivity].
Qed.

End LabelClaims.

(** The amended C6 on the label Expert and a taxonomy that has that
    level. *)
Lemma level_label_resolution_witness :
  let h := Sample.answering EmptyString None Sample.accept_all in
  let d := Sample.tables [] [Sample.beginner; Sample.expert] in
  "Expert" <> EmptyString
  /\ exists r, In r (skill_levels d)
       /\ Text.lower (skill_level_name r) = "expert"
       /\ resolve_level h (JStr "Expert") no_caches d
          = (Ok (skill_level_id r,
                 remember_level no_caches "expert" (skill_level_id r)), d).
Proof.
  intros h d.
  assert (NE : "Expert" <> EmptyString) by discriminate.
  split; [exact NE|].
  destruct (proj2 (level_label_resolution h no_caches d) "Expert" NE)
    as [T | [NL _]].
  - exact T.
  - destruct (NL Sample.expert); [right; now left | reflexivity].
Defined.

(** C6 as stated fails: the label Expert cannot be parsed, the default
    level is Beginner, and the level resolved is Expert. *)
Lemma unparsed_label_is_looked_up_by_name :
  let h := Sample.answering EmptyString None Sample.accept_all in
  let d := Sample.tables [] [Sample.beginner; Sample.expert] in
  parse_level "Expert" = None
  /\ fst (_get_or_create_default_skill_level h d)
     = Ok (skill_level_id Sample.beginner)
  /\ fst (resolve_level h (JStr "Expert") no_caches d)
     = Ok (skill_level_id Sample.expert, remember_level no_caches "expert" 2)
  /\ skill_level_id Sample.expert <> skill_level_id Sample.beginner.
Proof.
  intros h d. split; [reflexivity|]. split; [reflexivity|].
  split; [reflexivity | discriminate].
Qed.

(** The label "B2 (75%)" on a taxonomy without a level B2 creates the
    level B2 with progress 75. *)
Example level_b2_is_created :
  let h := Sample.answering EmptyString None Sample.accept_all in
  let d := Sample.tables [] [Sample.beginner] in
  parse_level "B2 (75%)" = Some ("B2", 75%Z)
  /\ resolve_level h (JStr "B2 (75%)") no_caches d
     = (Ok (2, remember_level no_caches "b2 (75%)" 2),
        add_skill_level "B2" 75 d).
Proof. intros h d. split; reflexivity. Qed.

(** ** The taxonomy reconciler: skills and links *)

Module ReconcilerFacts.
Import Text StoreFacts.

Lemma bind_inv {S A B : Type} (m : M S A) (f : A -> M S B) (s s' : S)
  (r : result B) :
  bind m f s = (r, s') ->
  (exists a s1, m s = (Ok a, s1) /\ f a s1 = (r, s'))
  \/ (exists e, m s = (Raise e, s') /\ r = Raise e).
Proof.
  unfold bind. destruct (m s) as [[a|e] s1].
  - intros E. left. now exists a, s1.
  - intros [= <- <-]. right. now exists e.
Qed.

Lemma preserves_ret {S A : Type} (R : S -> S -> Prop) (a : A) :
  (forall d, R d d) -> preserves R (ret a).
Proof. intros Refl d r d' [= _ <-]. apply Refl. Qed.

Lemma preserves_raise {S A : Type} (R : S -> S -> Prop) (e : exn) :
  (forall d, R d d) -> preserves R (@raise S A e).
Proof. intros Refl d r d' [= _ <-]. apply Refl. Qed.

Lemma preserves_lift {S A : Type} (R : S -> S -> Prop) (x : result A) :
  (forall d, R d d) -> preserves R (@lift S A x).
Proof. intros Refl d r d' [= _ <-]. apply Refl. Qed.

Lemma preserves_bind {S A B : Type} (R : S -> S -> Prop) (m : M S A)
  (f : A -> M S B) :
  (forall a b c, R a b -> R b c -> R a c) ->
  preserves R m -> (forall a, preserves R (f a)) -> preserves R (bind m f).
Proof.
  intros Trans Pm Pf d r d' E.
  destruct (bind_inv _ _ _ _ _ E) as [(a & d1 & E1 & E2) | (e & E1 & _)].
  - exact (Trans _ _ _ (Pm _ _ _ E1) (Pf a _ _ _ E2)).
  - exact (Pm _ _ _ E1).
Qed.

Lemma preserves_store_call {A : Type} (R : db -> db -> Prop) (h : host)
  (op : store_op) (a : db -> A) (apply : db -> db) :
  (forall d, R d d) ->
  (forall d, rejects h op d = None -> R d (apply d)) ->
  preserves R (store_call h op a apply).
Proof.
  intros Refl Ap d r d'. unfold store_call.
  destruct (rejects h op d) eqn:E; intros [= _ <-]; auto.
Qed.

Lemma preserves_weaken {S A : Type} (R R' : S -> S -> Prop) (m : M S A) :
  (forall d d', R d d' -> R' d d') -> preserves R m -> preserves R' m.
Proof. intros W P d r d' E. exact (W _ _ (P _ _ _ E)). Qed.

(** *** The calls that leave skills and links alone *)

Lemma frame_refl (d : db) : frame d d.
Proof. repeat split. Qed.

Lemma frame_trans (a b c : db) : frame a b -> frame b c -> frame a c.
Proof. intros (A1 & A2 & A3) (B1 & B2 & B3). repeat split; congruence. Qed.

#[local] Hint Resolve frame_refl frame_trans : core.

Section Frame.
Variable h : host.

Lemma create_skill_type_frame (n : string) :
  preserves frame (create_skill_type h n).
Proof. apply preserves_store_call; [auto | intros; repeat split]. Qed.

Lemma create_skill_level_frame (n : string) (p : Z) :
  preserves frame (create_skill_level h n p).
Proof. apply preserves_store_call; [auto | intros; repeat split]. Qed.

Lemma add_type_level_frame (t l : nat) :
  preserves frame (add_type_level h t l).
Proof.
  intros d r d'. unfold add_type_level.
  destruct (find_skill_type d t); [|intros [= _ <-]; auto].
  apply preserves_store_call; [auto | intros; repeat split].
Qed.

Lemma default_level_frame :
  preserves frame (_get_or_create_default_skill_level h).
Proof.
  intros d r d'. unfold _get_or_create_default_skill_level.
  destruct (search_level_exact d _ _); [intros [= _ <-]; auto|].
  destruct (search_level_named d _); [intros [= _ <-]; auto|].
  destruct (search_level_lowest d); [intros [= _ <-]; auto|].
  destruct (create_skill_level h "Beginner" 15 d) as [[i|e] d1] eqn:C;
    intros [= _ <-]; exact (create_skill_level_frame _ _ _ _ _ C).
Qed.

Lemma resolve_type_frame (n : string) (c : caches) :
  preserves frame (resolve_type h n c).
Proof.
  unfold resolve_type. destruct (cache_get _ _).
  - apply preserves_ret; auto.
  - apply preserves_bind; [eauto| |intros; apply preserves_ret; auto].
    intros d r d'. destruct (search_skill_type d n).
    + intros [= _ <-]; auto.
    + apply create_skill_type_frame.
Qed.

Lemma resolve_label_frame (label : string) (c : caches) :
  preserves frame (resolve_label h label c).
Proof.
  unfold resolve_label. destruct (cache_get _ _).
  - apply preserves_ret; auto.
  - apply preserves_bind; [eauto| |].
    + intros d r d'. cbv zeta.
      destruct (match match parse_level label with
                      | Some (n, p) => search_level_exact d n p
                      | None => None
                      end with
                | Some r0 => Some r0
                | None => search_level_named d label
                end); [intros [= _ <-]; auto|].
      destruct (parse_level label) as [[n p]|]; [|intros [= _ <-]; auto].
      destruct (create_skill_level h n p d) as [[i|e] d1] eqn:C;
        intros [= _ <-]; exact (create_skill_level_frame _ _ _ _ _ C).
    + intros [l|]; apply preserves_ret; auto.
Qed.

Lemma resolve_default_frame (c : caches) :
  preserves frame (resolve_default h c).
Proof.
  unfold resolve_default. destruct (default_level c).
  - apply preserves_ret; auto.
  - apply preserves_bind; [eauto| |intros; apply preserves_ret; auto].
    apply default_level_frame.
Qed.

Lemma resolve_level_frame (v : json) (c : caches) :
  preserves frame (resolve_level h v c).
Proof.
  unfold resolve_level. apply preserves_bind; [eauto| |].
  - destruct (truthy v); [|apply preserves_ret; auto].
    destruct v; try (apply preserves_raise; auto).
    apply resolve_label_frame.
  - intros [[l|] c']; simpl.
    + apply preserves_ret; auto.
    + apply resolve_default_frame.
Qed.

Lemma associate_level_frame (t l : nat) :
  preserves frame (associate_level h t l).
Proof.
  intros d r d'. unfold associate_level.
  destruct (find_skill_type d t) as [ty|]; [|intros [= _ <-]; auto].
  destruct (has_id l (skill_level_ids ty)); [intros [= _ <-]; auto|].
  apply add_type_level_frame.
Qed.

(** The caches of skills after the first three steps. *)
Lemma resolve_type_skill_cache (n : string) (c c' : caches) (d d' : db)
  (t : nat) :
  resolve_type h n c d = (Ok (t, c'), d') -> skill_cache c' = skill_cache c.
Proof.
  unfold resolve_type. destruct (cache_get _ _).
  - now intros [= _ <- _].
  - intros E. apply bind_inv in E.
    destruct E as [(a & d1 & _ & [= _ <- _]) | (e & _ & [=])]. reflexivity.
Qed.

Lemma resolve_level_skill_cache (v : json) (c c' : caches) (d d' : db)
  (l : nat) :
  resolve_level h v c d = (Ok (l, c'), d') -> skill_cache c' = skill_cache c.
Proof.
  unfold resolve_level. intros E. apply bind_inv in E.
  destruct E as [([o c1] & d1 & E1 & E2) | (e & _ & [=])].
  assert (C1 : skill_cache c1 = skill_cache c).
  { destruct (truthy v); [|now injection E1 as _ <- _].
    destruct v; try discriminate E1.
    unfold resolve_label in E1. destruct (cache_get _ _).
    - now injection E1 as _ <- _.
    - apply bind_inv in E1.
      destruct E1 as [([i|] & d2 & _ & E3) | (e & _ & [=])];
        injection E3 as _ <- _; reflexivity. }
  simpl in E2. destruct o as [i|].
  - injection E2 as _ <- _. exact C1.
  - unfold resolve_default in E2. destruct (default_level c1).
    + injection E2 as _ <- _. exact C1.
    + apply bind_inv in E2.
      destruct E2 as [(a & d2 & _ & [= _ <- _]) | (e & _ & [=])]. exact C1.
Qed.

End Frame.


(** *** Skills and links only grow *)

Lemma grows_refl (d : db) : grows d d.
Proof.
  split; [|split; [|split]]; [exists [] | exists [] | trivial | reflexivity];
    now rewrite app_nil_r.
Qed.

Lemma grows_trans (a b c : db) : grows a b -> grows b c -> grows a c.
Proof.
  intros ([k1 K1] & [l1 L1] & U1 & A1) ([k2 K2] & [l2 L2] & U2 & A2).
  split; [|split; [|split]].
  - exists (k1 ++ k2)%list. rewrite K2, K1. now rewrite app_assoc.
  - exists (l1 ++ l2)%list. rewrite L2, L1. now rewrite app_assoc.
  - auto.
  - congruence.
Qed.

Lemma frame_grows (d d' : db) : frame d d' -> grows d d'.
Proof.
  intros (S & L & A). split; [|split; [|split]].
  - exists []. unfold skill_keys. now rewrite S, app_nil_r.
  - exists []. now rewrite L, app_nil_r.
  - unfold links_unique. now rewrite L.
  - exact A.
Qed.

#[local] Hint Resolve grows_refl grows_trans frame_grows : core.

Lemma ilike_refl (n : string) : ilike n n = true.
Proof. unfold ilike. apply String.eqb_refl. Qed.

Lemma ilike_lower (x n n' : string) :
  lower n = lower n' -> ilike x n = ilike x n'.
Proof. unfold ilike. now intros ->. Qed.

Lemma search_skill_keys (d : db) (n : string) :
  option_map skill_id (search_skill d n)
  = option_map fst (find (key_matches n) (skill_keys d)).
Proof.
  unfold search_skill, skill_keys.
  induction (skills d) as [|s l IH]; simpl; [reflexivity|].
  unfold key_matches at 1. simpl.
  destruct (ilike (skill_name s) n); [reflexivity | exact IH].
Qed.

Lemma grows_search_skill (d d' : db) (n : string) (s : nat) :
  grows d d' ->
  option_map skill_id (search_skill d n) = Some s ->
  option_map skill_id (search_skill d' n) = Some s.
Proof.
  intros ([k K] & _) E. rewrite search_skill_keys in *. rewrite K.
  destruct (find (key_matches n) (skill_keys d)) as [x|] eqn:F;
    [|discriminate].
  now rewrite (find_app_some _ _ _ _ F).
Qed.

Lemma grows_search_link (d d' : db) (a s : nat) (l : applicant_skill) :
  grows d d' ->
  search_link d a s = Some l -> search_link d' a s = Some l.
Proof.
  intros (_ & [m L] & _) E. unfold search_link in *. rewrite L.
  now apply find_app_some.
Qed.

Lemma grows_linked (d d' : db) (self : nat) (n : string) :
  grows d d' -> linked d self n -> linked d' self n.
Proof.
  intros G (s & l & S & L).
  assert (E : option_map skill_id (search_skill d' n) = Some (skill_id s)).
  { apply (grows_search_skill d d'); [exact G | now rewrite S]. }
  destruct (search_skill d' n) as [s'|] eqn:S'; [|discriminate].
  injection E as E. exists s', l. split; [exact S'|].
  rewrite E. now apply (grows_search_link d d').
Qed.

Lemma grows_skill_cache_ok (c : caches) (d d' : db) :
  grows d d' -> skill_cache_ok c d -> skill_cache_ok c d'.
Proof.
  intros G O k s C n N. apply (grows_search_skill d d'); [exact G|].
  now apply (O k s C).
Qed.

(** A link added for a pair that had none keeps the links apart. *)
Lemma links_unique_add (d : db) (self skill level type : nat) :
  search_link d self skill = None ->
  links_unique d ->
  links_unique
    (with_applicant_skills d
       (applicant_skills d ++
          [{| link_id := new_link_id d; link_applicant_id := self;
              link_skill_id := skill; link_skill_level_id := level;
              link_skill_type_id := type |}])).
Proof.
  unfold links_unique, search_link. simpl. intros N U.
  rewrite map_app. simpl.
  apply NoDup_app; [exact U | repeat constructor; intros [] |].
  intros x I1 [<-|[]]. apply in_map_iff in I1.
  destruct I1 as (l & E & I). pose proof (find_none _ _ N l I) as F.
  simpl in F. injection E as E1 E2.
  rewrite E1, E2, !Nat.eqb_refl in F. discriminate.
Qed.

Section Grows.
Variable h : host.

Lemma link_skill_grows (self skill level type : nat) :
  preserves grows (link_skill h self skill level type).
Proof.
  intros d r d'. unfold link_skill.
  destruct (search_link d self skill) eqn:S; [intros [= _ <-]; auto|].
  unfold create_applicant_skill, store_call.
  destruct (rejects h _ d); intros [= _ <-]; [auto|].
  split; [|split; [|split]].
  - exists []. now rewrite app_nil_r.
  - eexists. reflexivity.
  - now apply links_unique_add.
  - reflexivity.
Qed.

Lemma skill_keys_retype (d : db) (id type : nat) :
  skill_keys
    (with_skills d
       (map (fun s =>
               if (skill_id s =? id)%nat
               then {| skill_id := skill_id s; skill_name := skill_name s;
                       skill_type_of := type |}
               else s) (skills d)))
  = skill_keys d.
Proof.
  unfold skill_keys. simpl. rewrite map_map. apply map_ext.
  intros s. now destruct (skill_id s =? id)%nat.
Qed.

Lemma write_skill_type_grows (id type : nat) :
  preserves grows (write_skill_type h id type).
Proof.
  intros d r d'. unfold write_skill_type.
  destruct (find_skill d id); [|intros [= _ <-]; auto].
  apply preserves_store_call; [auto|]. intros d0 _.
  split; [|split; [|split]].
  - exists []. now rewrite skill_keys_retype, app_nil_r.
  - exists []. now rewrite app_nil_r.
  - trivial.
  - reflexivity.
Qed.

Lemma create_skill_grows (n : string) (type : nat) :
  preserves grows (create_skill h n type).
Proof.
  apply preserves_store_call; [auto|]. intros d _.
  split; [|split; [|split]].
  - eexists. unfold skill_keys. simpl. rewrite map_app. reflexivity.
  - exists []. now rewrite app_nil_r.
  - trivial.
  - reflexivity.
Qed.

Lemma resolve_skill_grows (n : string) (type : nat) (c : caches) :
  preserves grows (resolve_skill h n type c).
Proof.
  unfold resolve_skill. destruct (cache_get _ _).
  - apply preserves_ret; auto.
  - apply preserves_bind; [eauto| |intros; apply preserves_ret; auto].
    intros d r d'. destruct (search_skill d n) as [s|].
    + destruct (skill_type_of s =? type)%nat; [intros [= _ <-]; auto|].
      destruct (write_skill_type h (skill_id s) type d) as [[u|e] d1] eqn:W;
        intros [= _ <-]; exact (write_skill_type_grows _ _ _ _ _ W).
    + apply create_skill_grows.
Qed.

Lemma process_skill_grows (self : nat) (item : json) (c : caches) :
  preserves grows (process_skill h self item c).
Proof.
  unfold process_skill.
  destruct item; try (apply preserves_ret; auto).
  destruct (negb _); [apply preserves_ret; auto|].
  destruct (or_general _); try (apply preserves_raise; auto).
  apply preserves_bind; [eauto| |].
  { apply (preserves_weaken frame); [auto | apply resolve_type_frame]. }
  intros tc. apply preserves_bind; [eauto| |].
  { apply (preserves_weaken frame); [auto | apply resolve_level_frame]. }
  intros lc. apply preserves_bind; [eauto| |].
  { apply (preserves_weaken frame); [auto | apply associate_level_frame]. }
  intros _. destruct (py_get fields "skill");
    try (apply preserves_raise; auto).
  apply preserves_bind; [eauto | apply resolve_skill_grows|].
  intros sc. apply preserves_bind; [eauto | apply link_skill_grows|].
  intros _. apply preserves_ret; auto.
Qed.

Lemma process_skill_list_grows (self : nat) (items : list json) :
  forall c, preserves grows (process_skill_list h self items c).
Proof.
  induction items as [|item items IH]; intros c; simpl.
  - apply preserves_ret; auto.
  - apply preserves_bind; [eauto | apply process_skill_grows | exact IH].
Qed.

End Grows.


(** *** The first run links every named skill *)

Lemma search_skill_lower (d : db) (n n' : string) :
  lower n = lower n' -> search_skill d n = search_skill d n'.
Proof.
  intros E. unfold search_skill.
  induction (skills d) as [|s l IH]; simpl; [reflexivity|].
  rewrite (ilike_lower _ _ _ E). now rewrite IH.
Qed.

Lemma skill_cache_ok_ext (c c' : caches) (d : db) :
  skill_cache c' = skill_cache c -> skill_cache_ok c d -> skill_cache_ok c' d.
Proof. unfold skill_cache_ok. now intros ->. Qed.

Lemma named_skills_cons (item : json) (items : list json) :
  named_skills (item :: items)
  = (named_skills [item] ++ named_skills items)%list.
Proof.
  destruct item; try reflexivity. simpl.
  destruct (py_get fields "skill"); try reflexivity.
  destruct (s =? EmptyString); reflexivity.
Qed.

Ltac bind_ok H :=
  let a := fresh "a" in
  let d := fresh "d" in
  let E := fresh "E" in
  let e := fresh "e" in
  apply bind_inv in H;
  destruct H as [(a & d & E & H) | (e & _ & [=])].

Section FirstRun.
Variable h : host.

Lemma resolve_skill_found (n : string) (type : nat) (c c' : caches)
  (d d' : db) (s : nat) :
  skill_cache_ok c d ->
  resolve_skill h n type c d = (Ok (s, c'), d') ->
  option_map skill_id (search_skill d' n) = Some s /\ skill_cache_ok c' d'.
Proof.
  intros O. unfold resolve_skill.
  destruct (cache_get (skill_cache c) (lower n)) as [s0|] eqn:C.
  - intros [= <- <- <-]. split; [now apply (O _ _ C) | exact O].
  - intros E. bind_ok E. injection E as <- <- <-.
    assert (G : grows d d0 /\ option_map skill_id (search_skill d0 n) = Some a).
    { destruct (search_skill d n) as [r|] eqn:S.
      - destruct (skill_type_of r =? type)%nat.
        + injection E0 as <- <-. split; [auto | now rewrite S].
        + destruct (write_skill_type h (skill_id r) type d)
            as [[u|e] d1] eqn:W; [|discriminate].
          injection E0 as <- <-.
          pose proof (write_skill_type_grows h _ _ _ _ _ W) as G.
          split; [exact G|].
          apply (grows_search_skill d d1); [exact G | now rewrite S].
      - pose proof (create_skill_grows h _ _ _ _ _ E0) as G.
        split; [exact G|].
        unfold create_skill, store_call in E0.
        destruct (rejects h _ d); [discriminate|].
        injection E0 as <- <-. unfold search_skill in *. simpl.
        rewrite (find_app_none _ _ _ S). simpl. now rewrite ilike_refl. }
    destruct G as [G F]. split; [exact F|].
    intros k s' C' n' N. simpl in C'.
    destruct (lower n =? k) eqn:K.
    + injection C' as <-. apply String.eqb_eq in K.
      rewrite <- (search_skill_lower d0 n n'); [exact F | congruence].
    + apply (grows_search_skill d d0); [exact G|]. now apply (O k s' C').
Qed.

Lemma link_skill_linked (self skill level type : nat) (d d' : db) :
  link_skill h self skill level type d = (Ok tt, d') ->
  exists l, search_link d' self skill = Some l.
Proof.
  unfold link_skill. destruct (search_link d self skill) as [l|] eqn:S.
  - intros [= <-]. eauto.
  - unfold create_applicant_skill, store_call.
    destruct (rejects h _ d); [discriminate|]. intros [= <-].
    eexists. unfold search_link in *. simpl.
    rewrite (find_app_none _ _ _ S). simpl. now rewrite !Nat.eqb_refl.
Qed.

Lemma process_skill_links (self : nat) (item : json) (c c' : caches)
  (d d' : db) :
  skill_cache_ok c d ->
  process_skill h self item c d = (Ok c', d') ->
  skill_cache_ok c' d'
  /\ forall n, In n (named_skills [item]) -> linked d' self n.
Proof.
  intros O. unfold process_skill.
  destruct item; try (intros [= <- <-]; split; [exact O | intros ? []]).
  simpl named_skills.
  destruct (truthy (py_get fields "skill")) eqn:T; simpl negb; cbv iota.
  2:{ intros [= <- <-]. split; [exact O|].
      destruct (py_get fields "skill"); try (intros ? []).
      simpl in T. apply negb_false_iff in T. rewrite T. intros ? []. }
  destruct (or_general (py_get fields "type")) as [| | | |tn| |];
    try discriminate.
  intros E. bind_ok E. destruct a as [t c1]. simpl in E.
  bind_ok E. destruct a as [l c2]. simpl in E.
  bind_ok E. destruct a.
  destruct (py_get fields "skill") as [| | | |n| |]; try discriminate.
  bind_ok E. destruct a as [s c3]. simpl in E.
  bind_ok E. destruct a. injection E as <- <-.
  pose proof (frame_grows _ _ (resolve_type_frame h _ _ _ _ _ E0)) as G1.
  pose proof (frame_grows _ _ (resolve_level_frame h _ _ _ _ _ E1)) as G2.
  pose proof (frame_grows _ _ (associate_level_frame h _ _ _ _ _ E2)) as G3.
  pose proof (resolve_type_skill_cache h _ _ _ _ _ _ E0) as C1.
  pose proof (resolve_level_skill_cache h _ _ _ _ _ _ E1) as C2.
  assert (O2 : skill_cache_ok c2 d2).
  { apply (skill_cache_ok_ext c); [congruence|].
    apply (grows_skill_cache_ok c d); [eauto | exact O]. }
  destruct (resolve_skill_found _ _ _ _ _ _ _ O2 E3) as [F O3].
  pose proof (link_skill_grows h _ _ _ _ _ _ _ E4) as G5.
  split; [now apply (grows_skill_cache_ok c3 d3)|].
  simpl in T. apply negb_true_iff in T. rewrite T.
  intros n' [<-|[]].
  destruct (link_skill_linked _ _ _ _ _ _ E4) as [lk L].
  assert (F' : option_map skill_id (search_skill d4 n) = Some s)
    by now apply (grows_search_skill d3 d4).
  destruct (search_skill d4 n) as [sk|] eqn:S; [|discriminate].
  injection F' as <-. now exists sk, lk.
Qed.

Lemma process_skill_list_links (self : nat) (items : list json) :
  forall c c' d d',
    skill_cache_ok c d ->
    process_skill_list h self items c d = (Ok c', d') ->
    skill_cache_ok c' d'
    /\ forall n, In n (named_skills items) -> linked d' self n.
Proof.
  induction items as [|item items IH]; intros c c' d d' O E;
    cbn [process_skill_list] in E.
  - injection E as <- <-. split; [exact O | intros ? []].
  - bind_ok E.
    destruct (process_skill_links _ _ _ _ _ _ O E0) as [O1 L1].
    destruct (IH _ _ _ _ O1 E) as [O2 L2]. split; [exact O2|].
    intros n. rewrite named_skills_cons. intros I.
    apply in_app_or in I. destruct I as [I|I]; [|now apply L2].
    apply (grows_linked d0 d'); [|now apply L1].
    exact (process_skill_list_grows h _ _ _ _ _ _ E).
Qed.

End FirstRun.


(** *** The second run adds no link *)

Lemma same_refl (d : db) : same d d.
Proof. repeat split. Qed.

Lemma same_trans (a b c : db) : same a b -> same b c -> same a c.
Proof. intros (A1 & A2 & A3) (B1 & B2 & B3). repeat split; congruence. Qed.

Lemma frame_same (d d' : db) : frame d d' -> same d d'.
Proof.
  intros (S & L & A).
  split; [unfold skill_keys; now rewrite S | split; assumption].
Qed.

Lemma same_grows (d d' : db) : same d d' -> grows d d'.
Proof.
  intros (K & L & A). split; [|split; [|split]].
  - exists []. now rewrite K, app_nil_r.
  - exists []. now rewrite L, app_nil_r.
  - unfold links_unique. now rewrite L.
  - exact A.
Qed.

#[local] Hint Resolve same_refl same_trans frame_same same_grows : core.

Lemma same_cache_linked (c c' : caches) (d d' : db) (self : nat) :
  skill_cache c' = skill_cache c -> same d d' ->
  skill_cache_linked c d self -> skill_cache_linked c' d' self.
Proof.
  intros C (_ & L & _) K k s G. rewrite C in G. unfold search_link.
  rewrite L. exact (K k s G).
Qed.

Section SecondRun.
Variable h : host.

Lemma write_skill_type_same (id type : nat) :
  preserves same (write_skill_type h id type).
Proof.
  intros d r d'. unfold write_skill_type.
  destruct (find_skill d id); [|intros [= _ <-]; auto].
  apply preserves_store_call; [auto|]. intros d0 _.
  split; [apply skill_keys_retype | split; reflexivity].
Qed.

Lemma resolve_skill_relinked (self : nat) (n : string) (type : nat)
  (c : caches) (d d' : db) (r : result (nat * caches)) :
  linked d self n -> skill_cache_linked c d self ->
  resolve_skill h n type c d = (r, d') ->
  same d d'
  /\ forall s c', r = Ok (s, c') ->
       (exists l, search_link d' self s = Some l)
       /\ skill_cache_linked c' d' self.
Proof.
  intros (s0 & l0 & S & L) K. unfold resolve_skill.
  destruct (cache_get (skill_cache c) (lower n)) as [s1|] eqn:C.
  - intros [= <- <-]. split; [auto|]. intros s c' [= <- <-].
    split; [exact (K _ _ C) | exact K].
  - intros E. apply bind_inv in E. rewrite S in E.
    assert (X : forall ra d1,
               (if (skill_type_of s0 =? type)%nat then (Ok (skill_id s0), d)
                else
                  match write_skill_type h (skill_id s0) type d with
                  | (Ok _, d2) => (Ok (skill_id s0), d2)
                  | (Raise e, d2) => (Raise e, d2)
                  end) = (ra, d1) ->
               same d d1 /\ forall a, ra = Ok a -> a = skill_id s0).
    { intros ra d1. destruct (skill_type_of s0 =? type)%nat.
      - intros [= <- <-]. split; [auto | now intros a [= <-]].
      - destruct (write_skill_type h (skill_id s0) type d)
          as [[u|e] d2] eqn:W; intros [= <- <-];
          (split; [exact (write_skill_type_same _ _ _ _ _ W)|]).
        + now intros a [= <-].
        + intros a [=]. }
    destruct E as [(a & d1 & E1 & E2) | (e & E1 & ->)].
    + destruct (X _ _ E1) as [Sm A]. specialize (A a eq_refl). subst a.
      injection E2 as <- <-. split; [exact Sm|].
      intros s c' [= <- <-].
      assert (L1 : search_link d1 self (skill_id s0) = Some l0)
        by now apply (grows_search_link d d1); auto.
      split; [eauto|]. intros k s' G. simpl in G.
      destruct (lower n =? k).
      * injection G as <-. eauto.
      * destruct (K k s' G) as [l' L'].
        exists l'. now apply (grows_search_link d d1); auto.
    + destruct (X _ _ E1) as [Sm _]. split; [exact Sm | intros ? ? [=]].
Qed.

Lemma link_skill_same (self skill level type : nat) (d d' : db)
  (r : result unit) (l : applicant_skill) :
  search_link d self skill = Some l ->
  link_skill h self skill level type d = (r, d') -> r = Ok tt /\ d' = d.
Proof. unfold link_skill. intros ->. now intros [= <- <-]. Qed.

Lemma process_skill_relinks (self : nat) (item : json) (c : caches)
  (d d' : db) (r : result caches) :
  (forall n, In n (named_skills [item]) -> linked d self n) ->
  skill_cache_linked c d self ->
  process_skill h self item c d = (r, d') ->
  same d d' /\ forall c', r = Ok c' -> skill_cache_linked c' d' self.
Proof.
  intros N K. unfold process_skill.
  destruct item;
    try (intros [= <- <-]; split; [auto | now intros ? [= <-]]).
  simpl named_skills in N.
  destruct (truthy (py_get fields "skill")) eqn:T; simpl negb; cbv iota;
    [|intros [= <- <-]; split; [auto | now intros ? [= <-]]].
  destruct (or_general (py_get fields "type")) as [| | | |tn| |];
    try (intros [= <- <-]; split; [auto | intros ? [=]]).
  intros E. apply bind_inv in E.
  destruct E as [([t c1] & d1 & E1 & E) | (e & E1 & ->)];
    [|split; [exact (frame_same _ _ (resolve_type_frame h _ _ _ _ _ E1))
             | intros ? [=]]].
  pose proof (frame_same _ _ (resolve_type_frame h _ _ _ _ _ E1)) as S1.
  pose proof (resolve_type_skill_cache h _ _ _ _ _ _ E1) as C1.
  simpl in E. apply bind_inv in E.
  destruct E as [([l c2] & d2 & E2 & E) | (e & E2 & ->)];
    [|split; [apply (same_trans _ _ _ S1);
              exact (frame_same _ _ (resolve_level_frame h _ _ _ _ _ E2))
             | intros ? [=]]].
  pose proof (frame_same _ _ (resolve_level_frame h _ _ _ _ _ E2)) as S2.
  pose proof (resolve_level_skill_cache h _ _ _ _ _ _ E2) as C2.
  simpl in E. apply bind_inv in E.
  destruct E as [([] & d3 & E3 & E) | (e & E3 & ->)];
    [|split; [apply (same_trans _ _ _ S1), (same_trans _ _ _ S2);
              exact (frame_same _ _ (associate_level_frame h _ _ _ _ _ E3))
             | intros ? [=]]].
  pose proof (frame_same _ _ (associate_level_frame h _ _ _ _ _ E3)) as S3.
  assert (S03 : same d d3) by eauto.
  destruct (py_get fields "skill") as [| | | |n| |];
    try (injection E as <- <-; split; [exact S03 | intros ? [=]]).
  simpl in T. apply negb_true_iff in T. rewrite T in N.
  assert (L3 : linked d3 self n).
  { apply (grows_linked d d3); [auto | apply N; now left]. }
  assert (K3 : skill_cache_linked c2 d3 self).
  { apply (same_cache_linked c c2 d d3); [congruence | exact S03 | exact K]. }
  apply bind_inv in E.
  destruct E as [([s c3] & d4 & E4 & E) | (e & E4 & ->)].
  - destruct (resolve_skill_relinked _ _ _ _ _ _ _ L3 K3 E4) as [S4 P].
    destruct (P s c3 eq_refl) as [[lk Lk] K4]. simpl in E.
    apply bind_inv in E.
    destruct E as [([] & d5 & E5 & E) | (e & E5 & ->)].
    + destruct (link_skill_same _ _ _ _ _ _ _ _ Lk E5) as [_ ->].
      injection E as <- <-. split; [eauto|]. now intros c' [= <-].
    + destruct (link_skill_same _ _ _ _ _ _ _ _ Lk E5) as [[=] _].
  - destruct (resolve_skill_relinked _ _ _ _ _ _ _ L3 K3 E4) as [S4 _].
    split; [eauto | intros ? [=]].
Qed.

Lemma process_skill_list_relinks (self : nat) (items : list json) :
  forall c d r d',
    (forall n, In n (named_skills items) -> linked d self n) ->
    skill_cache_linked c d self ->
    process_skill_list h self items c d = (r, d') ->
    same d d'.
Proof.
  induction items as [|item items IH]; intros c d r d' N K E;
    cbn [process_skill_list] in E.
  - injection E as _ <-. auto.
  - rewrite named_skills_cons in N. apply bind_inv in E.
    assert (N1 : forall n, In n (named_skills [item]) -> linked d self n).
    { intros n I. apply N, in_or_app. now left. }
    destruct E as [(c1 & d1 & E1 & E) | (e & E1 & ->)].
    + destruct (process_skill_relinks _ _ _ _ _ _ N1 K E1) as [S1 K1].
      apply (same_trans _ _ _ S1).
      apply (IH c1 d1 r d'); [|now apply K1 | exact E].
      intros n I. apply (grows_linked d d1); [auto|].
      apply N, in_or_app. now right.
    + exact (proj1 (process_skill_relinks _ _ _ _ _ _ N1 K E1)).
Qed.

End SecondRun.

(** Among links kept apart, a link that a search finds is the only one of
    its pair. *)
Lemma links_to_one (d : db) (self skill : nat) (l : applicant_skill) :
  links_unique d -> search_link d self skill = Some l ->
  List.length (links_to d self skill) = 1.
Proof.
  unfold links_unique, search_link, links_to.
  induction (applicant_skills d) as [|x L IH]; simpl; [discriminate|].
  intros U. apply NoDup_cons_iff in U. destruct U as [NI U].
  destruct ((link_applicant_id x =? self)%nat
            && (link_skill_id x =? skill)%nat) eqn:P.
  - intros _. simpl. f_equal.
    assert (F : forall y, In y L ->
                (link_applicant_id y =? self)%nat
                && (link_skill_id y =? skill)%nat = false).
    { intros y I. destruct ((link_applicant_id y =? self)%nat
                            && (link_skill_id y =? skill)%nat) eqn:Q;
        [|reflexivity].
      exfalso. apply NI. apply in_map_iff. exists y. split; [|exact I].
      apply andb_true_iff in P, Q. destruct P as [P1 P2], Q as [Q1 Q2].
      apply Nat.eqb_eq in P1, P2, Q1, Q2. congruence. }
    clear -F. induction L as [|y L IH]; [reflexivity|]. simpl.
    rewrite (F y (or_introl eq_refl)). apply IH.
    intros z I. apply F. now right.
  - intros S. now apply IH.
Qed.

End ReconcilerFacts.

Section SkillClaims.
Variable h : host.
Import Text StoreFacts ReconcilerFacts.

(** C5.  Take tables in which no two links join the same applicant to the
    same skill, and a list of skills on which the reconciler returns.
    Running it a second time on the same list, whether that run returns or
    raises, leaves the links as the first run left them; no two links join
    the same applicant to the same skill; and each skill named in the list
    has exactly one link to the applicant. *)
Theorem second_run_adds_no_link (self : nat) (items : list json)
  (d d1 d2 : db) (r2 : result unit) :
  links_unique d ->
  _process_skills h self (JArr items) d = (Ok tt, d1) ->
  _process_skills h self (JArr items) d1 = (r2, d2) ->
  links_unique d1
  /\ applicant_skills d2 = applicant_skills d1
  /\ links_unique d2
  /\ forall n, In n (named_skills items) ->
       exists s, search_skill d2 n = Some s
                 /\ List.length (links_to d2 self (skill_id s)) = 1.
Proof.
  intros U R1 R2.
  destruct items as [|item items].
  { injection R1 as <-. injection R2 as _ <-.
    repeat split; try assumption. intros ? []. }
  remember (item :: items) as its.
  assert (X : forall d0,
             _process_skills h self (JArr its) d0
             = bind (process_skill_list h self its no_caches)
                    (fun _ => ret tt) d0)
    by (subst its; reflexivity).
  rewrite X in R1, R2. clear X.
  apply bind_inv in R1.
  destruct R1 as [(c1 & d1' & E1 & [= <-]) | (e & _ & [=])].
  assert (O : skill_cache_ok no_caches d) by (intros k s [=]).
  destruct (process_skill_list_links h self its _ _ _ _ O E1) as [_ L1].
  pose proof (process_skill_list_grows h self its _ _ _ _ E1)
    as (_ & _ & U1 & _).
  specialize (U1 U).
  assert (S2 : same d1' d2).
  { apply bind_inv in R2.
    assert (K : skill_cache_linked no_caches d1' self) by (intros k s [=]).
    destruct R2 as [(c2 & d2' & E2 & [= _ <-]) | (e & E2 & _)];
      exact (process_skill_list_relinks h self its _ _ _ _ L1 K E2). }
  split; [exact U1|]. split; [exact (proj1 (proj2 S2))|].
  assert (U2 : links_unique d2).
  { unfold links_unique. now rewrite (proj1 (proj2 S2)). }
  split; [exact U2|].
  intros n I.
  destruct (grows_linked d1' d2 self n (same_grows _ _ S2) (L1 n I))
    as (s & l & S & L).
  exists s. split; [exact S|]. exact (links_to_one d2 self _ l U2 L).
Qed.

End SkillClaims.

(** C5 on a list that names Python twice. *)
Lemma second_run_adds_no_link_witness :
  let h := Sample.answering EmptyString None Sample.accept_all in
  let d := Sample.tables [Sample.candidate 1 pending EmptyString]
             [Sample.beginner] in
  let d1 := snd (_process_skills h 1 (JArr Sample.python_twice) d) in
  let out := _process_skills h 1 (JArr Sample.python_twice) d1 in
  links_unique d
  /\ _process_skills h 1 (JArr Sample.python_twice) d = (Ok tt, d1)
  /\ links_unique d1
  /\ applicant_skills (snd out) = applicant_skills d1
  /\ links_unique (snd out)
  /\ forall n, In n (named_skills Sample.python_twice) ->
       exists s, search_skill (snd out) n = Some s
                 /\ List.length (links_to (snd out) 1 (skill_id s)) = 1.
Proof.
  intros h d d1 out.
  assert (U : links_unique d) by constructor.
  assert (R1 : _process_skills h 1 (JArr Sample.python_twice) d = (Ok tt, d1))
    by reflexivity.
  split; [exact U|]. split; [exact R1|].
  exact (second_run_adds_no_link h 1 Sample.python_twice d d1 (snd out)
           (fst out) U R1 (surjective_pairing out)).
Defined.

(** The two runs on that list leave one link, to the skill created for
    Python. *)
Example python_linked_once :
  let h := Sample.answering EmptyString None Sample.accept_all in
  let d := Sample.tables [Sample.candidate 1 pending EmptyString]
             [Sample.beginner] in
  let d1 := snd (_process_skills h 1 (JArr Sample.python_twice) d) in
  let d2 := snd (_process_skills h 1 (JArr Sample.python_twice) d1) in
  applicant_skills d2
  = [{| link_id := 1; link_applicant_id := 1; link_skill_id := 1;
        link_skill_level_id := 2; link_skill_type_id := 1 |}].
Proof. reflexivity. Qed.

(** ** The extraction job *)

Module JobFacts.
Import Text StoreFacts ReconcilerFacts.



Lemma keeps_applicants_refl (self : nat) (d : db) :
  keeps_applicants self d d.
Proof. intros id. destruct (find_applicant d id) as [a|]; eauto. Qed.

Lemma keeps_applicants_trans (self : nat) (a b c : db) :
  keeps_applicants self a b -> keeps_applicants self b c ->
  keeps_applicants self a c.
Proof.
  intros A B id. specialize (A id). specialize (B id).
  destruct (find_applicant a id) as [x|].
  - destruct A as (y & Fy & Ey). rewrite Fy in B.
    destruct B as (z & Fz & Ez). exists z. split; [exact Fz|].
    intros N. now rewrite (Ez N), (Ey N).
  - now rewrite A in B.
Qed.

Lemma keeps_applicants_eq (self : nat) (d d' : db) :
  applicants d' = applicants d -> keeps_applicants self d d'.
Proof.
  intros E id. unfold find_applicant. rewrite E.
  destruct (find _ (applicants d)); eauto.
Qed.

Lemma journal_adds_refl (P : transition -> Prop) (w : world) :
  journal_adds P w w.
Proof. exists []. split; [now rewrite app_nil_r | constructor]. Qed.

Lemma journal_adds_trans (P : transition -> Prop) (a b c : world) :
  journal_adds P a b -> journal_adds P b c -> journal_adds P a c.
Proof.
  intros (n1 & E1 & F1) (n2 & E2 & F2). exists (n1 ++ n2)%list. split.
  - rewrite E2, E1. now rewrite app_assoc.
  - apply Forall_app. now split.
Qed.

Lemma journal_adds_same (P : transition -> Prop) (w w' : world) :
  journal w' = journal w -> journal_adds P w w'.
Proof. intros E. exists []. split; [now rewrite app_nil_r | constructor]. Qed.

Lemma job_step_refl (self : nat) (w : world) : job_step self w w.
Proof.
  split; [reflexivity|].
  split; [apply journal_adds_refl | apply keeps_applicants_refl].
Qed.

Lemma job_step_trans (self : nat) (a b c : world) :
  job_step self a b -> job_step self b c -> job_step self a c.
Proof.
  intros (C1 & J1 & K1) (C2 & J2 & K2). split; [|split].
  - unfold keeps_committed in *. congruence.
  - exact (journal_adds_trans _ _ _ _ J1 J2).
  - exact (keeps_applicants_trans _ _ _ _ K1 K2).
Qed.

#[local] Hint Resolve job_step_refl job_step_trans keeps_applicants_refl
  keeps_applicants_trans : core.

Lemma entry_to (d : db) (self : nat) (st : extract_state) (t : transition) :
  In t (entry d self st) -> tr_to t = st.
Proof.
  unfold entry. destruct (find_applicant d self); [|intros []].
  now intros [<-|[]].
Qed.

Section Steps.
Variable h : host.

Lemma write_applicant_keeps (self : nat) (v : applicant_vals) :
  preserves (keeps_applicants self) (write_applicant h self v).
Proof.
  intros d r d'. unfold write_applicant.
  destruct (find_applicant d self); [|intros [= _ <-]; auto].
  apply preserves_store_call; [auto|]. intros d0 _ id.
  rewrite find_applicant_update.
  destruct (find_applicant d0 id) as [x|] eqn:F; [|reflexivity].
  simpl. eexists. split; [reflexivity|]. intros N.
  rewrite (find_applicant_id _ _ _ F).
  destruct (Nat.eqb_spec id self); [contradiction | reflexivity].
Qed.

Lemma resolve_degree_keeps (self : nat) (n : string) :
  preserves (keeps_applicants self) (resolve_degree h n).
Proof.
  intros d r d' E.
  destruct (resolve_degree_returns h n d) as (t & d1 & E1 & A).
  rewrite E in E1. injection E1 as _ <-. now apply keeps_applicants_eq.
Qed.

Lemma write_extracted_keeps (self : nat) (data : json) :
  preserves (keeps_applicants self) (_write_extracted_data h self data).
Proof.
  unfold _write_extracted_data.
  destruct (negb (truthy data)); [apply preserves_ret; auto|].
  destruct data; try (apply preserves_raise; auto).
  apply preserves_bind; [eauto| |].
  { destruct (truthy _); [|apply preserves_ret; auto].
    intros d r d'. unfold read_name.
    destruct (find_applicant d self); intros [= _ <-]; auto. }
  intros current. cbv zeta. apply preserves_bind; [eauto| |].
  { destruct (truthy _); [apply resolve_degree_keeps|].
    apply preserves_ret; auto. }
  intros t. destruct (has_vals _); [apply write_applicant_keeps|].
  apply preserves_ret; auto.
Qed.

Lemma process_skills_keeps (self : nat) (v : json) :
  preserves (keeps_applicants self) (_process_skills h self v).
Proof.
  unfold _process_skills.
  destruct v; try (apply preserves_ret; auto).
  destruct (negb _); [apply preserves_ret; auto|].
  apply preserves_bind; [eauto| |intros; apply preserves_ret; auto].
  intros d r d' E. apply keeps_applicants_eq.
  now destruct (process_skill_list_grows h _ _ _ _ _ _ E) as (_ & _ & _ & A).
Qed.

Lemma write_state_step (self : nat) (st : extract_state) (status : string) :
  st = processing \/ st = done \/ st = error ->
  preserves (job_step self) (write_state h self st status).
Proof.
  intros S w r w'. unfold write_state.
  destruct (write_applicant h self (state_vals st status) (working w))
    as [[u|e] d] eqn:W; intros [= _ <-].
  - split; [reflexivity|]. split.
    + eexists. split; [reflexivity|]. apply Forall_forall.
      intros t I. apply entry_to in I. unfold job_state. now rewrite I.
    + exact (write_applicant_keeps _ _ _ _ _ W).
  - split; [reflexivity|]. split; [now apply journal_adds_same|].
    exact (write_applicant_keeps _ _ _ _ _ W).
Qed.

Lemma on_working_step {A : Type} (self : nat) (m : M db A) :
  preserves (keeps_applicants self) m ->
  preserves (job_step self) (on_working m).
Proof.
  intros P w r w'. unfold on_working.
  destruct (m (working w)) as [r0 d] eqn:E. intros [= _ <-].
  split; [reflexivity|]. split; [now apply journal_adds_same|].
  exact (P _ _ _ E).
Qed.

Lemma savepoint_block_step {A : Type} (self : nat) (m : M world A) :
  preserves (job_step self) m ->
  preserves (job_step self) (savepoint_block m).
Proof.
  intros P w r w'. unfold savepoint_block.
  destruct (m w) as [[a|e] w1] eqn:E; intros [= _ <-].
  - exact (P _ _ _ E).
  - destruct (P _ _ _ E) as (C & J & _).
    split; [exact C|]. split; [exact J | apply keeps_applicants_refl].
Qed.

Lemma call_model_step (self : nat) :
  preserves (job_step self) (call_model h self).
Proof.
  unfold call_model. apply preserves_bind; [eauto| |].
  { intros w r w' [= _ <-]. auto. }
  intros [[api_key model_name] att].
  apply preserves_bind; [eauto | apply write_state_step; auto|].
  intros _. apply preserves_bind; [eauto | apply preserves_lift; auto|].
  intros text. apply preserves_bind; [eauto| |].
  { apply on_working_step, write_applicant_keeps. }
  intros _. apply preserves_ret; auto.
Qed.

Lemma apply_response_step (batch : list nat) (self : nat) (text : string) :
  preserves (job_step self) (apply_response h batch self text).
Proof.
  unfold apply_response.
  apply preserves_bind; [eauto | apply preserves_lift; auto|].
  intros data. apply preserves_bind; [eauto| |].
  { apply on_working_step, write_extracted_keeps. }
  intros _. destruct data; try (apply preserves_raise; auto).
  intros w r w'. destruct (_ && _); intros [= _ <-]; auto.
Qed.

Lemma core_step_step (batch : list nat) (self : nat) :
  preserves (job_step self) (core_step h batch self).
Proof.
  unfold core_step. apply savepoint_block_step.
  apply preserves_bind; [eauto | apply call_model_step|].
  intros text. apply apply_response_step.
Qed.

Lemma skills_step_step (self : nat) (v : json) :
  preserves (job_step self) (skills_step h self v).
Proof.
  unfold skills_step. apply savepoint_block_step.
  apply preserves_bind; [eauto | apply preserves_lift; auto|].
  intros _. apply on_working_step, process_skills_keeps.
Qed.

(** A block that fails under its savepoint leaves the open transaction as
    it found it. *)
Lemma savepoint_block_raise {A : Type} (m : M world A) (w w' : world)
  (e : exn) :
  savepoint_block m w = (Raise e, w') -> working w' = working w.
Proof.
  unfold savepoint_block.
  destruct (m w) as [[a|e'] w1]; [discriminate | now intros [= _ <-]].
Qed.

(** The record is there when the first block returns. *)
Lemma core_step_ok_applicant (batch : list nat)
  (self : nat) (w w1 : world) (v : json) :
  core_step h batch self w = (Ok v, w1) ->
  exists a, find_applicant (working w1) self = Some a.
Proof.
  intros E. destruct (core_step_step _ _ _ _ _ E) as (_ & _ & K).
  assert (F : exists a, find_applicant (working w) self = Some a).
  { unfold core_step, savepoint_block in E.
    destruct ((response_text <- call_model h self;;
               apply_response h batch self response_text) w)
      as [[a|e] w2] eqn:B; [|discriminate].
    apply bind_inv in B. destruct B as [(t & w3 & C & _) | (e & _ & [=])].
    unfold call_model in C. apply bind_inv in C.
    destruct C as [(x & w4 & V & _) | (e & _ & [=])].
    injection V as V _. unfold validate in V.
    destruct (find_applicant (working w) self); [eauto|].
    discriminate V. }
  destruct F as [a F]. specialize (K self). rewrite F in K.
  destruct K as (a' & F' & _). eauto.
Qed.


Lemma record_error_accepted (self : nat) (e : exn) (w : world)
  (a : applicant) :
  find_applicant (committed w) self = Some a ->
  rejects h (WriteApplicant self (state_vals error (error_message e)))
    (committed w) = None ->
  committed (record_error h self e w)
  = update_applicant self (state_vals error (error_message e)) (committed w)
  /\ working (record_error h self e w) = committed (record_error h self e w).
Proof.
  intros F R. unfold record_error. simpl.
  rewrite (write_applicant_accepted h _ _ _ _ F R). split; reflexivity.
Qed.

Lemma record_error_refused (self : nat) (e : exn) (w : world) (msg : string) :
  rejects h (WriteApplicant self (state_vals error (error_message e)))
    (committed w) = Some msg ->
  record_error h self e w = rollback w.
Proof.
  intros R. unfold record_error, write_applicant, store_call. simpl.
  destruct (find_applicant (committed w) self); [|reflexivity].
  now rewrite R.
Qed.

End Steps.

End JobFacts.

Section JobClaims.
Variable h : host.
Import Text StoreFacts JobFacts.


(** C4, as amended.  Take a run of the job whose first block returns a
    list of skills, whose second block fails with [e_skill], and let the
    store accept the last write of the run.  Then what is committed after
    the run is what the first block left in the transaction, with the
    state of the record now Done and its status the note of the partial
    success that ends with the text of [e_skill]: the writes of the first
    block are kept and those of the second are not. *)
Theorem skills_failure_keeps_first_block (batch : list nat)
  (self : nat) (w w1 w2 : world)
  (gemini_skills_list : json) (e_skill : exn) :
  core_step h batch self w = (Ok gemini_skills_list, w1) ->
  truthy gemini_skills_list = true ->
  skills_step h self gemini_skills_list w1 = (Raise e_skill, w2) ->
  rejects h (WriteApplicant self (state_vals done (partial_message e_skill)))
    (working w1) = None ->
  let w' := extract_one h batch self w in
  committed w'
  = update_applicant self (state_vals done (partial_message e_skill))
      (working w1)
  /\ working w' = committed w'
  /\ exists a1, find_applicant (working w1) self = Some a1
       /\ find_applicant (committed w') self
          = Some (apply_vals (state_vals done (partial_message e_skill)) a1).
Proof.
  intros E T S R w'. unfold w', extract_one. rewrite E, T, S.
  pose proof (savepoint_block_raise _ _ _ _ S) as W2.
  destruct (core_step_ok_applicant h _ _ _ _ _ E) as [a1 F1].
  unfold write_state. rewrite W2.
  rewrite (write_applicant_accepted h _ _ _ _ F1 R). simpl.
  split; [reflexivity|]. split; [reflexivity|].
  exists a1. split; [exact F1|].
  rewrite find_applicant_update, F1. simpl.
  now rewrite (find_applicant_id _ _ _ F1), Nat.eqb_refl.
Qed.

End JobClaims.

(** ** The dispatcher and the life of a record *)

Module LifeFacts.
Import Text StoreFacts ReconcilerFacts JobFacts.

Lemma can_retry_states (st : extract_state) :
  can_retry st = true -> st = no_extract \/ st = error \/ st = done.
Proof. destruct st; simpl; intros E; auto; discriminate. Qed.

Lemma can_extract_eligible (d : db) (a : applicant) :
  _compute_can_extract_with_gemini d a = true -> eligible d a.
Proof.
  unfold _compute_can_extract_with_gemini, eligible. intros E.
  apply andb_true_iff in E. destruct E as [E R].
  apply andb_true_iff in E. destruct E as [Mo At].
  split; [now apply String.eqb_eq|]. split.
  - destruct (message_main_attachment_id a); [discriminate | discriminate].
  - now apply can_retry_states.
Qed.

Lemma ready_eligible (d : db) (ids : list nat) (id : nat) :
  In id (ready d ids) ->
  exists a, find_applicant d id = Some a /\ eligible d a.
Proof.
  unfold ready. intros I. apply filter_In in I. destruct I as [_ E].
  destruct (find_applicant d id) as [a|]; [|discriminate].
  exists a. split; [reflexivity | now apply can_extract_eligible].
Qed.

Lemma settles_refl (d : db) : settles d d.
Proof. intros id. destruct (find_applicant d id); eauto. Qed.

Lemma settles_trans (a b c : db) : settles a b -> settles b c -> settles a c.
Proof.
  intros A B id. specialize (A id). specialize (B id).
  destruct (find_applicant a id) as [x|].
  - destruct A as (y & Fy & Ey). rewrite Fy in B.
    destruct B as (z & Fz & Ez). exists z. split; [exact Fz|].
    destruct Ez as [Ez|Ez]; [rewrite Ez; exact Ey | tauto].
  - now rewrite A in B.
Qed.

Section Life.
Variable h : host.

(** A write of a state on [self] moves [self] to that state and no other
    applicant. *)
Lemma update_state_find (self : nat) (st : extract_state) (status : string)
  (d : db) (id : nat) :
  match find_applicant d id with
  | Some a =>
      exists a',
        find_applicant (update_applicant self (state_vals st status) d) id
        = Some a'
        /\ (id = self -> gemini_extract_state a' = st)
        /\ (id <> self -> a' = a)
  | None =>
      find_applicant (update_applicant self (state_vals st status) d) id
      = None
  end.
Proof.
  rewrite find_applicant_update.
  destruct (find_applicant d id) as [a|] eqn:F; [|reflexivity].
  simpl. eexists. split; [reflexivity|].
  rewrite (find_applicant_id _ _ _ F).
  destruct (Nat.eqb_spec id self); split; intros; try contradiction;
    reflexivity.
Qed.

Lemma record_error_settles (self : nat) (e : exn) (w : world) :
  settles (committed w) (committed (record_error h self e w))
  /\ working (record_error h self e w) = committed (record_error h self e w).
Proof.
  unfold record_error. simpl.
  destruct (write_applicant h self (state_vals error (error_message e))
              (committed w)) as [[u|e'] d] eqn:W; simpl.
  - apply write_applicant_ok in W. destruct W as (-> & _ & _).
    split; [|reflexivity]. intros id.
    pose proof (update_state_find self error (error_message e)
                  (committed w) id) as U.
    destruct (find_applicant (committed w) id) as [a|]; [|exact U].
    destruct U as (a' & F & S1 & S2). exists a'. split; [exact F|].
    destruct (Nat.eq_dec id self) as [E|N].
    + right. right. now apply S1.
    + left. now rewrite (S2 N).
  - split; [apply settles_refl | reflexivity].
Qed.

Lemma record_error_journal (self : nat) (e : exn) (w : world) :
  journal_adds job_state w (record_error h self e w).
Proof.
  unfold record_error. simpl.
  destruct (write_applicant h self _ (committed w)) as [[u|e'] d]; simpl.
  - eexists. split; [reflexivity|]. apply Forall_forall. intros t I.
    apply entry_to in I. unfold job_state. auto.
  - now apply journal_adds_same.
Qed.

(** The world before the last write of a run that got through its first
    block. *)
Lemma after_skills (self : nat) (w1 : world) (v : json) (msg : string)
  (w2 : world) :
  (if truthy v then
     match skills_step h self v w1 with
     | (Ok _, w2) => (success_message, w2)
     | (Raise e_skill, w2) => (partial_message e_skill, w2)
     end
   else (success_message, w1)) = (msg, w2) ->
  job_step self w1 w2.
Proof.
  destruct (truthy v); [|intros [= _ <-]; apply job_step_refl].
  destruct (skills_step h self v w1) as [[u|e] w3] eqn:S; intros [= _ <-];
    exact (skills_step_step h _ _ _ _ _ S).
Qed.

Lemma extract_one_journal (batch : list nat) (self : nat) (w : world) :
  journal_adds job_state w (extract_one h batch self w).
Proof.
  unfold extract_one.
  destruct (core_step h batch self w) as [[v|e] w1] eqn:C.
  - destruct (core_step_step h _ _ _ _ _ C) as (_ & J1 & _).
    destruct (if truthy v then _ else _) as [msg w2] eqn:S.
    destruct (after_skills _ _ _ _ _ S) as (_ & J2 & _).
    destruct (write_state h self done msg w2) as [[u|e] w3] eqn:W;
      destruct (write_state_step h self done msg
                  ltac:(auto) _ _ _ W) as (_ & J3 & _).
    + apply (journal_adds_trans _ _ _ _ J1), (journal_adds_trans _ _ _ _ J2).
      destruct J3 as (n & E & F). exists n. split; [exact E | exact F].
    + apply (journal_adds_trans _ _ _ _ J1), (journal_adds_trans _ _ _ _ J2),
        (journal_adds_trans _ _ _ _ J3).
      apply record_error_journal.
  - destruct (core_step_step h _ _ _ _ _ C) as (_ & J1 & _).
    apply (journal_adds_trans _ _ _ _ J1). apply record_error_journal.
Qed.

Lemma extract_one_settles (batch : list nat) (self : nat) (w : world) :
  working w = committed w ->
  settles (committed w) (committed (extract_one h batch self w))
  /\ working (extract_one h batch self w)
     = committed (extract_one h batch self w).
Proof.
  intros WC. unfold extract_one.
  destruct (core_step h batch self w) as [[v|e] w1] eqn:C.
  - destruct (core_step_step h _ _ _ _ _ C) as (C1 & _ & K1).
    destruct (if truthy v then _ else _) as [msg w2] eqn:S.
    destruct (after_skills _ _ _ _ _ S) as (C2 & _ & K2).
    pose proof (keeps_applicants_trans _ _ _ _ K1 K2) as K.
    destruct (write_state h self done msg w2) as [[u|e] w3] eqn:W.
    + split; [|reflexivity]. simpl. unfold write_state in W.
      destruct (write_applicant h self (state_vals done msg) (working w2))
        as [[u'|e'] d] eqn:W'; [|discriminate].
      injection W as W. subst w3. simpl.
      apply write_applicant_ok in W'. destruct W' as (-> & _ & _).
      intros id. specialize (K id). rewrite WC in K.
      pose proof (update_state_find self done msg (working w2) id) as U.
      destruct (find_applicant (committed w) id) as [a|].
      * destruct K as (a2 & F2 & E2). rewrite F2 in U.
        destruct U as (a' & F & S1 & S2). exists a'. split; [exact F|].
        destruct (Nat.eq_dec id self) as [E|N].
        -- right. left. now apply S1.
        -- left. now rewrite (S2 N), (E2 N).
      * now rewrite K in U.
    + destruct (write_state_step h self done msg ltac:(auto) _ _ _ W)
        as (C3 & _ & _).
      unfold keeps_committed in *.
      destruct (record_error_settles self e w3) as [St Wk].
      split; [|exact Wk]. now rewrite C3, C2, C1 in St.
  - destruct (core_step_step h _ _ _ _ _ C) as (C1 & _ & _).
    unfold keeps_committed in C1.
    destruct (record_error_settles self e w1) as [St Wk].
    split; [|exact Wk]. now rewrite C1 in St.
Qed.

(** The loop of the job on the record set [batch], over the records
    [ids] of it. *)
Lemma loop_journal (batch ids : list nat) :
  forall w,
    journal_adds job_state w
      (fold_left (fun w self => extract_one h batch self w) ids w).
Proof.
  induction ids as [|id ids IH]; intros w; simpl.
  - apply journal_adds_refl.
  - exact (journal_adds_trans _ _ _ _ (extract_one_journal batch id w)
             (IH (extract_one h batch id w))).
Qed.

Lemma run_journal (ids : list nat) :
  forall w, journal_adds job_state w (_run_gemini_extraction h ids w).
Proof. intros w. apply loop_journal. Qed.

Lemma loop_settles (batch ids : list nat) :
  forall w, working w = committed w ->
    let w' := fold_left (fun w self => extract_one h batch self w) ids w in
    settles (committed w) (committed w') /\ working w' = committed w'.
Proof.
  induction ids as [|id ids IH]; intros w WC; simpl.
  - split; [apply settles_refl | exact WC].
  - destruct (extract_one_settles batch id w WC) as [S1 W1].
    destruct (IH _ W1) as [S2 W2].
    split; [exact (settles_trans _ _ _ S1 S2) | exact W2].
Qed.

Lemma run_settles (ids : list nat) :
  forall w, working w = committed w ->
    settles (committed w) (committed (_run_gemini_extraction h ids w))
    /\ working (_run_gemini_extraction h ids w)
       = committed (_run_gemini_extraction h ids w).
Proof. intros w WC. exact (loop_settles ids ids w WC). Qed.

(** One call of [write] for the state [st] on the records [l]. *)
Lemma write_each_states (st : extract_state) (status : string)
  (l : list nat) :
  forall d d' u,
    write_each h l (state_vals st status) d = (Ok u, d') ->
    forall id,
      match find_applicant d id with
      | Some a =>
          exists a', find_applicant d' id = Some a'
            /\ (gemini_extract_state a' = gemini_extract_state a
                \/ (In id l /\ gemini_extract_state a' = st))
      | None => find_applicant d' id = None
      end.
Proof.
  induction l as [|x l IH]; intros d d' u E id; simpl in E.
  - injection E as _ <-. destruct (find_applicant d id); eauto.
  - apply bind_inv in E.
    destruct E as [(u1 & d1 & W & E) | (e & _ & [=])].
    apply write_applicant_ok in W. destruct W as (-> & _ & _).
    specialize (IH _ _ _ E id).
    pose proof (update_state_find x st status d id) as U.
    destruct (find_applicant d id) as [a|].
    + destruct U as (a1 & F1 & S1 & S2). rewrite F1 in IH.
      destruct IH as (a' & F' & S'). exists a'. split; [exact F'|].
      destruct S' as [S'|[I S']]; [|right; split; [now right | exact S']].
      destruct (Nat.eq_dec id x) as [->|N].
      * right. split; [now left|]. rewrite S'. now apply S1.
      * left. now rewrite S', (S2 N).
    + now rewrite U in IH.
Qed.

End Life.

End LifeFacts.

Section LifeClaims.
Variable h : host.
Import Text StoreFacts JobFacts LifeFacts.

(** C3, as amended.  The action on records none of which is eligible
    raises and changes nothing.  When the action returns, each write of
    the state field that it made is a write of Pending on a record that was
    eligible: its company in the manual mode, whether or not an API key is
    set, a document attached, and its state NoExtract, Error or Done; and
    each record is committed in the state it had, or in Pending if it was
    eligible.  The job started in its thread writes no other state than
    Processing, Done and Error; hence a write that finds a record in
    Processing leaves it there or moves it to Done or Error, and none moves
    a record to Pending; and each record is committed in the state it had,
    or in Done, or in Error. *)
Theorem state_moves_of_action_and_job (ids : list nat) (w : world) :
  (ready (working w) ids = [] ->
   action_extract_with_gemini h ids w = (Raise no_applicants, w))
  /\ (forall to_process w',
        action_extract_with_gemini h ids w = (Ok to_process, w') ->
        to_process = ready (working w) ids
        /\ (exists new,
              journal w' = (journal w ++ new)%list
              /\ forall t, In t new -> enters_pending (working w) t)
        /\ queues (working w) (committed w'))
  /\ (exists new,
        journal (_run_gemini_extraction_in_thread h ids w)
        = (journal w ++ new)%list
        /\ forall t, In t new ->
             job_state t
             /\ tr_to t <> pending
             /\ (tr_from t = processing ->
                 tr_to t = processing \/ tr_to t = done \/ tr_to t = error))
  /\ settles (committed w)
       (committed (_run_gemini_extraction_in_thread h ids w)).
Proof.
  split; [|split; [|split]].
  - unfold action_extract_with_gemini. now intros ->.
  - intros to_process w'. unfold action_extract_with_gemini.
    destruct (ready (working w) ids) as [|id0 rest] eqn:R; [discriminate|].
    rewrite <- R.
    destruct (write_each h (ready (working w) ids) pending_vals (working w))
      as [[u|e] d] eqn:W; [|discriminate].
    intros [= <- <-]. split; [reflexivity|]. split.
    + eexists. split; [reflexivity|]. intros t I.
      apply in_flat_map in I. destruct I as (id & I & T).
      destruct (ready_eligible _ _ _ I) as (a & F & El).
      unfold entry in T. rewrite F in T. destruct T as [<-|[]].
      split; [reflexivity|]. exists a. simpl. auto.
    + simpl. intros id.
      pose proof (write_each_states h pending _ _ _ _ _ W id) as S.
      destruct (find_applicant (working w) id) as [a|] eqn:F; [|exact S].
      destruct S as (a' & F' & S). exists a'. split; [exact F'|].
      destruct S as [S|[I S]]; [now left|]. right. split; [exact S|].
      destruct (ready_eligible _ _ _ I) as (a0 & F0 & El).
      rewrite F in F0. now injection F0 as <-.
  - unfold _run_gemini_extraction_in_thread.
    destruct (run_journal h ids (rollback w)) as (new & E & F).
    exists new. split; [exact E|]. intros t I.
    pose proof (proj1 (Forall_forall _ _) F t I) as J.
    split; [exact J|]. unfold job_state in J. split.
    + destruct J as [J|[J|J]]; rewrite J; discriminate.
    + intros _. exact J.
  - unfold _run_gemini_extraction_in_thread.
    destruct (run_settles h ids (rollback w) eq_refl) as [S W].
    change (committed (commit ?x)) with (working x). rewrite W. exact S.
Qed.

End LifeClaims.

(** ** The job on sample records *)



(** C2 as stated fails in another way: on two records, the first block of
    the first one fails in the parser, and the status that is committed
    names the record set and not the answer. *)
Example parse_failure_on_two_records_hides_the_answer :
  let h := Sample.garbled in
  let w := Stock.two_queued in
  fst (core_step h [1; 2] 1 w)
  = Raise (ValueError "Expected singleton: hr.applicant(1, 2)")
  /\ option_map gemini_extract_state
       (find_applicant (committed (extract_one h [1; 2] 1 w)) 1)
     = Some error
  /\ option_map gemini_extract_status
       (find_applicant (committed (extract_one h [1; 2] 1 w)) 1)
     = Some "Error: Expected singleton: hr.applicant(1, 2)".
Proof. intros h w. split; [|split]; reflexivity. Qed.

(** The amended C4 on a skill whose type is a number. *)
Lemma skills_failure_keeps_first_block_witness :
  let h := Sample.ill_typed in
  let w := Sample.queued in
  let skills := JArr [JObj [("skill", JStr "Python"); ("type", JInt 5)]] in
  let e := no_attribute (JInt 5) "lower" in
  let w1 := snd (core_step h [1] 1 w) in
  core_step h [1] 1 w = (Ok skills, w1)
  /\ truthy skills = true
  /\ skills_step h 1 skills w1 = (Raise e, snd (skills_step h 1 skills w1))
  /\ rejects h (WriteApplicant 1 (state_vals done (partial_message e)))
       (working w1) = None
  /\ committed (extract_one h [1] 1 w)
     = update_applicant 1 (state_vals done (partial_message e)) (working w1)
  /\ option_map name (find_applicant (committed (extract_one h [1] 1 w)) 1)
     = Some "Bob's Application"
  /\ option_map gemini_extract_state
       (find_applicant (committed (extract_one h [1] 1 w)) 1)
     = Some done
  /\ option_map gemini_extract_status
       (find_applicant (committed (extract_one h [1] 1 w)) 1)
     = Some "Successfully saved simple data, but failed to process skills: 'int' object has no attribute 'lower'".
Proof.
  intros h w skills e w1.
  assert (E : core_step h [1] 1 w = (Ok skills, w1)) by reflexivity.
  assert (T : truthy skills = true) by reflexivity.
  assert (S : skills_step h 1 skills w1
              = (Raise e, snd (skills_step h 1 skills w1))) by reflexivity.
  assert (R : rejects h (WriteApplicant 1 (state_vals done (partial_message e)))
                (working w1) = None) by reflexivity.
  split; [exact E|]. split; [exact T|]. split; [exact S|]. split; [exact R|].
  split;
    [exact (proj1 (skills_failure_keeps_first_block h [1] 1 w w1 _ skills e
                     E T S R))|].
  split; [|split]; reflexivity.
Defined.

(** C4 as stated fails: the first block returns, the second fails, the
    store refuses the write of the state Done, and the run ends in Error
    with the name written by the first block undone. *)
Lemma skills_failure_then_refused_write_loses_first_block :
  let h := Sample.ill_typed_unfinished in
  let w := Sample.queued in
  let skills := JArr [JObj [("skill", JStr "Python"); ("type", JInt 5)]] in
  let w1 := snd (core_step h [1] 1 w) in
  fst (core_step h [1] 1 w) = Ok skills
  /\ option_map name (find_applicant (working w1) 1) = Some "Bob's Application"
  /\ fst (skills_step h 1 skills w1) = Raise (no_attribute (JInt 5) "lower")
  /\ option_map gemini_extract_state
       (find_applicant (committed (extract_one h [1] 1 w)) 1)
     = Some error
  /\ option_map name (find_applicant (committed (extract_one h [1] 1 w)) 1)
     = Some EmptyString.
Proof. intros h w skills w1. repeat split. Qed.

(** C10 on skills that are a number: the reconciler itself does nothing
    on them, but the job takes their length first, which raises; the run
    ends in Done with the note of a partial success. *)
Theorem numbered_skills_end_in_partial_success :
  let h := Sample.numbered in
  let w := Sample.queued in
  _parse_gemini_response h [1] Sample.skills_five_text = Ok Sample.skills_five
  /\ fst (core_step h [1] 1 w) = Ok (JInt 5)
  /\ (forall d, _process_skills h 1 (JInt 5) d = (Ok tt, d))
  /\ fst (skills_step h 1 (JInt 5) (snd (core_step h [1] 1 w)))
     = Raise (TypeError "object of type 'int' has no len()")
  /\ option_map gemini_extract_state
       (find_applicant (committed (extract_one h [1] 1 w)) 1)
     = Some done
  /\ option_map gemini_extract_status
       (find_applicant (committed (extract_one h [1] 1 w)) 1)
     = Some "Successfully saved simple data, but failed to process skills: object of type 'int' has no len()"
  /\ option_map gemini_extract_status
       (find_applicant (committed (extract_one h [1] 1 w)) 1)
     <> Some success_message.
Proof.
  intros h w. repeat split. discriminate.
Qed.

(** The items that the reconciler skips, a value that is not an object and
    an object without a skill name, leave the tables as they are. *)
Example skipped_items_change_nothing :
  let h := Sample.numbered in
  forall d,
    _process_skills h 1
      (JArr [JStr "Python"; JObj [("type", JStr "IT")];
             JObj [("skill", JNull)]]) d
    = (Ok tt, d).
Proof. intros h d. reflexivity. Qed.

(** C3 as stated fails: the company of the record has no API key, and the
    record enters Pending. *)
Lemma pending_without_api_key :
  let h := Sample.garbled in
  let w := Sample.fresh_world (Sample.tables [Sample.keyless_candidate] []) in
  let out := action_extract_with_gemini h [1] w in
  gemini_api_key (company_of (working w) Sample.keyless_candidate)
  = EmptyString
  /\ fst out = Ok [1]
  /\ option_map gemini_extract_state (find_applicant (committed (snd out)) 1)
     = Some pending
  /\ validate (committed (snd out)) 1
     = Raise (UserError "Gemini API Key is not set in HR Settings.").
Proof. intros h w out. repeat split. Qed.

(** The amended C3 on one record that is eligible and one that is being
    processed. *)
Lemma state_moves_of_action_and_job_witness :
  let h := Sample.garbled in
  let w := Sample.fresh_world
             (Sample.tables [Sample.candidate 1 no_extract EmptyString;
                             Sample.candidate 2 processing EmptyString]
                [Sample.beginner]) in
  let out := action_extract_with_gemini h [1; 2] w in
  out = (Ok [1], snd out)
  /\ (exists new,
        journal (snd out) = (journal w ++ new)%list
        /\ forall t, In t new -> enters_pending (working w) t)
  /\ queues (working w) (committed (snd out)).
Proof.
  intros h w out.
  assert (E : out = (Ok [1], snd out)) by reflexivity.
  split; [exact E|].
  exact (proj2 (proj1 (proj2 (state_moves_of_action_and_job h [1; 2] w))
                  [1] (snd out) E)).
Defined.

(** The module's first scenario: a name, an e-mail and one skill, on a
    record without a display name. *)
Example scenario_john_doe :
  let payload :=
    JObj [("name", JStr "John Doe"); ("email", JStr "j@d.com");
          ("skills",
           JArr [JObj [("type", JStr "Programming Languages");
                       ("skill", JStr "Python");
                       ("level", JStr "Advanced (80%)")]])] in
  let h := Sample.answering "{}" (Some payload) Sample.accept_all in
  let w := Sample.fresh_world
             (Sample.tables [Sample.candidate 1 no_extract EmptyString]
                [Sample.beginner]) in
  let d := committed (snd (submit h [1] w)) in
  option_map gemini_extract_state (find_applicant d 1) = Some done
  /\ option_map name (find_applicant d 1) = Some "John Doe's Application"
  /\ option_map gemini_extract_status (find_applicant d 1)
     = Some success_message
  /\ map skill_name (skills d) = ["Python"]
  /\ skill_levels d
     = [Sample.beginner;
        {| skill_level_id := 2; skill_level_name := "Advanced";
           level_progress := 80 |}]
  /\ applicant_skills d
     = [{| link_id := 1; link_applicant_id := 1; link_skill_id := 1;
           link_skill_level_id := 2; link_skill_type_id := 1 |}].
Proof. repeat split. Qed.

(** * Further properties *)

(** ** Labels of skill levels *)

Module LabelFacts.
Import Text TextFacts.

Lemma lstrip_blank (s : string) : blank s = true -> lstrip s = EmptyString.
Proof.
  induction s as [|c s IH]; simpl; [reflexivity|].
  intros [Hc Hs]%andb_prop. rewrite Hc. auto.
Qed.

Lemma lstrip_blank_app (ws s : string) :
  blank ws = true -> lstrip (ws ++ s) = lstrip s.
Proof.
  induction ws as [|c ws IH]; simpl; [reflexivity|].
  intros [Hc Hs]%andb_prop. rewrite Hc. auto.
Qed.

Lemma lstrip_app (s t : string) :
  blank s = false -> lstrip (s ++ t) = lstrip s ++ t.
Proof.
  induction s as [|c s IH]; simpl; [discriminate|].
  destruct (is_space c); simpl; [exact IH | reflexivity].
Qed.

Lemma lstrip_head (s : string) :
  blank s = false ->
  exists c r, lstrip s = String c r /\ is_space c = false /\ occurs c s.
Proof.
  induction s as [|c s IH]; simpl; [discriminate|].
  destruct (is_space c) eqn:Hc; simpl.
  - intros (x & r & E & Hx & O)%IH. exists x, r. auto.
  - intros _. exists c, s. auto.
Qed.

Lemma lstrip_split (s : string) :
  exists ws, s = ws ++ lstrip s /\ blank ws = true.
Proof.
  induction s as [|c s (ws & E & B)]; simpl.
  - exists EmptyString. auto.
  - destruct (is_space c) eqn:Hc.
    + exists (String c ws). simpl. rewrite Hc, B. split; [now f_equal | reflexivity].
    + exists EmptyString. auto.
Qed.

Lemma blank_app (a b : string) : blank (a ++ b) = blank a && blank b.
Proof.
  induction a as [|c a IH]; simpl; [reflexivity|].
  now rewrite IH, andb_assoc.
Qed.

Lemma rstrip_blank (s : string) : blank s = true -> rstrip s = EmptyString.
Proof.
  induction s as [|c s IH]; simpl; [reflexivity|].
  intros [Hc Hs]%andb_prop. rewrite (IH Hs), Hc. reflexivity.
Qed.

Lemma rstrip_app_blank (t ws : string) :
  blank ws = true -> rstrip (t ++ ws) = rstrip t.
Proof.
  intros B. induction t as [|c t IH]; simpl.
  - now apply rstrip_blank.
  - now rewrite IH.
Qed.

Lemma strip_app_blank (g ws : string) :
  blank ws = true -> strip (g ++ ws) = strip g.
Proof.
  intros B. unfold strip. destruct (blank g) eqn:G.
  - rewrite lstrip_blank_app by exact G.
    now rewrite (lstrip_blank ws B), (lstrip_blank g G).
  - rewrite lstrip_app by exact G. now apply rstrip_app_blank.
Qed.

Lemma span_digits_spec (s : string) :
  forall ds r, span_digits s = (ds, r) -> s = ds ++ r /\ digits ds = true.
Proof.
  induction s as [|c s IH]; simpl; intros ds r.
  - intros [= <- <-]. auto.
  - destruct (is_digit c) eqn:Hc.
    + destruct (span_digits s) as [ds' r'] eqn:E. intros [= <- <-].
      destruct (IH _ _ eq_refl) as [-> D]. simpl. now rewrite Hc, D.
    + intros [= <- <-]. auto.
Qed.

Lemma span_digits_app (ds r : string) :
  digits ds = true ->
  span_digits (ds ++ String "%" r) = (ds, String "%" r).
Proof.
  induction ds as [|c ds IH]; simpl; [reflexivity|].
  intros [Hc Hd]%andb_prop. now rewrite Hc, (IH Hd).
Qed.

Lemma match_percent_hit (ws ds rest : string) :
  blank ws = true -> ds <> EmptyString -> digits ds = true ->
  match_percent (ws ++ "(" ++ ds ++ "%)" ++ rest) = Some ds.
Proof.
  intros B N D. unfold match_percent.
  rewrite lstrip_blank_app by exact B. simpl.
  change (ds ++ String "%" (String ")" rest))
    with (ds ++ String "%" (String ")" rest)).
  rewrite (span_digits_app ds (String ")" rest) D).
  destruct ds; [contradiction | reflexivity].
Qed.

Lemma match_percent_miss (s t : string) :
  blank s = false -> ~ occurs "(" s -> match_percent (s ++ t) = None.
Proof.
  intros B N. unfold match_percent. rewrite lstrip_app by exact B.
  destruct (lstrip_head s B) as (c & r & -> & _ & O). simpl.
  destruct (Ascii.eqb_spec c "(") as [->|Hc]; [contradiction|].
  destruct c as [[] [] [] [] [] [] [] []]; try reflexivity.
  now contradiction Hc.
Qed.

Lemma match_percent_sound (s ds : string) :
  match_percent s = Some ds ->
  exists ws rest,
    s = ws ++ "(" ++ ds ++ "%)" ++ rest
    /\ blank ws = true /\ ds <> EmptyString /\ digits ds = true.
Proof.
  unfold match_percent. destruct (lstrip_split s) as (ws & E & B).
  destruct (lstrip s) as [|c s1]; [discriminate|].
  destruct (Ascii.eqb_spec c "(") as [->|Hc].
  - destruct (span_digits s1) as [d r] eqn:Sp.
    destruct (span_digits_spec _ _ _ Sp) as [-> D].
    destruct d as [|x d]; [discriminate|].
    destruct r as [|p r]; [discriminate|].
    destruct (Ascii.eqb_spec p "%") as [->|Hp].
    + destruct r as [|q r]; [discriminate|].
      destruct (Ascii.eqb_spec q ")") as [->|Hq].
      * intros [= <-]. exists ws, r. repeat split; auto; discriminate.
      * destruct q as [[] [] [] [] [] [] [] []]; try discriminate.
        now contradiction Hq.
    + destruct p as [[] [] [] [] [] [] [] []]; try discriminate.
      now contradiction Hp.
  - destruct c as [[] [] [] [] [] [] [] []]; try discriminate.
    now contradiction Hc.
Qed.

Lemma level_match_sound (s : string) :
  forall g ds, level_match s = Some (g, ds) ->
  exists ws rest,
    s = g ++ ws ++ "(" ++ ds ++ "%)" ++ rest
    /\ g <> EmptyString /\ ~ occurs "010" g
    /\ blank ws = true /\ ds <> EmptyString /\ digits ds = true.
Proof.
  induction s as [|c s IH]; simpl; intros g ds; [discriminate|].
  destruct (Ascii.eqb_spec c "010") as [->|Hc]; [discriminate|].
  destruct (match_percent s) as [d|] eqn:Mp.
  - intros [= <- <-].
    destruct (match_percent_sound _ _ Mp) as (ws & rest & -> & B & N & D).
    exists ws, rest. simpl. repeat split; auto; try discriminate.
    intros [E|[]]. now apply Hc.
  - destruct (level_match s) as [[g' d]|] eqn:Lm; [|discriminate].
    intros [= <- <-].
    destruct (IH _ _ eq_refl) as (ws & rest & -> & Ng & Nl & B & N & D).
    exists ws, rest. simpl. repeat split; auto; try discriminate.
    intros [E|O]; [now apply Hc | now apply Nl].
Qed.

Lemma level_match_complete (tail ds : string) :
  (forall ws, blank ws = true -> match_percent (ws ++ tail) = Some ds) ->
  forall n, n <> EmptyString -> ~ occurs "(" n -> ~ occurs "010" n ->
  exists g ws, n = g ++ ws /\ blank ws = true
               /\ level_match (n ++ tail) = Some (g, ds).
Proof.
  intros Hit. induction n as [|c n IH]; [contradiction|].
  intros _ Np Nl. simpl in Np, Nl. simpl.
  destruct (Ascii.eqb_spec c "010") as [->|Hc]; [exfalso; auto|].
  destruct (blank n) eqn:B.
  - rewrite (Hit n B). exists (String c EmptyString), n. auto.
  - rewrite match_percent_miss by tauto.
    destruct IH as (g & ws & E & Bw & ->); try tauto.
    + intros ->. discriminate.
    + exists (String c g), ws. simpl. rewrite <- E. auto.
Qed.

Lemma int_of_digits_nonneg (ds : string) :
  forall acc, (0 <= acc)%Z -> (0 <= int_of_digits acc ds)%Z.
Proof.
  induction ds as [|c ds IH]; intros acc H; [exact H|].
  cbn [int_of_digits]. apply IH.
  pose proof (Nat2Z.is_nonneg (nat_of_ascii c - 48)). lia.
Qed.

End LabelFacts.

(** X10.  A label made of a name, white space, and a
    percentage between parentheses parses to the stripped name and the
    value of the digits, whatever follows the closing parenthesis: the name
    must not be empty and must hold neither an opening parenthesis nor a
    line feed. *)
Theorem formatted_label_parses (n ws ds rest : string) :
  n <> EmptyString -> ~ occurs "(" n -> ~ occurs "010" n ->
  blank ws = true -> ds <> EmptyString -> digits ds = true ->
  parse_level (n ++ ws ++ "(" ++ ds ++ "%)" ++ rest)
  = Some (Text.strip n, int_of_digits 0 ds).
Proof.
  intros Nn Np Nl B Nd D. unfold parse_level.
  destruct (LabelFacts.level_match_complete
              (ws ++ "(" ++ ds ++ "%)" ++ rest) ds) with (n := n)
    as (g & wn & E & Bn & ->); auto.
  - intros w Bw. rewrite <- TextFacts.app_assoc.
    apply LabelFacts.match_percent_hit; auto.
    rewrite LabelFacts.blank_app, Bw, B. reflexivity.
  - f_equal. f_equal. rewrite E. symmetry.
    now apply LabelFacts.strip_app_blank.
Qed.

(** X11.  A label parses only when it starts with a group of at
    least one character free of line feeds, then white space, then a
    non-empty run of digits between an opening parenthesis and a percent
    sign with a closing parenthesis; the parsed name is the stripped group
    and the progress the value of the digits, which is never negative. *)
Theorem parsed_label_has_percentage (label nm : string) (p : Z) :
  parse_level label = Some (nm, p) ->
  (0 <= p)%Z
  /\ exists g ws ds rest,
       label = g ++ ws ++ "(" ++ ds ++ "%)" ++ rest
       /\ g <> EmptyString /\ ~ occurs "010" g
       /\ blank ws = true /\ ds <> EmptyString /\ digits ds = true
       /\ nm = Text.strip g /\ p = int_of_digits 0 ds.
Proof.
  unfold parse_level.
  destruct (level_match label) as [[g ds]|] eqn:Lm; [|discriminate].
  intros [= <- <-].
  destruct (LabelFacts.level_match_sound _ _ _ Lm)
    as (ws & rest & E & Ng & Nl & B & Nd & D).
  split; [apply LabelFacts.int_of_digits_nonneg; lia|].
  exists g, ws, ds, rest. repeat split; auto.
Qed.

(** ** Answers with text around the payload *)

Module AnswerFacts.
Import Text TextFacts.

Lemma strip_prefix_other (p s : string) (a c : ascii) :
  a <> c -> strip_prefix (String a p) (String c s) = None.
Proof.
  intros N. simpl. destruct (Ascii.eqb_spec a c); [contradiction | reflexivity].
Qed.

Lemma find_first_after (a : ascii) (p pre rest : string) :
  ~ occurs a pre ->
  find_first (String a p) (pre ++ String a p ++ rest) = Some (pre, rest).
Proof.
  induction pre as [|c pre IH]; intros N.
  - change (EmptyString ++ String a p ++ rest) with (String a (p ++ rest)).
    cbn [find_first].
    replace (strip_prefix (String a p) (String a (p ++ rest)))
      with (Some rest); [reflexivity|].
    symmetry. now apply strip_prefix_spec.
  - simpl in N.
    change (String c pre ++ String a p ++ rest)
      with (String c (pre ++ String a p ++ rest)).
    cbn [find_first]. rewrite strip_prefix_other by intuition.
    rewrite IH by tauto. reflexivity.
Qed.

Lemma upto_last_app (c : ascii) (mid post : string) :
  ~ occurs c post -> upto_last c (mid ++ String c post) = Some mid.
Proof.
  intros N. induction mid as [|x mid IH]; simpl.
  - apply upto_last_none in N. rewrite N. now rewrite Ascii.eqb_refl.
  - now rewrite IH.
Qed.

Lemma find_open_after (pre rest : string) :
  ~ occurs "`" pre ->
  find_first fence_open (pre ++ fence_open ++ rest) = Some (pre, rest).
Proof.
  intros N. unfold fence_open.
  exact (find_first_after "`" _ pre rest N).
Qed.

(** The closing fence does not start inside a text free of backquotes that
    the closing fence follows. *)
Lemma find_close_after (inner post : string) :
  ~ occurs "`" inner ->
  find_first fence_close (inner ++ fence_close ++ post) = Some (inner, post).
Proof.
  induction inner as [|c inner IH]; intros N.
  - reflexivity.
  - simpl in N.
    change (String c inner ++ fence_close ++ post)
      with (String c (inner ++ fence_close ++ post)).
    cbn [find_first]. rewrite IH by tauto.
    replace (strip_prefix fence_close (String c (inner ++ fence_close ++ post)))
      with (@None string); [reflexivity|].
    symmetry. unfold fence_close at 1. cbn [strip_prefix].
    destruct (Ascii.eqb "010" c); [|reflexivity].
    destruct inner as [|x inner].
    + reflexivity.
    + change (String x inner ++ fence_close ++ post)
        with (String x (inner ++ fence_close ++ post)).
      cbv iota.
      destruct (Ascii.eqb_spec "`" x) as [<-|]; [|reflexivity].
      exfalso. simpl in N. tauto.
Qed.

(** The decoding of a text, spelled out: [json.loads] on the stripped
    text, and on its refusal the error of the record set. *)
Lemma decode_spelled (h : host) (self : list nat)
  (response_text json_text : string) :
  decode h self response_text json_text
  = match json_loads h (Text.strip json_text) with
    | Some v => Ok v
    | None =>
        Raise
          match self with
          | [] | [_] => invalid_response response_text
          | _ => expected_singleton self
          end
    end.
Proof.
  unfold decode, parse_failed, record_id.
  destruct (json_loads h (Text.strip json_text)); [reflexivity|].
  now destruct self as [|i [|j rest]].
Qed.

End AnswerFacts.

Section AnswerShapes.
Variable h : host.

(** X1.  When the answer has no fenced block, the text before
    the first opening brace and the text after the last closing brace are
    dropped: the parser returns what [json.loads] makes of the object
    between them, braces included and white space stripped, and fails when
    [json.loads] refuses it, with the error that quotes the whole answer
    on one record at most and the error of [self.id] on two or more. *)
Theorem object_amid_text_is_decoded (self : list nat)
  (pre mid post : string) :
  let response_text := pre ++ "{" ++ mid ++ "}" ++ post in
  ~ has_fence response_text ->
  ~ occurs "{" pre -> ~ occurs "}" post ->
  _parse_gemini_response h self response_text
  = match json_loads h (Text.strip ("{" ++ mid ++ "}")) with
    | Some v => Ok v
    | None =>
        Raise
          match self with
          | [] | [_] =>
              UserError
                ("Gemini returned an invalid response that could not be parsed. Raw text: "
                   ++ response_text)
          | _ =>
              ValueError ("Expected singleton: hr.applicant" ++ ids_repr self)
          end
    end.
Proof.
  intros text NF Npre Npost.
  rewrite <- (AnswerFacts.decode_spelled h self text).
  unfold _parse_gemini_response.
  apply ParserFacts.search_fence_none in NF. rewrite NF.
  unfold search_braces, text.
  rewrite (AnswerFacts.find_first_after "{" EmptyString pre) by exact Npre.
  change ("}" ++ post) with (String "}" post).
  now rewrite AnswerFacts.upto_last_app.
Qed.

(** X2.  An answer that wraps its payload in a fenced block is
    decoded from the inside of the block alone, whatever braces the text
    around the block holds: the parser returns what [json.loads] makes of
    the stripped inside of the block, and fails when [json.loads] refuses
    it, with the error that quotes the whole answer on one record at most
    and the error of [self.id] on two or more.  Here the text before the
    block and the inside of the block hold no backquote. *)
Theorem fenced_answer_is_decoded (self : list nat)
  (pre inner post : string) :
  let response_text := pre ++ fence_open ++ inner ++ fence_close ++ post in
  ~ occurs "`" pre -> ~ occurs "`" inner ->
  _parse_gemini_response h self response_text
  = match json_loads h (Text.strip inner) with
    | Some v => Ok v
    | None =>
        Raise
          match self with
          | [] | [_] =>
              UserError
                ("Gemini returned an invalid response that could not be parsed. Raw text: "
                   ++ response_text)
          | _ =>
              ValueError ("Expected singleton: hr.applicant" ++ ids_repr self)
          end
    end.
Proof.
  intros text Npre Ninner.
  rewrite <- (AnswerFacts.decode_spelled h self text).
  unfold _parse_gemini_response, search_fence, text.
  rewrite AnswerFacts.find_open_after by exact Npre.
  now rewrite AnswerFacts.find_close_after.
Qed.

End AnswerShapes.

(** ** The field writer, run after run *)

Module RewriteFacts.
Import Text TextFacts StoreFacts WriterFacts ReconcilerFacts.

Lemma read_step (self : nat) (c : bool) (d d' : db) (r : result string) :
  (if c then read_name self else ret EmptyString) d = (r, d') -> d' = d.
Proof.
  destruct c; [unfold read_name|unfold ret].
  - destruct (find_applicant d self); now intros [= _ <-].
  - now intros [= _ <-].
Qed.

(** What the search and the creation of the degree leave behind. *)
Lemma degree_step (h : host) (c : bool) (n : string) (d d' : db)
  (r : result (option nat)) :
  (if c then resolve_degree h n else ret None) d = (r, d') ->
  exists t, r = Ok t
    /\ applicants d' = applicants d
    /\ same_taxonomy d d'
    /\ (c = false -> t = None)
    /\ exists more, degrees d' = (degrees d ++ more)%list
                    /\ List.length more <= 1.
Proof.
  destruct c.
  - unfold resolve_degree, create_degree, store_call.
    destruct (search_degree d n) as [x|].
    + intros [= <- <-]. eexists. repeat split; try discriminate.
      exists []. split; [now rewrite List.app_nil_r | simpl; lia].
    + destruct (rejects h (CreateDegree n) d).
      * intros [= <- <-]. eexists. repeat split; try discriminate.
        exists []. split; [now rewrite List.app_nil_r | simpl; lia].
      * intros [= <- <-]. eexists. repeat split; try discriminate.
        eexists [_]. simpl. split; [reflexivity | lia].
  - intros [= <- <-]. exists None. repeat split.
    exists []. split; [now rewrite List.app_nil_r | simpl; lia].
Qed.

Lemma simple_vals_no_state (h : host) (cur : string)
  (fields : list (string * json)) (t : option nat) :
  set_state (with_type_id (simple_vals h cur fields) t) = None
  /\ set_status (with_type_id (simple_vals h cur fields) t) = None.
Proof. split; reflexivity. Qed.

Lemma apply_vals_twice (v : applicant_vals) (a : applicant) :
  apply_vals v (apply_vals v a) = apply_vals v a.
Proof.
  unfold apply_vals. destruct v as [s1 s2 s3 s4 s5 s6 s7 s8]. simpl.
  destruct s1, s2, s3, s4, s5, s6, s7, s8; reflexivity.
Qed.

Lemma update_twice (id : nat) (v : applicant_vals) (d : db) :
  update_applicant id v (update_applicant id v d) = update_applicant id v d.
Proof.
  unfold update_applicant, with_applicants. simpl. f_equal.
  rewrite map_map. apply map_ext. intros a.
  destruct (applicant_id a =? id)%nat eqn:E.
  - change (applicant_id (apply_vals v a)) with (applicant_id a).
    rewrite E. apply apply_vals_twice.
  - now rewrite E.
Qed.

(** The run of the writer on an object with a key, step by step. *)
Lemma writer_run (h : host) (self : nat) (fields : list (string * json))
  (d d' : db) (r : result unit) :
  fields <> [] ->
  _write_extracted_data h self (JObj fields) d = (r, d') ->
  (truthy (py_get fields "name") = true /\ find_applicant d self = None
   /\ r = Raise missing_record /\ d' = d)
  \/ exists t d1,
       (if truthy (py_get fields "degree")
        then resolve_degree h (py_str h (py_get fields "degree"))
        else ret None) d = (Ok t, d1)
       /\ (has_vals
             (with_type_id
                (simple_vals h
                   match find_applicant d self with
                   | Some a => name a
                   | None => EmptyString
                   end fields) t) = false
           /\ r = Ok tt /\ d' = d1
           \/ has_vals
                (with_type_id
                   (simple_vals h
                      match find_applicant d self with
                      | Some a => name a
                      | None => EmptyString
                      end fields) t) = true
              /\ write_applicant h self
                   (with_type_id
                      (simple_vals h
                         match find_applicant d self with
                         | Some a => name a
                         | None => EmptyString
                         end fields) t) d1 = (r, d')).
Proof.
  intros NE. unfold _write_extracted_data.
  destruct fields as [|f fs]; [contradiction|].
  change (negb (truthy (JObj (f :: fs)))) with false. cbv iota.
  set (fields := f :: fs). intros E.
  apply bind_inv in E. destruct E as [(cur & s1 & R & E) | (e & R & ->)].
  - assert (s1 = d) as -> by exact (read_step _ _ _ _ _ R).
    assert (simple_vals h cur fields
            = simple_vals h match find_applicant d self with
                            | Some a => name a
                            | None => EmptyString
                            end fields) as C.
    { destruct (truthy (py_get fields "name")) eqn:N.
      - unfold read_name in R.
        destruct (find_applicant d self); [|discriminate].
        now injection R as ->.
      - now apply simple_vals_name_irrelevant. }
    cbv zeta in E. rewrite C in E. right.
    apply bind_inv in E. destruct E as [(t & d1 & D & E) | (e & D & ->)].
    + exists t, d1. split; [exact D|].
      destruct (has_vals _) eqn:HV.
      * right. split; [reflexivity | exact E].
      * left. unfold ret in E. injection E as <- <-. auto.
    + apply degree_step in D. destruct D as (t & [=] & _).
  - left. destruct (truthy (py_get fields "name")); [|discriminate].
    unfold read_name in R.
    destruct (find_applicant d self); [discriminate|].
    injection R as <- <-. auto.
Qed.

Lemma writer_missing (h : host) (self : nat) (fields : list (string * json))
  (d : db) :
  fields <> [] -> truthy (py_get fields "name") = true ->
  find_applicant d self = None ->
  _write_extracted_data h self (JObj fields) d = (Raise missing_record, d).
Proof.
  intros NE N F. destruct fields as [|f fs]; [contradiction|].
  unfold _write_extracted_data.
  change (negb (truthy (JObj (f :: fs)))) with false. cbv iota.
  unfold bind. rewrite N. unfold read_name. cbv beta iota.
  now rewrite F.
Qed.

Lemma find_applicant_same (d d' : db) (id : nat) :
  applicants d' = applicants d -> find_applicant d' id = find_applicant d id.
Proof. unfold find_applicant. now intros ->. Qed.

Lemma keeps_progress_refl (self : nat) (d : db) : keeps_progress self d d.
Proof.
  intros id. destruct (find_applicant d id) as [a|]; [|reflexivity].
  exists a. auto 10.
Qed.

Lemma keeps_progress_same (self : nat) (d d' : db) :
  applicants d' = applicants d -> keeps_progress self d d'.
Proof.
  intros A id. rewrite (find_applicant_same _ _ _ A).
  apply keeps_progress_refl.
Qed.

Lemma keeps_progress_update (self : nat) (v : applicant_vals) (d d1 : db) :
  set_state v = None -> set_status v = None ->
  applicants d1 = applicants d ->
  keeps_progress self d (update_applicant self v d1).
Proof.
  intros S1 S2 A id. rewrite find_applicant_update.
  rewrite (find_applicant_same _ _ _ A).
  destruct (find_applicant d id) as [a|] eqn:F; [|reflexivity].
  simpl. eexists. split; [reflexivity|].
  rewrite (find_applicant_id _ _ _ F).
  destruct (Nat.eqb_spec id self) as [->|N].
  - unfold apply_vals. simpl. rewrite S1, S2. simpl.
    repeat split. intros N. now contradiction N.
  - auto 10.
Qed.

(** A degree looked up once more is the degree found or created before,
    when the store has carried the creation out. *)
Lemma degree_step_again (h : host) (c : bool) (n : string) (d d1 d2 : db)
  (t : option nat) :
  (forall op x, rejects h op x = None) ->
  (if c then resolve_degree h n else ret None) d = (Ok t, d1) ->
  degrees d2 = degrees d1 ->
  (if c then resolve_degree h n else ret None) d2 = (Ok t, d2).
Proof.
  intros Acc. destruct c; [|now intros [= <- <-]].
  unfold resolve_degree, create_degree, store_call, search_degree.
  destruct (find _ (degrees d)) as [x|] eqn:F.
  - intros [= <- <-] ->. now rewrite F.
  - rewrite Acc. intros [= <- <-]. simpl. intros ->.
    rewrite (find_app_none _ _ _ F). simpl. now rewrite ilike_refl.
Qed.

Lemma same_setup_refl (d : db) : same_setup d d.
Proof. split; reflexivity. Qed.

Lemma same_setup_trans (a b c : db) :
  same_setup a b -> same_setup b c -> same_setup a c.
Proof. intros [A1 A2] [B1 B2]. split; congruence. Qed.

Lemma write_applicant_setup (h : host) (self : nat) (v : applicant_vals) :
  preserves same_setup (write_applicant h self v).
Proof.
  intros d r d'. unfold write_applicant.
  destruct (find_applicant d self);
    [|intros [= _ <-]; apply same_setup_refl].
  apply preserves_store_call; [apply same_setup_refl|].
  intros; split; reflexivity.
Qed.

Lemma writer_setup (h : host) (self : nat) (data : json) :
  preserves same_setup (_write_extracted_data h self data).
Proof.
  pose proof same_setup_refl as Rf. pose proof same_setup_trans as Tr.
  unfold _write_extracted_data.
  destruct (negb (truthy data)); [apply preserves_ret; auto|].
  destruct data; try (apply preserves_raise; auto).
  apply preserves_bind; [eauto| |].
  { intros d r d' E. apply read_step in E. now subst. }
  intros current. cbv zeta. apply preserves_bind; [eauto| |].
  { destruct (truthy _); [|apply preserves_ret; auto].
    intros d r d'. unfold resolve_degree, create_degree, store_call.
    destruct (search_degree d _); [intros [= _ <-]; auto|].
    destruct (rejects h _ d); intros [= _ <-]; auto. split; reflexivity. }
  intros t. destruct (has_vals _); [apply write_applicant_setup|].
  apply preserves_ret; auto.
Qed.

Lemma same_taxonomy_refl (d : db) : same_taxonomy d d.
Proof. repeat split. Qed.

Lemma same_taxonomy_trans (a b c : db) :
  same_taxonomy a b -> same_taxonomy b c -> same_taxonomy a c.
Proof.
  intros (A1 & A2 & A3 & A4) (B1 & B2 & B3 & B4). repeat split; congruence.
Qed.

Lemma write_applicant_taxonomy (h : host) (self : nat) (v : applicant_vals) :
  preserves same_taxonomy (write_applicant h self v).
Proof.
  intros d r d'. unfold write_applicant.
  destruct (find_applicant d self);
    [|intros [= _ <-]; apply same_taxonomy_refl].
  apply preserves_store_call; [apply same_taxonomy_refl|].
  intros; repeat split.
Qed.

Lemma writer_taxonomy (h : host) (self : nat) (data : json) :
  preserves same_taxonomy (_write_extracted_data h self data).
Proof.
  pose proof same_taxonomy_refl as Rf. pose proof same_taxonomy_trans as Tr.
  unfold _write_extracted_data.
  destruct (negb (truthy data)); [apply preserves_ret; auto|].
  destruct data; try (apply preserves_raise; auto).
  apply preserves_bind; [eauto| |].
  { intros d r d' E. apply read_step in E. now subst. }
  intros current. cbv zeta. apply preserves_bind; [eauto| |].
  { intros d r d' E. now apply degree_step in E as (t & _ & _ & T & _). }
  intros t. destruct (has_vals _); [apply write_applicant_taxonomy|].
  apply preserves_ret; auto.
Qed.

Lemma endswith_app (s suf : string) : endswith (s ++ suf) suf = true.
Proof. apply endswith_spec. now exists s. Qed.

(** The entries of the payload alone do not depend on whether the writer
    has already replaced the display name. *)
Lemma simple_vals_again (h : host) (cur : string)
  (fields : list (string * json)) (t : option nat) :
  simple_vals h
    (pick (set_name (with_type_id (simple_vals h cur fields) t)) cur) fields
  = simple_vals h cur fields.
Proof.
  destruct (truthy (py_get fields "name")) eqn:N.
  - assert (set_name (with_type_id (simple_vals h cur fields) t)
            = if (cur =? EmptyString) || endswith cur application_suffix
              then Some (py_str h (py_get fields "name") ++ application_suffix)
              else None) as ->.
    { unfold with_type_id, simple_vals. cbn [set_name]. now rewrite N. }
    destruct ((cur =? EmptyString) || endswith cur application_suffix) eqn:C;
      cbn [pick]; [|reflexivity].
    unfold simple_vals. rewrite N, C, endswith_app, orb_true_r. reflexivity.
  - now apply simple_vals_name_irrelevant.
Qed.

End RewriteFacts.

Section WriterRuns.
Variable h : host.
Import Text TextFacts StoreFacts WriterFacts ReconcilerFacts RewriteFacts.

(** X5.  Whatever the payload and whether the writer returns
    or raises, it leaves the settings, the taxonomy of skills and the links
    as they were, adds at most one degree, and changes no applicant but its
    own, whose state, status, company and document it leaves alone. *)
Theorem writer_leaves_state_and_skills (self : nat) (data : json) (d : db) :
  let d' := snd (_write_extracted_data h self data d) in
  same_setup d d'
  /\ same_taxonomy d d'
  /\ keeps_progress self d d'
  /\ exists more, degrees d' = (degrees d ++ more)%list
                  /\ List.length more <= 1.
Proof.
  intros d'. split.
  { subst d'. destruct (_write_extracted_data h self data d) as [r s] eqn:E.
    exact (writer_setup h self data _ _ _ E). }
  assert (Same : d' = d ->
                 same_taxonomy d d' /\ keeps_progress self d d'
                 /\ exists more, degrees d' = (degrees d ++ more)%list
                                 /\ List.length more <= 1).
  { intros ->. repeat split. apply keeps_progress_refl.
    exists []. split; [now rewrite List.app_nil_r | simpl; lia]. }
  destruct (_write_extracted_data h self data d) as [r s] eqn:E.
  subst d'. simpl in *.
  destruct data as [|b|z|nz lit|s0|items|fields];
    try (unfold _write_extracted_data in E;
         destruct (negb _); injection E as _ <-; now apply Same).
  destruct fields as [|f fs].
  { injection E as _ <-. now apply Same. }
  apply writer_run in E; [|discriminate].
  destruct E as [(_ & _ & _ & ->) | (t & d1 & D & E)]; [now apply Same|].
  apply degree_step in D.
  destruct D as (t' & _ & A & T & _ & more & Dg & Len).
  destruct E as [(_ & _ & ->) | (_ & W)].
  - repeat split; try apply T. now apply keeps_progress_same. eauto.
  - destruct r as [u|e].
    + apply write_applicant_ok in W. destruct W as (-> & _).
      repeat split; try apply T.
      * now apply keeps_progress_update.
      * exists more. auto.
    + apply write_applicant_raise in W. subst s.
      repeat split; try apply T. now apply keeps_progress_same. eauto.
Qed.

(** X6.  After a write that is carried out on a record that is
    there, each of the four text fields holds the value of the payload when
    the payload has one that is neither null nor empty, and what it held
    before otherwise; without a degree in the payload the degree of the
    record stays. *)
Theorem null_fields_overwrite_nothing (self : nat) (a : applicant)
  (fields : list (string * json)) (d d' : db) :
  find_applicant d self = Some a ->
  _write_extracted_data h self (JObj fields) d = (Ok tt, d') ->
  exists a', find_applicant d' self = Some a'
    /\ partner_name a'
       = (if truthy (py_get fields "name")
          then py_str h (py_get fields "name") else partner_name a)
    /\ email_from a'
       = (if truthy (py_get fields "email")
          then py_str h (py_get fields "email") else email_from a)
    /\ partner_phone a'
       = (if truthy (py_get fields "phone")
          then py_str h (py_get fields "phone") else partner_phone a)
    /\ linkedin_profile a'
       = (if truthy (py_get fields "linkedin")
          then py_str h (py_get fields "linkedin") else linkedin_profile a)
    /\ (truthy (py_get fields "degree") = false -> type_id a' = type_id a).
Proof.
  intros F E. destruct fields as [|f fs].
  { injection E as <-. exists a. simpl. auto 10. }
  apply writer_run in E; [|discriminate].
  destruct E as [(_ & N & _) | (t & d1 & D & E)]; [congruence|].
  rewrite F in E. apply degree_step in D.
  destruct D as (t' & [= <-] & A & _ & T & _).
  set (v := with_type_id (simple_vals h (name a) (f :: fs)) t) in *.
  assert (F' : find_applicant d' self = Some (apply_vals v a)).
  { destruct E as [(HV & _ & ->) | (_ & W)].
    - rewrite (find_applicant_same _ _ _ A), F.
      now rewrite apply_no_vals.
    - apply write_applicant_ok in W. destruct W as (-> & _).
      rewrite find_applicant_update, (find_applicant_same _ _ _ A), F.
      simpl. now rewrite (find_applicant_id _ _ _ F), Nat.eqb_refl. }
  exists (apply_vals v a). split; [exact F'|].
  unfold v, apply_vals, with_type_id, simple_vals.
  cbn [partner_name email_from partner_phone linkedin_profile type_id
       set_partner_name set_email_from set_partner_phone
       set_linkedin_profile set_type_id].
  repeat split.
  - now destruct (truthy (py_get (f :: fs) "name")).
  - now destruct (truthy (py_get (f :: fs) "email")).
  - now destruct (truthy (py_get (f :: fs) "phone")).
  - now destruct (truthy (py_get (f :: fs) "linkedin")).
  - intros Dg. now rewrite (T Dg).
Qed.

(** X7.  With a store that carries every call out, the
    writer run a second time on the same payload ends as the first run
    ended and changes nothing more. *)
Theorem writer_is_idempotent (self : nat) (data : json) (d : db) :
  (forall op x, rejects h op x = None) ->
  let out := _write_extracted_data h self data d in
  _write_extracted_data h self data (snd out) = out.
Proof.
  intros Acc out.
  destruct (_write_extracted_data h self data d) as [r d'] eqn:E.
  subst out. simpl.
  destruct data as [|b|z|nz lit|s0|items|fields];
    try (unfold _write_extracted_data in *;
         destruct (negb _); injection E as <- <-; reflexivity).
  destruct fields as [|f fs].
  { injection E as <- <-. reflexivity. }
  set (fields := f :: fs) in *.
  pose proof E as E0.
  apply writer_run in E; [|discriminate].
  destruct E as [(N & F & -> & ->) | (t & d1 & D & E)].
  { apply writer_missing; auto. discriminate. }
  pose proof (degree_step _ _ _ _ _ _ D) as (t' & _ & A & _).
  assert (Run : forall d2,
            applicants d2 = applicants d' -> degrees d2 = degrees d1 ->
            find_applicant d2 self <> None \/ truthy (py_get fields "name") = false ->
            simple_vals h
              match find_applicant d2 self with
              | Some a => name a
              | None => EmptyString
              end fields
            = simple_vals h
                match find_applicant d self with
                | Some a => name a
                | None => EmptyString
                end fields ->
            _write_extracted_data h self (JObj fields) d2
            = (if has_vals
                    (with_type_id
                       (simple_vals h
                          match find_applicant d self with
                          | Some a => name a
                          | None => EmptyString
                          end fields) t)
               then write_applicant h self
                      (with_type_id
                         (simple_vals h
                            match find_applicant d self with
                            | Some a => name a
                            | None => EmptyString
                            end fields) t) d2
               else (Ok tt, d2))).
  { intros d2 A2 D2 Ex C.
    destruct (_write_extracted_data h self (JObj fields) d2) as [r2 d3] eqn:E2.
    apply writer_run in E2; [|discriminate].
    destruct E2 as [(N & F & _) | (t2 & d4 & D4 & E2)].
    { destruct Ex; congruence. }
    rewrite (degree_step_again h _ _ d d1 d2 t Acc D D2) in D4.
    injection D4 as <- <-. rewrite C in E2.
    destruct E2 as [(HV & -> & ->) | (HV & W)]; rewrite HV; auto. }
  destruct (find_applicant d self) as [a|] eqn:F.
  - set (v := with_type_id (simple_vals h (name a) fields) t) in *.
    assert (F1 : find_applicant d1 self = Some a)
      by now rewrite (find_applicant_same _ _ _ A).
    destruct E as [(HV & -> & ->) | (HV & W)].
    + rewrite Run; auto.
      * now rewrite HV.
      * left. congruence.
      * now rewrite F1.
    + rewrite (write_applicant_accepted h self v d1 a F1 (Acc _ _)) in W.
      injection W as <- <-.
      assert (F2 : find_applicant (update_applicant self v d1) self
                   = Some (apply_vals v a)).
      { rewrite find_applicant_update, F1. simpl.
        now rewrite (find_applicant_id _ _ _ F), Nat.eqb_refl. }
      rewrite Run; auto.
      * rewrite HV.
        rewrite (write_applicant_accepted h self v _ _ F2 (Acc _ _)).
        now rewrite update_twice.
      * left. congruence.
      * rewrite F2. apply simple_vals_again.
  - assert (F1 : find_applicant d1 self = None)
      by now rewrite (find_applicant_same _ _ _ A).
    destruct (truthy (py_get fields "name")) eqn:N.
    + assert (X : _write_extracted_data h self (JObj fields) d
                  = (Raise missing_record, d)).
      { apply writer_missing; auto. discriminate. }
      rewrite X in E0. injection E0 as <- <-. exact X.
    + destruct E as [(HV & -> & ->) | (HV & W)].
      * rewrite Run; auto. now rewrite HV. now rewrite F1.
      * unfold write_applicant in W. rewrite F1 in W. injection W as <- <-.
        rewrite Run; auto.
        -- rewrite HV. unfold write_applicant. now rewrite F1.
        -- now rewrite F1.
Qed.

End WriterRuns.

(** ** The default level and the items of the list *)

Section DefaultLevel.
Variable h : host.
Import StoreFacts LevelFacts ReconcilerFacts.

(** X9.  The level that [_get_or_create_default_skill_level]
    returns is a row of the table, and a second call returns the same level
    and changes nothing, also when the first call has created it. *)
Theorem default_level_is_stable (d d' : db) (l : nat) :
  _get_or_create_default_skill_level h d = (Ok l, d') ->
  (exists r, In r (skill_levels d') /\ skill_level_id r = l)
  /\ _get_or_create_default_skill_level h d' = (Ok l, d').
Proof.
  unfold _get_or_create_default_skill_level.
  destruct (search_level_exact d "Beginner" 15) as [r|] eqn:E1.
  { intros [= <- <-]. rewrite E1. split; [|reflexivity].
    exists r. split; [|reflexivity]. now apply search_level_exact_some in E1. }
  destruct (search_level_named d "Beginner") as [r|] eqn:E2.
  { intros [= <- <-]. rewrite E1, E2. split; [|reflexivity].
    exists r. split; [|reflexivity]. now apply search_level_named_some in E2. }
  destruct (search_level_lowest d) as [r|] eqn:E3.
  { intros [= <- <-]. rewrite E1, E2, E3. split; [|reflexivity].
    exists r. split; [|reflexivity].
    pose proof (search_level_lowest_spec d) as S. rewrite E3 in S. apply S. }
  unfold create_skill_level, store_call.
  destruct (rejects h (CreateSkillLevel "Beginner" 15) d); [discriminate|].
  intros [= <- <-]. split.
  - exists {| skill_level_id := new_skill_level_id d;
               skill_level_name := "Beginner"; level_progress := 15 |}.
    split; [|reflexivity]. unfold add_skill_level. simpl.
    apply in_or_app. right. left. reflexivity.
  - unfold search_level_exact in *. unfold add_skill_level at 1. simpl.
    rewrite (find_app_none _ _ _ E1). reflexivity.
Qed.

End DefaultLevel.

Section SkippedItems.
Variable h : host.

Lemma process_skill_skipped (self : nat) (item : json) (c : caches) :
  has_skill item = false -> process_skill h self item c = ret c.
Proof.
  destruct item; try reflexivity. simpl. intros ->. reflexivity.
Qed.

Lemma process_skill_list_filter (self : nat) (items : list json) :
  forall c d,
    process_skill_list h self items c d
    = process_skill_list h self (filter has_skill items) c d.
Proof.
  induction items as [|item items IH]; intros c d; [reflexivity|].
  cbn [filter process_skill_list].
  destruct (has_skill item) eqn:K.
  - cbn [process_skill_list]. unfold bind.
    destruct (process_skill h self item c d) as [[c'|e] d1];
      [apply IH | reflexivity].
  - rewrite (process_skill_skipped self item c K). unfold bind, ret.
    apply IH.
Qed.

(** X12.  The items of the list that are not objects, or whose
    skill is missing, null or empty, count for nothing: the reconciler does
    on a list what it does on the list without them, and on a list of such
    items alone it returns and changes nothing. *)
Theorem items_without_skill_are_skipped (self : nat) (items : list json)
  (d : db) :
  _process_skills h self (JArr items) d
  = _process_skills h self (JArr (filter has_skill items)) d
  /\ (filter has_skill items = [] ->
      _process_skills h self (JArr items) d = (Ok tt, d)).
Proof.
  assert (E : _process_skills h self (JArr items) d
              = _process_skills h self (JArr (filter has_skill items)) d).
  { unfold _process_skills.
    destruct items as [|item items]; [reflexivity|].
    change (negb (truthy (JArr (item :: items)))) with false. cbv iota.
    unfold bind at 1. rewrite process_skill_list_filter.
    destruct (filter has_skill (item :: items)) as [|k ks]; [reflexivity|].
    reflexivity. }
  split; [exact E|]. intros F. rewrite E, F. reflexivity.
Qed.

End SkippedItems.

(** ** The reconciler, call by call *)

Module CallFacts.
Import StoreFacts ReconcilerFacts.

(** A rule for the reconciler: a relation on the tables that every call of
    the store keeps, at the place and under the test where the reconciler
    makes the call, is kept by the reconciler. *)
Section Rule.
Variable h : host.
Variable self : nat.
Variable R : db -> db -> Prop.
Hypothesis R_refl : forall d, R d d.
Hypothesis R_trans : forall a b c, R a b -> R b c -> R a c.
Hypothesis new_type :
  forall n d, search_skill_type d n = None ->
              preserves (fun x y => x = d -> R x y) (create_skill_type h n).
Hypothesis new_level :
  forall n p d, search_level_exact d n p = None ->
                preserves (fun x y => x = d -> R x y)
                  (create_skill_level h n p).
Hypothesis new_type_level :
  forall type level t d,
    find_skill_type d type = Some t ->
    has_id level (skill_level_ids t) = false ->
    preserves (fun x y => x = d -> R x y) (add_type_level h type level).
Hypothesis new_skill :
  forall n type d, search_skill d n = None ->
                   preserves (fun x y => x = d -> R x y)
                     (create_skill h n type).
Hypothesis retype :
  forall n s type d, search_skill d n = Some s ->
                     preserves (fun x y => x = d -> R x y)
                       (write_skill_type h (skill_id s) type).
Hypothesis new_link :
  forall skill level type d,
    search_link d self skill = None -> level_of_type d type level ->
    preserves (fun x y => x = d -> R x y)
      (create_applicant_skill h self skill level type).

Lemma resolve_type_rule (n : string) (c : caches) :
  preserves R (resolve_type h n c).
Proof.
  unfold resolve_type. destruct (cache_get _ _).
  - apply preserves_ret; auto.
  - apply preserves_bind; [eauto| |intros; apply preserves_ret; auto].
    intros d r d'. destruct (search_skill_type d n) eqn:S.
    + intros [= _ <-]; auto.
    + intros E. exact (new_type n d S _ _ _ E eq_refl).
Qed.

Lemma default_level_rule :
  preserves R (_get_or_create_default_skill_level h).
Proof.
  intros d r d'. unfold _get_or_create_default_skill_level.
  destruct (search_level_exact d _ _) eqn:S; [intros [= _ <-]; auto|].
  destruct (search_level_named d _); [intros [= _ <-]; auto|].
  destruct (search_level_lowest d); [intros [= _ <-]; auto|].
  destruct (create_skill_level h "Beginner" 15 d) as [[i|e] d1] eqn:C;
    intros [= _ <-]; exact (new_level _ _ d S _ _ _ C eq_refl).
Qed.

Lemma resolve_label_rule (label : string) (c : caches) :
  preserves R (resolve_label h label c).
Proof.
  unfold resolve_label. destruct (cache_get _ _).
  - apply preserves_ret; auto.
  - apply preserves_bind; [eauto| |].
    + intros d r d'. cbv zeta.
      destruct (parse_level label) as [[n p]|].
      * destruct (search_level_exact d n p) eqn:S; [intros [= _ <-]; auto|].
        destruct (search_level_named d label); [intros [= _ <-]; auto|].
        destruct (create_skill_level h n p d) as [[i|e] d1] eqn:C;
          intros [= _ <-]; exact (new_level _ _ d S _ _ _ C eq_refl).
      * destruct (search_level_named d label); intros [= _ <-]; auto.
    + intros [l|]; apply preserves_ret; auto.
Qed.

Lemma resolve_level_rule (v : json) (c : caches) :
  preserves R (resolve_level h v c).
Proof.
  unfold resolve_level. apply preserves_bind; [eauto| |].
  - destruct (truthy v); [|apply preserves_ret; auto].
    destruct v; try (apply preserves_raise; auto).
    apply resolve_label_rule.
  - intros [[l|] c']; simpl.
    + apply preserves_ret; auto.
    + unfold resolve_default. destruct (default_level c').
      * apply preserves_ret; auto.
      * apply preserves_bind; [eauto| |intros; apply preserves_ret; auto].
        apply default_level_rule.
Qed.

Lemma associate_level_rule (type level : nat) :
  preserves R (associate_level h type level).
Proof.
  intros d r d'. unfold associate_level.
  destruct (find_skill_type d type) as [t|] eqn:F; [|intros [= _ <-]; auto].
  destruct (has_id level (skill_level_ids t)) eqn:H;
    [intros [= _ <-]; auto|].
  intros E. exact (new_type_level _ _ t d F H _ _ _ E eq_refl).
Qed.

(** Once the third step has returned, the level is a level of the type. *)
Lemma associate_level_done (type level : nat) (d d' : db) (u : unit) :
  associate_level h type level d = (Ok u, d') -> level_of_type d' type level.
Proof.
  unfold associate_level, level_of_type.
  destruct (find_skill_type d type) as [t|] eqn:F; [|discriminate].
  destruct (has_id level (skill_level_ids t)) eqn:H.
  - intros [= _ <-]. eauto.
  - unfold add_type_level. rewrite F. unfold store_call.
    destruct (rejects h _ d); [discriminate|]. intros [= _ <-].
    assert (Ht : (skill_type_id t =? type)%nat = true).
    { unfold find_skill_type in F. now apply find_some in F. }
    unfold find_skill_type in F. unfold find_skill_type. simpl.
    rewrite find_map, F.
    + simpl. rewrite Ht.
      eexists. split; [reflexivity|]. simpl. rewrite H.
      unfold has_id. rewrite existsb_app. simpl.
      now rewrite Nat.eqb_refl, orb_true_r.
    + intros x. destruct (skill_type_id x =? type)%nat eqn:Q; simpl; auto.
Qed.

Lemma resolve_skill_types (n : string) (type : nat) (c : caches) (d d' : db)
  (r : result (nat * caches)) :
  resolve_skill h n type c d = (r, d') -> skill_types d' = skill_types d.
Proof.
  unfold resolve_skill. destruct (cache_get _ _); [now intros [= _ <-]|].
  intros E. apply bind_inv in E.
  assert (X : forall r0 d0,
            match search_skill d n with
            | Some r1 =>
                if (skill_type_of r1 =? type)%nat then (Ok (skill_id r1), d)
                else
                  match write_skill_type h (skill_id r1) type d with
                  | (Ok _, d'0) => (Ok (skill_id r1), d'0)
                  | (Raise e, d'0) => (Raise e, d'0)
                  end
            | None => create_skill h n type d
            end = (r0, d0) -> skill_types d0 = skill_types d).
  { intros r0 d0. destruct (search_skill d n) as [s|].
    - destruct (skill_type_of s =? type)%nat; [now intros [= _ <-]|].
      unfold write_skill_type, store_call.
      destruct (find_skill d (skill_id s)); [|now intros [= _ <-]].
      destruct (rejects h _ d); now intros [= _ <-].
    - unfold create_skill, store_call.
      destruct (rejects h _ d); now intros [= _ <-]. }
  destruct E as [(a & d1 & E1 & [= _ <-]) | (e & E1 & _)];
    exact (X _ _ E1).
Qed.

Lemma resolve_skill_rule (n : string) (type : nat) (c : caches) :
  preserves R (resolve_skill h n type c).
Proof.
  unfold resolve_skill. destruct (cache_get _ _).
  - apply preserves_ret; auto.
  - apply preserves_bind; [eauto| |intros; apply preserves_ret; auto].
    intros d r d'. destruct (search_skill d n) as [s|] eqn:S.
    + destruct (skill_type_of s =? type)%nat; [intros [= _ <-]; auto|].
      destruct (write_skill_type h (skill_id s) type d) as [[u|e] d1] eqn:W;
        intros [= _ <-]; exact (retype n s type d S _ _ _ W eq_refl).
    + intros E. exact (new_skill n type d S _ _ _ E eq_refl).
Qed.

Lemma link_skill_rule (skill level type : nat) (d d' : db)
  (r : result unit) :
  level_of_type d type level ->
  link_skill h self skill level type d = (r, d') -> R d d'.
Proof.
  intros T. unfold link_skill.
  destruct (search_link d self skill) eqn:S; [intros [= _ <-]; auto|].
  destruct (create_applicant_skill h self skill level type d)
    as [[i|e] d1] eqn:C;
    intros [= _ <-]; exact (new_link _ _ _ d S T _ _ _ C eq_refl).
Qed.

Lemma process_skill_rule (item : json) (c : caches) :
  preserves R (process_skill h self item c).
Proof.
  unfold process_skill.
  destruct item; try (apply preserves_ret; auto).
  destruct (negb _); [apply preserves_ret; auto|].
  destruct (or_general _); try (apply preserves_raise; auto).
  intros d r d' E.
  apply bind_inv in E. destruct E as [(tc & d1 & E1 & E) | (e & E1 & _)];
    [|exact (resolve_type_rule _ _ _ _ _ E1)].
  apply resolve_type_rule in E1.
  apply bind_inv in E. destruct E as [(lc & d2 & E2 & E) | (e & E2 & _)];
    [|apply resolve_level_rule in E2; eauto].
  apply resolve_level_rule in E2.
  apply bind_inv in E. destruct E as [(u & d3 & E3 & E) | (e & E3 & _)];
    [|apply associate_level_rule in E3; eauto].
  pose proof (associate_level_done _ _ _ _ _ E3) as T.
  apply associate_level_rule in E3.
  assert (R03 : R d d3) by eauto.
  destruct (py_get fields "skill");
    try (injection E as _ <-; exact R03).
  apply bind_inv in E. destruct E as [(sc & d4 & E4 & E) | (e & E4 & _)];
    [|apply resolve_skill_rule in E4; eauto].
  assert (T4 : level_of_type d4 (fst tc) (fst lc)).
  { unfold level_of_type, find_skill_type.
    rewrite (resolve_skill_types _ _ _ _ _ _ E4). exact T. }
  apply resolve_skill_rule in E4.
  apply bind_inv in E. destruct E as [(u' & d5 & E5 & E) | (e & E5 & _)].
  - injection E as _ <-. apply (link_skill_rule _ _ _ _ _ _ T4) in E5. eauto.
  - apply (link_skill_rule _ _ _ _ _ _ T4) in E5. eauto.
Qed.

Lemma process_skill_list_rule (items : list json) :
  forall c, preserves R (process_skill_list h self items c).
Proof.
  induction items as [|item items IH]; intros c; simpl.
  - apply preserves_ret; auto.
  - apply preserves_bind; [eauto | apply process_skill_rule | exact IH].
Qed.

Lemma process_skills_rule (v : json) :
  preserves R (_process_skills h self v).
Proof.
  unfold _process_skills.
  destruct v; try (apply preserves_ret; auto).
  destruct (negb _); [apply preserves_ret; auto|].
  apply preserves_bind; [eauto| |intros; apply preserves_ret; auto].
  apply process_skill_list_rule.
Qed.

End Rule.

Lemma NoDup_snoc {A : Type} (l : list A) (x : A) :
  NoDup l -> ~ In x l -> NoDup (l ++ [x]).
Proof.
  intros N I. apply NoDup_app; auto.
  - repeat constructor. intros [].
  - intros y Hy [<-|[]]. contradiction.
Qed.

Lemma find_none_map {A B : Type} (p : A -> bool) (f : A -> B) (y : B)
  (l : list A) :
  find p l = None -> (forall x, f x = y -> p x = true) -> ~ In y (map f l).
Proof.
  intros F P I. apply in_map_iff in I. destruct I as (x & E & I).
  pose proof (find_none _ _ F x I) as N. rewrite (P x E) in N. discriminate.
Qed.

End CallFacts.

(** ** What the reconciler keeps true of the taxonomy *)

Module TaxonomyFacts.
Import StoreFacts ReconcilerFacts CallFacts.

Lemma types_grow_refl (d : db) : types_grow d d.
Proof. intros type level T. exact T. Qed.

Lemma types_grow_same (d d' : db) :
  skill_types d' = skill_types d -> types_grow d d'.
Proof.
  intros E type level. unfold level_of_type, find_skill_type. now rewrite E.
Qed.

Lemma typed_step_refl (d : db) : typed_step d d.
Proof. split; [apply types_grow_refl | trivial]. Qed.

Lemma typed_step_trans (a b c : db) :
  typed_step a b -> typed_step b c -> typed_step a c.
Proof.
  intros [G1 L1] [G2 L2]. split; [|auto].
  intros type level T. auto.
Qed.

Lemma typed_step_links (d d' : db) :
  types_grow d d' -> applicant_skills d' = applicant_skills d ->
  typed_step d d'.
Proof.
  intros G E. split; [exact G|]. unfold links_typed. rewrite E.
  apply Forall_impl. intros l. apply G.
Qed.

Section Typed.
Variable h : host.

Lemma new_type_typed (n : string) (d : db) :
  preserves (fun x y => x = d -> typed_step x y) (create_skill_type h n).
Proof.
  intros s r s' E ->. unfold create_skill_type, store_call in E.
  destruct (rejects h _ d); injection E as _ <-; [apply typed_step_refl|].
  apply typed_step_links; [|reflexivity].
  intros type level (t & F & H). exists t. split; [|exact H].
  unfold find_skill_type in *. simpl. now apply find_app_some.
Qed.

Lemma new_level_typed (n : string) (p : Z) (d : db) :
  preserves (fun x y => x = d -> typed_step x y) (create_skill_level h n p).
Proof.
  intros s r s' E ->. unfold create_skill_level, store_call in E.
  destruct (rejects h _ d); injection E as _ <-; [apply typed_step_refl|].
  apply typed_step_links; [|reflexivity]. now apply types_grow_same.
Qed.

Lemma new_type_level_typed (type level : nat) (d : db) :
  preserves (fun x y => x = d -> typed_step x y)
    (add_type_level h type level).
Proof.
  intros s r s' E ->. unfold add_type_level, store_call in E.
  destruct (find_skill_type d type);
    [|injection E as _ <-; apply typed_step_refl].
  destruct (rejects h _ d); injection E as _ <-; [apply typed_step_refl|].
  apply typed_step_links; [|reflexivity].
  intros ty lv (t & F & H). unfold level_of_type, find_skill_type in *.
  simpl. rewrite find_map, F.
  - simpl. eexists. split; [reflexivity|].
    destruct (skill_type_id t =? type)%nat; [|exact H]. simpl.
    destruct (has_id level (skill_level_ids t)); [exact H|].
    unfold has_id in *. rewrite existsb_app, H. reflexivity.
  - intros x. destruct (skill_type_id x =? type)%nat eqn:Q; simpl; auto.
Qed.

Lemma new_skill_typed (n : string) (type : nat) (d : db) :
  preserves (fun x y => x = d -> typed_step x y) (create_skill h n type).
Proof.
  intros s r s' E ->. unfold create_skill, store_call in E.
  destruct (rejects h _ d); injection E as _ <-; [apply typed_step_refl|].
  apply typed_step_links; [|reflexivity]. now apply types_grow_same.
Qed.

Lemma retype_typed (id type : nat) (d : db) :
  preserves (fun x y => x = d -> typed_step x y)
    (write_skill_type h id type).
Proof.
  intros s r s' E ->. unfold write_skill_type, store_call in E.
  destruct (find_skill d id); [|injection E as _ <-; apply typed_step_refl].
  destruct (rejects h _ d); injection E as _ <-; [apply typed_step_refl|].
  apply typed_step_links; [|reflexivity]. now apply types_grow_same.
Qed.

Lemma new_link_typed (self skill level type : nat) (d : db) :
  level_of_type d type level ->
  preserves (fun x y => x = d -> typed_step x y)
    (create_applicant_skill h self skill level type).
Proof.
  intros T s r s' E ->. unfold create_applicant_skill, store_call in E.
  destruct (rejects h _ d); injection E as _ <-; [apply typed_step_refl|].
  split; [now apply types_grow_same|].
  unfold links_typed. simpl. intros L. apply Forall_app. split.
  - exact L.
  - constructor; [exact T | constructor].
Qed.

Lemma process_skills_typed (self : nat) (v : json) :
  preserves typed_step (_process_skills h self v).
Proof.
  apply process_skills_rule.
  - apply typed_step_refl.
  - apply typed_step_trans.
  - intros. apply new_type_typed.
  - intros. apply new_level_typed.
  - intros. apply new_type_level_typed.
  - intros. apply new_skill_typed.
  - intros. apply retype_typed.
  - intros. now apply new_link_typed.
Qed.

End Typed.

Lemma lower_ilike (a b : string) :
  Text.lower a = Text.lower b -> ilike a b = true.
Proof. unfold ilike. intros ->. apply String.eqb_refl. Qed.

Section Unique.
Variable h : host.

Lemma new_type_unique (n : string) (d : db) :
  search_skill_type d n = None ->
  preserves (fun x y => x = d -> unique_step x y) (create_skill_type h n).
Proof.
  intros S s r s' E ->. unfold create_skill_type, store_call in E.
  destruct (rejects h _ d); injection E as _ <-; [now intros U|].
  intros (U1 & U2 & U3). repeat split; auto. simpl. rewrite map_app.
  apply NoDup_snoc; [exact U1|]. simpl.
  apply (find_none_map _ _ _ _ S). intros x. apply lower_ilike.
Qed.

Lemma new_level_unique (n : string) (p : Z) (d : db) :
  search_level_exact d n p = None ->
  preserves (fun x y => x = d -> unique_step x y) (create_skill_level h n p).
Proof.
  intros S s r s' E ->. unfold create_skill_level, store_call in E.
  destruct (rejects h _ d); injection E as _ <-; [now intros U|].
  intros (U1 & U2 & U3). repeat split; auto. simpl. rewrite map_app.
  apply NoDup_snoc; [exact U3|]. simpl.
  apply (find_none_map _ _ _ _ S). intros x [= E1 E2].
  rewrite (lower_ilike _ _ E1), E2. apply Z.eqb_refl.
Qed.

Lemma new_type_level_unique (type level : nat) (d : db) :
  preserves (fun x y => x = d -> unique_step x y)
    (add_type_level h type level).
Proof.
  intros s r s' E ->. unfold add_type_level, store_call in E.
  destruct (find_skill_type d type); [|injection E as _ <-; now intros U].
  destruct (rejects h _ d); injection E as _ <-; [now intros U|].
  intros (U1 & U2 & U3). repeat split; auto. simpl. rewrite map_map.
  erewrite map_ext; [exact U1|]. intros x.
  now destruct (skill_type_id x =? type)%nat.
Qed.

Lemma new_skill_unique (n : string) (type : nat) (d : db) :
  search_skill d n = None ->
  preserves (fun x y => x = d -> unique_step x y) (create_skill h n type).
Proof.
  intros S s r s' E ->. unfold create_skill, store_call in E.
  destruct (rejects h _ d); injection E as _ <-; [now intros U|].
  intros (U1 & U2 & U3). repeat split; auto. simpl. rewrite map_app.
  apply NoDup_snoc; [exact U2|]. simpl.
  apply (find_none_map _ _ _ _ S). intros x. apply lower_ilike.
Qed.

Lemma retype_unique (id type : nat) (d : db) :
  preserves (fun x y => x = d -> unique_step x y)
    (write_skill_type h id type).
Proof.
  intros s r s' E ->. unfold write_skill_type, store_call in E.
  destruct (find_skill d id); [|injection E as _ <-; now intros U].
  destruct (rejects h _ d); injection E as _ <-; [now intros U|].
  intros (U1 & U2 & U3). repeat split; auto. simpl. rewrite map_map.
  erewrite map_ext; [exact U2|]. intros x.
  now destruct (skill_id x =? id)%nat.
Qed.

Lemma new_link_unique (self skill level type : nat) (d : db) :
  preserves (fun x y => x = d -> unique_step x y)
    (create_applicant_skill h self skill level type).
Proof.
  intros s r s' E ->. unfold create_applicant_skill, store_call in E.
  destruct (rejects h _ d); injection E as _ <-; now intros U.
Qed.

Lemma process_skills_unique (self : nat) (v : json) :
  preserves unique_step (_process_skills h self v).
Proof.
  apply process_skills_rule.
  - now intros d U.
  - intros a b c U1 U2 U. auto.
  - apply new_type_unique.
  - apply new_level_unique.
  - intros. apply new_type_level_unique.
  - apply new_skill_unique.
  - intros. apply retype_unique.
  - intros. apply new_link_unique.
Qed.

End Unique.

End TaxonomyFacts.

Section TaxonomyKept.
Variable h : host.
Import StoreFacts ReconcilerFacts CallFacts TaxonomyFacts.

(** X16.  When every link names a level that is among the levels
    of the type it names, the same holds after the reconciler has run,
    whether it returns or raises: no link is created before its level has
    been added to the levels of its type. *)
Theorem links_keep_levels_of_their_type (self : nat) (v : json) (d : db) :
  links_typed d -> links_typed (snd (_process_skills h self v d)).
Proof.
  intros L. destruct (_process_skills h self v d) as [r d'] eqn:E.
  apply process_skills_typed in E. now apply E.
Qed.

(** X15.  When no two skill types and no two skills share a
    name up to the case of letters, and no two levels share such a name and
    a progress, the same holds after the reconciler has run: it creates a
    row only after a search for it has found none. *)
Theorem reconciler_adds_no_duplicate (self : nat) (v : json) (d : db) :
  taxonomy_unique d -> taxonomy_unique (snd (_process_skills h self v d)).
Proof.
  destruct (_process_skills h self v d) as [r d'] eqn:E.
  exact (process_skills_unique h self v _ _ _ E).
Qed.

(** X17.  A skill that the store holds under another type than the
    type of the item, and that the run has not met before, is moved to the
    type of the item; it keeps its id and its name. *)
Theorem found_skill_moves_to_item_type (n : string) (type : nat)
  (c c' : caches) (d d' : db) (s : nat) (r : skill) :
  cache_get (skill_cache c) (Text.lower n) = None ->
  search_skill d n = Some r ->
  resolve_skill h n type c d = (Ok (s, c'), d') ->
  s = skill_id r
  /\ search_skill d' n
     = Some {| skill_id := skill_id r; skill_name := skill_name r;
               skill_type_of := type |}.
Proof.
  intros C S. unfold resolve_skill. rewrite C. intros E.
  apply bind_inv in E. destruct E as [(a & d1 & E & [= <- _ <-]) | (e & _ & [=])].
  rewrite S in E.
  destruct (skill_type_of r =? type)%nat eqn:T.
  - injection E as <- <-. split; [reflexivity|]. rewrite S.
    apply Nat.eqb_eq in T. subst type. now destruct r.
  - unfold write_skill_type, store_call in E.
    destruct (find_skill d (skill_id r)); [|discriminate].
    destruct (rejects h _ d); [discriminate|]. injection E as <- <-.
    split; [reflexivity|]. unfold search_skill in *. simpl.
    rewrite find_map, S.
    + simpl. now rewrite Nat.eqb_refl.
    + intros x. now destruct (skill_id x =? skill_id r)%nat.
Qed.

End TaxonomyKept.

Section DegreesKept.
Variable h : host.
Import StoreFacts ReconcilerFacts CallFacts TaxonomyFacts RewriteFacts.

(** X8.  When no two degrees share a name up to the case of
    letters, the same holds after the writer has run. *)
Theorem writer_adds_no_duplicate_degree (self : nat) (data : json) (d : db) :
  degrees_unique d ->
  degrees_unique (snd (_write_extracted_data h self data d)).
Proof.
  intros U.
  destruct (_write_extracted_data h self data d) as [r d'] eqn:E. simpl.
  destruct data as [|b|z|nz lit|s0|items|fields];
    try (unfold _write_extracted_data in E;
         destruct (negb _); injection E as _ <-; exact U).
  destruct fields as [|f fs].
  { injection E as _ <-. exact U. }
  apply writer_run in E; [|discriminate].
  destruct E as [(_ & _ & _ & ->) | (t & d1 & D & E)]; [exact U|].
  assert (U1 : degrees_unique d1).
  { destruct (truthy (py_get (f :: fs) "degree"));
      [|now injection D as _ <-].
    unfold resolve_degree, create_degree, store_call in D.
    destruct (search_degree d _) eqn:S; [now injection D as _ <-|].
    destruct (rejects h _ d); injection D as _ <-; [exact U|].
    unfold degrees_unique. simpl. rewrite map_app.
    apply NoDup_snoc; [exact U|]. simpl.
    apply (find_none_map _ _ _ _ S). intros x. apply lower_ilike. }
  destruct E as [(_ & _ & ->) | (_ & W)]; [exact U1|].
  destruct r as [u|e].
  - apply write_applicant_ok in W. destruct W as (-> & _). exact U1.
  - apply write_applicant_raise in W. now subst d'.
Qed.

End DegreesKept.

(** ** The job, record after record *)

Module RunFacts.
Import StoreFacts ReconcilerFacts JobFacts LifeFacts RewriteFacts.

Lemma world_eta (w : world) :
  {| committed := committed w; working := working w; journal := journal w |}
  = w.
Proof. now destruct w. Qed.

Lemma find_update_other (self id : nat) (v : applicant_vals) (d : db) :
  id <> self ->
  find_applicant (update_applicant self v d) id = find_applicant d id.
Proof.
  intros N. rewrite find_applicant_update.
  destruct (find_applicant d id) as [a|] eqn:F; [|reflexivity]. simpl.
  rewrite (find_applicant_id _ _ _ F).
  now destruct (Nat.eqb_spec id self).
Qed.

Lemma find_update_self (self : nat) (v : applicant_vals) (d : db)
  (a : applicant) :
  find_applicant d self = Some a ->
  find_applicant (update_applicant self v d) self = Some (apply_vals v a).
Proof.
  intros F. rewrite find_applicant_update, F. simpl.
  now rewrite (find_applicant_id _ _ _ F), Nat.eqb_refl.
Qed.

Section Run.
Variable h : host.

(** The first block stops at the first check that fails, before any
    write. *)
Lemma core_step_checks (batch : list nat) (self : nat) (w : world) (e : exn) :
  validate (working w) self = Raise e ->
  core_step h batch self w = (Raise e, w).
Proof.
  intros V. unfold core_step, savepoint_block, call_model.
  unfold bind at 1. unfold bind at 1. rewrite V.
  now rewrite world_eta.
Qed.

Lemma record_error_others (self id : nat) (e : exn) (w : world) :
  id <> self ->
  find_applicant (committed (record_error h self e w)) id
  = find_applicant (committed w) id.
Proof.
  intros N. unfold record_error. simpl.
  destruct (write_applicant h self _ (committed w)) as [[u|e'] d] eqn:W;
    [|reflexivity].
  apply write_applicant_ok in W. destruct W as (-> & _). simpl.
  now apply find_update_other.
Qed.

Lemma write_state_ok (self : nat) (st : extract_state) (status : string)
  (w w' : world) (u : unit) :
  write_state h self st status w = (Ok u, w') ->
  working w' = update_applicant self (state_vals st status) (working w)
  /\ committed w' = committed w.
Proof.
  unfold write_state.
  destruct (write_applicant h self _ (working w)) as [[u'|e] d] eqn:W;
    [|discriminate].
  apply write_applicant_ok in W. destruct W as (-> & _).
  intros [= _ <-]. split; reflexivity.
Qed.

Lemma write_state_raise (self : nat) (st : extract_state) (status : string)
  (w w' : world) (e : exn) :
  write_state h self st status w = (Raise e, w') ->
  committed w' = committed w.
Proof.
  unfold write_state.
  destruct (write_applicant h self _ (working w)) as [[u'|e'] d];
    [discriminate|]. now intros [= _ <-].
Qed.

(** The message of the last write of the job. *)
Lemma after_skills_message (self : nat) (w1 : world) (v : json)
  (msg : string) (w2 : world) :
  (if truthy v then
     match skills_step h self v w1 with
     | (Ok _, w2) => (success_message, w2)
     | (Raise e_skill, w2) => (partial_message e_skill, w2)
     end
   else (success_message, w1)) = (msg, w2) ->
  msg = success_message \/ exists e, msg = partial_message e.
Proof.
  destruct (truthy v); [|intros [= <- _]; auto].
  destruct (skills_step h self v w1) as [[u|e] w3]; intros [= <- _]; eauto.
Qed.

(** The job on one record leaves the other records as they were
    committed. *)
Lemma extract_one_others (batch : list nat) (self id : nat) (w : world) :
  working w = committed w -> id <> self ->
  find_applicant (committed (extract_one h batch self w)) id
  = find_applicant (committed w) id.
Proof.
  intros WC N. unfold extract_one.
  destruct (core_step h batch self w) as [[v|e] w1] eqn:C.
  - destruct (core_step_step h _ _ _ _ _ C) as (C1 & _ & K1).
    destruct (if truthy v then _ else _) as [msg w2] eqn:S.
    destruct (after_skills h _ _ _ _ _ S) as (C2 & _ & K2).
    pose proof (keeps_applicants_trans _ _ _ _ K1 K2 id) as K.
    rewrite WC in K. unfold keeps_committed in *.
    destruct (write_state h self done msg w2) as [[u|e] w3] eqn:W.
    + apply write_state_ok in W. destruct W as (W & _). simpl.
      rewrite W, find_update_other by exact N.
      destruct (find_applicant (committed w) id) as [a|]; [|exact K].
      destruct K as (a' & F & E). now rewrite F, (E N).
    + apply write_state_raise in W.
      rewrite record_error_others by exact N. congruence.
  - destruct (core_step_step h _ _ _ _ _ C) as (C1 & _ & _).
    rewrite record_error_others by exact N.
    unfold keeps_committed in C1. now rewrite C1.
Qed.

Lemma record_error_finishes (self : nat) (e : exn) (w : world)
  (a : applicant) :
  (forall msg d,
     rejects h (WriteApplicant self (state_vals error msg)) d = None) ->
  find_applicant (committed w) self = Some a ->
  exists a',
    find_applicant (committed (record_error h self e w)) self = Some a'
    /\ finished a'.
Proof.
  intros Acc F.
  destruct (record_error_accepted h self e w a F (Acc _ _)) as [-> _].
  rewrite (find_update_self _ _ _ _ F). eexists. split; [reflexivity|].
  right. split; [reflexivity|]. exists e. reflexivity.
Qed.

(** The job on one record leaves it Done or in Error, when the store
    carries the writes of the state Error out. *)
Lemma extract_one_finishes (batch : list nat)
  (self : nat) (w : world) (a : applicant) :
  working w = committed w ->
  (forall msg d,
     rejects h (WriteApplicant self (state_vals error msg)) d = None) ->
  find_applicant (committed w) self = Some a ->
  exists a',
    find_applicant (committed (extract_one h batch self w)) self = Some a'
    /\ finished a'.
Proof.
  intros WC Acc F. unfold extract_one.
  destruct (core_step h batch self w) as [[v|e] w1] eqn:C.
  - destruct (core_step_step h _ _ _ _ _ C) as (C1 & _ & K1).
    destruct (if truthy v then _ else _) as [msg w2] eqn:S.
    destruct (after_skills h _ _ _ _ _ S) as (C2 & _ & K2).
    pose proof (after_skills_message _ _ _ _ _ S) as Msg.
    pose proof (keeps_applicants_trans _ _ _ _ K1 K2 self) as K.
    rewrite WC, F in K. destruct K as (a2 & F2 & _).
    unfold keeps_committed in *.
    destruct (write_state h self done msg w2) as [[u|e] w3] eqn:W.
    + apply write_state_ok in W. destruct W as (W & _). simpl.
      rewrite W, (find_update_self _ _ _ _ F2).
      eexists. split; [reflexivity|]. left. split; [reflexivity|].
      exact Msg.
    + apply write_state_raise in W.
      apply (record_error_finishes self e w3 a Acc). congruence.
  - destruct (core_step_step h _ _ _ _ _ C) as (C1 & _ & _).
    apply (record_error_finishes self e w1 a Acc).
    unfold keeps_committed in C1. congruence.
Qed.

(** The loop of the job over the records [ids] of a record set [batch]. *)
Lemma loop_finishes (batch ids : list nat) :
  (forall self msg d,
     rejects h (WriteApplicant self (state_vals error msg)) d = None) ->
  forall (w : world) (id : nat) (a : applicant),
    working w = committed w ->
    find_applicant (committed w) id = Some a ->
    finished a \/ In id ids ->
    exists a',
      find_applicant
        (committed
           (fold_left (fun w self => extract_one h batch self w) ids w)) id
      = Some a'
      /\ finished a'.
Proof.
  intros Acc.
  induction ids as [|x ids IH]; intros w id a WC F P; simpl.
  - destruct P as [P|[]]. eauto.
  - destruct (extract_one_settles h batch x w WC) as [_ W1].
    destruct (Nat.eq_dec id x) as [->|N].
    + destruct (extract_one_finishes batch x w a WC (Acc x) F)
        as (a1 & F1 & P1).
      apply (IH _ _ a1); auto.
    + apply (IH _ _ a); auto.
      * now rewrite extract_one_others.
      * destruct P as [P|[E|I]]; auto. now contradiction N.
Qed.

Lemma run_finishes (ids : list nat) :
  (forall self msg d,
     rejects h (WriteApplicant self (state_vals error msg)) d = None) ->
  forall (w : world) (id : nat) (a : applicant),
    working w = committed w ->
    find_applicant (committed w) id = Some a ->
    finished a \/ In id ids ->
    exists a',
      find_applicant (committed (_run_gemini_extraction h ids w)) id
      = Some a'
      /\ finished a'.
Proof. intros Acc. exact (loop_finishes ids ids Acc). Qed.

Lemma loop_others (batch ids : list nat) (id : nat) :
  ~ In id ids ->
  forall w, working w = committed w ->
    find_applicant
      (committed
         (fold_left (fun w self => extract_one h batch self w) ids w)) id
    = find_applicant (committed w) id.
Proof.
  induction ids as [|x ids IH]; intros N w WC; simpl; [reflexivity|].
  destruct (extract_one_settles h batch x w WC) as [_ W1].
  rewrite IH; [|simpl in N; tauto | exact W1].
  apply extract_one_others; [exact WC|]. simpl in N. intros ->. tauto.
Qed.

Lemma run_others (ids : list nat) (id : nat) :
  ~ In id ids ->
  forall w, working w = committed w ->
    find_applicant (committed (_run_gemini_extraction h ids w)) id
    = find_applicant (committed w) id.
Proof. exact (loop_others ids ids id). Qed.

(** *** The job without the skills module *)

Lemma keeps_skills_refl (w : world) : keeps_skills w w.
Proof.
  split; [reflexivity|].
  split; [apply same_setup_refl | apply same_taxonomy_refl].
Qed.

Lemma keeps_skills_trans (a b c : world) :
  keeps_skills a b -> keeps_skills b c -> keeps_skills a c.
Proof.
  intros (A1 & A2 & A3) (B1 & B2 & B3). split; [congruence|].
  split; [exact (same_setup_trans _ _ _ A2 B2)
         | exact (same_taxonomy_trans _ _ _ A3 B3)].
Qed.

Lemma on_working_skills {A : Type} (m : M db A) :
  preserves same_setup m -> preserves same_taxonomy m ->
  preserves keeps_skills (on_working m).
Proof.
  intros P1 P2 w r w'. unfold on_working.
  destruct (m (working w)) as [r0 d] eqn:E. intros [= _ <-].
  split; [reflexivity|]. split; [exact (P1 _ _ _ E) | exact (P2 _ _ _ E)].
Qed.

Lemma write_state_skills (self : nat) (st : extract_state) (status : string) :
  preserves keeps_skills (write_state h self st status).
Proof.
  intros w r w'. unfold write_state.
  destruct (write_applicant h self _ (working w)) as [[u|e] d] eqn:W;
    intros [= _ <-]; (split; [reflexivity|]);
    (split; [exact (write_applicant_setup _ _ _ _ _ _ W)
            | exact (write_applicant_taxonomy _ _ _ _ _ _ W)]).
Qed.

Lemma savepoint_block_skills {A : Type} (m : M world A) :
  preserves keeps_skills m -> preserves keeps_skills (savepoint_block m).
Proof.
  intros P w r w'. unfold savepoint_block.
  destruct (m w) as [[a|e] w1] eqn:E; intros [= _ <-].
  - exact (P _ _ _ E).
  - destruct (P _ _ _ E) as (C & _). split; [exact C|].
    split; [apply same_setup_refl | apply same_taxonomy_refl].
Qed.

Lemma call_model_skills (self : nat) :
  preserves keeps_skills (call_model h self).
Proof.
  pose proof keeps_skills_refl as Rf. pose proof keeps_skills_trans as Tr.
  unfold call_model. apply preserves_bind; [eauto| |].
  { intros w r w' [= _ <-]. auto. }
  intros [[api_key model_name] att].
  apply preserves_bind; [eauto | apply write_state_skills|].
  intros _. apply preserves_bind; [eauto | apply preserves_lift; auto|].
  intros text. apply preserves_bind; [eauto| |].
  { apply on_working_skills;
      [apply write_applicant_setup | apply write_applicant_taxonomy]. }
  intros _. apply preserves_ret; auto.
Qed.

(** Without the skills module the first block hands no skill over. *)
Lemma core_step_no_skills (batch : list nat)
  (self : nat) (w w1 : world) (v : json) :
  hr_recruitment_skills_state (working w) <> "installed" ->
  core_step h batch self w = (Ok v, w1) ->
  v = JArr [] /\ keeps_skills w w1.
Proof.
  pose proof keeps_skills_trans as Tr.
  intros NI. unfold core_step, savepoint_block.
  destruct ((response_text <- call_model h self;;
             apply_response h batch self response_text) w)
    as [[a|e] w2] eqn:B; [|discriminate].
  intros [= <- <-].
  apply bind_inv in B. destruct B as [(text & wa & C & B) | (e & _ & [=])].
  apply call_model_skills in C.
  unfold apply_response in B.
  apply bind_inv in B. destruct B as [(data & wb & P & B) | (e & _ & [=])].
  injection P as _ <-.
  apply bind_inv in B. destruct B as [(u & wc & W & B) | (e & _ & [=])].
  apply (on_working_skills _ (writer_setup h self data)
           (writer_taxonomy h self data)) in W.
  assert (K : keeps_skills w wc) by eauto.
  destruct data; try discriminate B.
  assert (S : (hr_recruitment_skills_state (working wc) =? "installed")
              = false).
  { apply String.eqb_neq. destruct K as (_ & (_ & M) & _). congruence. }
  rewrite S, andb_false_r in B. injection B as <- <-. auto.
Qed.

Lemma record_error_skills (self : nat) (e : exn) (w : world) :
  same_setup (committed w) (committed (record_error h self e w))
  /\ same_taxonomy (committed w) (committed (record_error h self e w)).
Proof.
  unfold record_error. simpl.
  destruct (write_applicant h self _ (committed w)) as [[u|e'] d] eqn:W.
  - split; [exact (write_applicant_setup _ _ _ _ _ _ W)
           | exact (write_applicant_taxonomy _ _ _ _ _ _ W)].
  - split; [apply same_setup_refl | apply same_taxonomy_refl].
Qed.

Lemma extract_one_no_skills (batch : list nat) (self : nat) (w : world) :
  working w = committed w ->
  hr_recruitment_skills_state (committed w) <> "installed" ->
  same_setup (committed w) (committed (extract_one h batch self w))
  /\ same_taxonomy (committed w) (committed (extract_one h batch self w)).
Proof.
  intros WC NI. unfold extract_one.
  destruct (core_step h batch self w) as [[v|e] w1] eqn:C.
  - rewrite <- WC in NI.
    destruct (core_step_no_skills _ _ _ _ _ NI C) as (-> & C1 & S1 & T1).
    simpl. rewrite WC in S1, T1.
    destruct (write_state h self done success_message w1)
      as [[u|e] w3] eqn:W.
    + destruct (write_state_skills _ _ _ _ _ _ W) as (_ & S3 & T3). simpl.
      split; [exact (same_setup_trans _ _ _ S1 S3)
             | exact (same_taxonomy_trans _ _ _ T1 T3)].
    + apply write_state_raise in W.
      destruct (record_error_skills self e w3) as [S T].
      rewrite W, C1 in S, T. auto.
  - destruct (core_step_step h _ _ _ _ _ C) as (C1 & _ & _).
    destruct (record_error_skills self e w1) as [S T].
    unfold keeps_committed in C1. rewrite C1 in S, T. auto.
Qed.

Lemma loop_no_skills (batch ids : list nat) :
  forall w, working w = committed w ->
    hr_recruitment_skills_state (committed w) <> "installed" ->
    same_setup (committed w)
      (committed (fold_left (fun w self => extract_one h batch self w) ids w))
    /\ same_taxonomy (committed w)
         (committed
            (fold_left (fun w self => extract_one h batch self w) ids w)).
Proof.
  induction ids as [|x ids IH]; intros w WC NI; simpl.
  - split; [apply same_setup_refl | apply same_taxonomy_refl].
  - destruct (extract_one_settles h batch x w WC) as [_ W1].
    destruct (extract_one_no_skills batch x w WC NI) as [S1 T1].
    destruct (IH _ W1) as [S2 T2].
    { destruct S1 as [_ M]. congruence. }
    split; [exact (same_setup_trans _ _ _ S1 S2)
           | exact (same_taxonomy_trans _ _ _ T1 T2)].
Qed.

Lemma run_no_skills (ids : list nat) :
  forall w, working w = committed w ->
    hr_recruitment_skills_state (committed w) <> "installed" ->
    same_setup (committed w) (committed (_run_gemini_extraction h ids w))
    /\ same_taxonomy (committed w)
         (committed (_run_gemini_extraction h ids w)).
Proof. exact (loop_no_skills ids ids). Qed.

Lemma thread_committed (ids : list nat) (w : world) :
  committed (_run_gemini_extraction_in_thread h ids w)
  = committed (_run_gemini_extraction h ids (rollback w)).
Proof.
  unfold _run_gemini_extraction_in_thread.
  change (committed (commit ?x)) with (working x).
  now destruct (run_settles h ids (rollback w) eq_refl) as [_ ->].
Qed.

End Run.

End RunFacts.

Section JobRuns.
Variable h : host.
Import StoreFacts ReconcilerFacts JobFacts LifeFacts RewriteFacts RunFacts.

(** X18.  The check of the model name cannot fail: an unset
    model is replaced by the default before the check, so no record is
    ever refused for a model that is not set, and the model name handed to
    the provider is never empty. *)
Theorem model_check_never_fires (d : db) (self : nat) :
  match validate d self with
  | Raise e => e <> UserError "Gemini Model is not set in HR Settings."
  | Ok (api_key, model_name, att) =>
      model_name <> EmptyString
      /\ (forall a, find_applicant d self = Some a ->
            model_name = gemini_model (company_of d a)
            \/ (gemini_model (company_of d a) = EmptyString
                /\ model_name = default_model))
  end.
Proof.
  unfold validate.
  destruct (find_applicant d self) as [a|]; [|discriminate].
  destruct (gemini_api_key (company_of d a) =? EmptyString);
    [discriminate|].
  destruct (gemini_model (company_of d a) =? EmptyString) eqn:G.
  - change (default_model =? EmptyString) with false. cbv iota.
    destruct (message_main_attachment_id a) as [att|]; [|discriminate].
    destruct (datas att =? EmptyString); [discriminate|].
    split; [discriminate|]. intros a' [= <-]. right.
    split; [now apply String.eqb_eq | reflexivity].
  - rewrite G.
    destruct (message_main_attachment_id a) as [att|]; [|discriminate].
    destruct (datas att =? EmptyString); [discriminate|].
    split; [now apply String.eqb_neq|]. intros a' [= <-]. now left.
Qed.

(** X19.  When a check of the configuration or of the document
    fails, the first block fails with the error of that check before it
    has written anything, and the job hands the error to its handler. *)
Theorem failed_check_goes_to_handler (batch : list nat)
  (self : nat) (w : world) (e : exn) :
  validate (working w) self = Raise e ->
  core_step h batch self w = (Raise e, w)
  /\ extract_one h batch self w = record_error h self e w.
Proof.
  intros V. pose proof (core_step_checks h batch self w e V) as C.
  split; [exact C|]. unfold extract_one. now rewrite C.
Qed.

(** X22.  When the store carries the writes of the state Error out,
    every record handed to the thread that is in the tables is committed,
    at the end, Done with the message of a full or partial success, or in
    Error with the message of an error: none is left Pending or
    Processing. *)
Theorem every_record_ends_done_or_error (ids : list nat) (w : world)
  (id : nat) (a : applicant) :
  (forall self msg d,
     rejects h (WriteApplicant self (state_vals error msg)) d = None) ->
  In id ids ->
  find_applicant (committed w) id = Some a ->
  exists a',
    find_applicant (committed (_run_gemini_extraction_in_thread h ids w)) id
    = Some a'
    /\ finished a'.
Proof.
  intros Acc I F. rewrite thread_committed.
  apply (run_finishes h ids Acc (rollback w) id a); auto.
Qed.

(** X23.  The thread leaves every record that is not among those
    handed to it as it was committed. *)
Theorem job_touches_only_its_records (ids : list nat) (w : world)
  (id : nat) :
  ~ In id ids ->
  find_applicant (committed (_run_gemini_extraction_in_thread h ids w)) id
  = find_applicant (committed w) id.
Proof.
  intros N. rewrite thread_committed.
  now rewrite (run_others h ids id N (rollback w) eq_refl).
Qed.

(** X24.  When the module of skills is not installed, the thread
    leaves the skill types, the levels, the skills and the links as they
    were committed, whatever the model answers. *)
Theorem without_skills_module_taxonomy_stays (ids : list nat) (w : world) :
  hr_recruitment_skills_state (committed w) <> "installed" ->
  same_taxonomy (committed w)
    (committed (_run_gemini_extraction_in_thread h ids w)).
Proof.
  intros NI. rewrite thread_committed.
  now destruct (run_no_skills h ids (rollback w) eq_refl NI) as [_ T].
Qed.

End JobRuns.

(** ** The dispatcher, click after click *)

Module QueueFacts.
Import StoreFacts ReconcilerFacts JobFacts LifeFacts RewriteFacts RunFacts.

Section Queue.
Variable h : host.

(** One call of [write] on the records [l]: the rows after it. *)
Lemma write_each_find (v : applicant_vals) (l : list nat) :
  forall d d' u,
    write_each h l v d = (Ok u, d') ->
    env_company d' = env_company d
    /\ forall id,
         find_applicant d' id
         = option_map
             (fun a => if existsb (Nat.eqb id) l then apply_vals v a else a)
             (find_applicant d id).
Proof.
  induction l as [|x l IH]; intros d d' u E; simpl in E.
  - injection E as _ <-. split; [reflexivity|]. intros id.
    now destruct (find_applicant d id).
  - apply bind_inv in E.
    destruct E as [(u1 & d1 & W & E) | (e & _ & [=])].
    apply write_applicant_ok in W. destruct W as (-> & _ & _).
    destruct (IH _ _ _ E) as [C F]. split; [exact C|]. intros id.
    rewrite F, find_applicant_update.
    destruct (find_applicant d id) as [a|] eqn:Fa; [|reflexivity].
    simpl. f_equal. rewrite (find_applicant_id _ _ _ Fa).
    destruct (id =? x)%nat; simpl.
    + rewrite apply_vals_twice. now destruct (existsb _ l).
    + reflexivity.
Qed.

Lemma filter_none {A : Type} (p : A -> bool) (l : list A) :
  (forall x, In x l -> p x = false) -> filter p l = [].
Proof.
  induction l as [|x l IH]; intros P; simpl; [reflexivity|].
  rewrite (P x (or_introl eq_refl)). apply IH. intros y I. apply P. now right.
Qed.

Lemma action_ok (ids to_process : list nat) (w w' : world) :
  action_extract_with_gemini h ids w = (Ok to_process, w') ->
  to_process = ready (working w) ids
  /\ working w' = committed w'
  /\ exists u,
       write_each h to_process pending_vals (working w)
       = (Ok u, committed w').
Proof.
  unfold action_extract_with_gemini.
  destruct (ready (working w) ids) as [|id0 rest] eqn:R; [discriminate|].
  destruct (write_each h (id0 :: rest) pending_vals (working w))
    as [[u|e] d] eqn:W; [|discriminate].
  intros [= <- <-]. simpl. eauto.
Qed.

End Queue.

End QueueFacts.

Section Clicks.
Variable h : host.
Import StoreFacts ReconcilerFacts JobFacts LifeFacts RewriteFacts RunFacts
  QueueFacts.

(** X25.  When the action returns, what it wrote is committed: each
    record handed to the thread has the state Pending and the message of
    the queue, and its other fields as they were; every other record is as
    it was. *)
Theorem queued_records_are_pending (ids to_process : list nat)
  (w w' : world) :
  action_extract_with_gemini h ids w = (Ok to_process, w') ->
  working w' = committed w'
  /\ forall id,
       find_applicant (committed w') id
       = option_map
           (fun a => if existsb (Nat.eqb id) to_process
                     then apply_vals pending_vals a else a)
           (find_applicant (working w) id).
Proof.
  intros E. destruct (action_ok h _ _ _ _ E) as (_ & WC & u & W).
  split; [exact WC|]. exact (proj2 (write_each_find h _ _ _ _ _ W)).
Qed.

(** X26.  Once the action has returned, the same action on the
    same records, before the thread has done anything, finds no record
    ready: it raises the error of the empty selection and changes
    nothing. *)
Theorem second_click_finds_nothing (ids to_process : list nat)
  (w w' : world) :
  action_extract_with_gemini h ids w = (Ok to_process, w') ->
  action_extract_with_gemini h ids w' = (Raise no_applicants, w').
Proof.
  intros E. destruct (action_ok h _ _ _ _ E) as (T & WC & u & W).
  destruct (write_each_find h _ _ _ _ _ W) as [C F].
  assert (R : ready (working w') ids = []).
  { unfold ready. apply filter_none. intros id I. rewrite WC, F.
    destruct (find_applicant (working w) id) as [a|] eqn:Fa; [|reflexivity].
    simpl. destruct (existsb (Nat.eqb id) to_process) eqn:X.
    - unfold _compute_can_extract_with_gemini. simpl.
      apply andb_false_r.
    - assert (P : _compute_can_extract_with_gemini (working w) a = false).
      { destruct (_compute_can_extract_with_gemini (working w) a) eqn:P;
          [|reflexivity].
        assert (In id to_process) as I'.
        { rewrite T. unfold ready. apply filter_In. split; [exact I|].
          now rewrite Fa. }
        assert (existsb (Nat.eqb id) to_process = true) as X'.
        { apply existsb_exists. exists id. split; [exact I'|].
          apply Nat.eqb_refl. }
        congruence. }
      unfold _compute_can_extract_with_gemini, company_of in *.
      now rewrite C. }
  unfold action_extract_with_gemini. now rewrite R.
Qed.

End Clicks.

(** ** What the reconciler adds, and when it returns *)

Module AddFacts.
Import StoreFacts ReconcilerFacts CallFacts RewriteFacts.

Lemma only_adds_refl (self : nat) (d : db) : only_adds self d d.
Proof.
  split; [reflexivity|]. split; [reflexivity|].
  split; [apply same_setup_refl|].
  split; [exists []; now rewrite List.app_nil_r|].
  split; [exists []; now rewrite List.app_nil_r|].
  split; [exists []; now rewrite List.app_nil_r|].
  exists []. split; [now rewrite List.app_nil_r | constructor].
Qed.

Lemma only_adds_trans (self : nat) (a b c : db) :
  only_adds self a b -> only_adds self b c -> only_adds self a c.
Proof.
  intros (A1 & A2 & A3 & (t1 & A4) & (l1 & A5) & (s1 & A6) & (k1 & A7 & A8))
         (B1 & B2 & B3 & (t2 & B4) & (l2 & B5) & (s2 & B6) & (k2 & B7 & B8)).
  split; [congruence|]. split; [congruence|].
  split; [exact (same_setup_trans _ _ _ A3 B3)|].
  split; [exists (t1 ++ t2)%list; now rewrite B4, A4, List.app_assoc|].
  split; [exists (l1 ++ l2)%list; now rewrite B5, A5, List.app_assoc|].
  split; [exists (s1 ++ s2)%list; now rewrite B6, A6, List.app_assoc|].
  exists (k1 ++ k2)%list. split; [now rewrite B7, A7, List.app_assoc|].
  apply Forall_app. auto.
Qed.

Ltac nothing := exists []; now rewrite List.app_nil_r.
Ltac no_link := exists []; split; [now rewrite List.app_nil_r | constructor].

(** The seven parts of [only_adds], each closed by [tac] when it can be so,
    by the absence of change otherwise. *)
Ltac adds_by tac :=
  split; [reflexivity|]; split; [reflexivity|];
  split; [split; reflexivity|];
  split; [first [nothing | tac]|];
  split; [first [nothing | tac]|];
  split; [first [nothing | tac]|];
  first [no_link | tac].

Section Adds.
Variable h : host.
Variable self : nat.

Lemma new_type_adds (n : string) (d : db) :
  preserves (fun x y => x = d -> only_adds self x y) (create_skill_type h n).
Proof.
  intros s r s' E ->. unfold create_skill_type, store_call in E.
  destruct (rejects h _ d); injection E as _ <-; [apply only_adds_refl|].
  adds_by ltac:(eexists; unfold type_keys; simpl; now rewrite map_app).
Qed.

Lemma new_level_adds (n : string) (p : Z) (d : db) :
  preserves (fun x y => x = d -> only_adds self x y)
    (create_skill_level h n p).
Proof.
  intros s r s' E ->. unfold create_skill_level, store_call in E.
  destruct (rejects h _ d); injection E as _ <-; [apply only_adds_refl|].
  adds_by ltac:(eexists; reflexivity).
Qed.

Lemma new_type_level_adds (type level : nat) (d : db) :
  preserves (fun x y => x = d -> only_adds self x y)
    (add_type_level h type level).
Proof.
  intros s r s' E ->. unfold add_type_level, store_call in E.
  destruct (find_skill_type d type);
    [|injection E as _ <-; apply only_adds_refl].
  destruct (rejects h _ d); injection E as _ <-; [apply only_adds_refl|].
  adds_by ltac:(exists []; rewrite List.app_nil_r; unfold type_keys; simpl;
                rewrite map_map; apply map_ext; intros x;
                now destruct (skill_type_id x =? type)%nat).
Qed.

Lemma new_skill_adds (n : string) (type : nat) (d : db) :
  preserves (fun x y => x = d -> only_adds self x y) (create_skill h n type).
Proof.
  intros s r s' E ->. unfold create_skill, store_call in E.
  destruct (rejects h _ d); injection E as _ <-; [apply only_adds_refl|].
  adds_by ltac:(eexists; unfold skill_keys; simpl; now rewrite map_app).
Qed.

Lemma retype_adds (id type : nat) (d : db) :
  preserves (fun x y => x = d -> only_adds self x y)
    (write_skill_type h id type).
Proof.
  intros s r s' E ->. unfold write_skill_type, store_call in E.
  destruct (find_skill d id); [|injection E as _ <-; apply only_adds_refl].
  destruct (rejects h _ d); injection E as _ <-; [apply only_adds_refl|].
  adds_by ltac:(exists []; now rewrite skill_keys_retype, List.app_nil_r).
Qed.

Lemma new_link_adds (skill level type : nat) (d : db) :
  preserves (fun x y => x = d -> only_adds self x y)
    (create_applicant_skill h self skill level type).
Proof.
  intros s r s' E ->. unfold create_applicant_skill, store_call in E.
  destruct (rejects h _ d); injection E as _ <-; [apply only_adds_refl|].
  adds_by ltac:(eexists; split; [reflexivity | repeat constructor]).
Qed.

Lemma process_skills_adds (v : json) :
  preserves (only_adds self) (_process_skills h self v).
Proof.
  apply process_skills_rule.
  - apply only_adds_refl.
  - apply only_adds_trans.
  - intros. apply new_type_adds.
  - intros. apply new_level_adds.
  - intros. apply new_type_level_adds.
  - intros. apply new_skill_adds.
  - intros. apply retype_adds.
  - intros. apply new_link_adds.
Qed.

End Adds.

(** *** When every call is carried out *)

Lemma find_type_in (d : db) (r : skill_type) :
  In r (skill_types d) -> find_skill_type d (skill_type_id r) <> None.
Proof.
  intros I F. unfold find_skill_type in F.
  pose proof (find_none _ _ F r I) as N. simpl in N.
  now rewrite Nat.eqb_refl in N.
Qed.

Lemma find_skill_in (d : db) (r : skill) :
  In r (skills d) -> find_skill d (skill_id r) <> None.
Proof.
  intros I F. unfold find_skill in F.
  pose proof (find_none _ _ F r I) as N. simpl in N.
  now rewrite Nat.eqb_refl in N.
Qed.

Lemma find_type_app (d : db) (more : list skill_type) (t : nat) :
  find_skill_type d t <> None ->
  find_skill_type (with_skill_types d (skill_types d ++ more)) t <> None.
Proof.
  unfold find_skill_type. simpl.
  destruct (find _ (skill_types d)) as [r|] eqn:F; [|contradiction].
  intros _. now rewrite (find_app_some _ _ more _ F).
Qed.

Section Returns.
Variable h : host.
Hypothesis accepts : forall op d, rejects h op d = None.

Lemma resolve_type_returns (n : string) (c : caches) (d : db) :
  type_cache_ok c d ->
  exists t c' d',
    resolve_type h n c d = (Ok (t, c'), d')
    /\ find_skill_type d' t <> None
    /\ type_cache_ok c' d'.
Proof.
  intros Inv. unfold resolve_type.
  destruct (cache_get (type_cache c) (Text.lower n)) as [t|] eqn:C.
  - exists t, c, d. repeat split; auto. exact (Inv _ _ C).
  - unfold bind. destruct (search_skill_type d n) as [r|] eqn:S.
    + eexists _, _, _. split; [reflexivity|].
      assert (F : find_skill_type d (skill_type_id r) <> None).
      { apply find_type_in. unfold search_skill_type in S.
        now apply find_some in S. }
      split; [exact F|]. intros k t. simpl.
      destruct (Text.lower n =? k); [now intros [= <-] | apply Inv].
    + unfold create_skill_type, store_call. rewrite accepts.
      eexists _, _, _. split; [reflexivity|].
      assert (F : find_skill_type
                    (with_skill_types d
                       (skill_types d ++
                          [{| skill_type_id := new_skill_type_id d;
                              skill_type_name := n;
                              skill_level_ids := [] |}]))
                    (new_skill_type_id d) <> None).
      { apply (find_type_in _ {| skill_type_id := new_skill_type_id d;
                                 skill_type_name := n;
                                 skill_level_ids := [] |}).
        simpl. apply in_or_app. right. now left. }
      split; [exact F|]. intros k t. simpl.
      destruct (Text.lower n =? k); [now intros [= <-]|].
      intros G. apply find_type_app. exact (Inv _ _ G).
Qed.

Lemma default_level_returns (d : db) :
  exists l d', _get_or_create_default_skill_level h d = (Ok l, d')
               /\ skill_types d' = skill_types d.
Proof.
  unfold _get_or_create_default_skill_level.
  destruct (search_level_exact d _ _); [eauto|].
  destruct (search_level_named d _); [eauto|].
  destruct (search_level_lowest d); [eauto|].
  unfold create_skill_level, store_call. rewrite accepts. eauto.
Qed.

Lemma resolve_level_returns (v : json) (c : caches) (d : db) :
  stringy v = true ->
  exists l c' d',
    resolve_level h v c d = (Ok (l, c'), d')
    /\ skill_types d' = skill_types d
    /\ type_cache c' = type_cache c.
Proof.
  intros St. unfold resolve_level.
  assert (First : exists o c1 d1,
            (if truthy v then
               match v with
               | JStr label => resolve_label h label c
               | _ => raise (no_attribute v "lower")
               end
             else ret (None, c)) d = (Ok (o, c1), d1)
            /\ skill_types d1 = skill_types d
            /\ type_cache c1 = type_cache c).
  { destruct (truthy v) eqn:T; [|eexists _, _, _; repeat split].
    destruct v; simpl in St, T; try discriminate;
      try (rewrite T in St; discriminate St).
    unfold resolve_label.
    destruct (cache_get _ _); [eexists _, _, _; repeat split|].
    unfold bind. cbv zeta.
    destruct (match match parse_level s with
                    | Some (n, p) => search_level_exact d n p
                    | None => None
                    end with
              | Some r0 => Some r0
              | None => search_level_named d s
              end); [eexists _, _, _; repeat split|].
    destruct (parse_level s) as [[n p]|]; [|eexists _, _, _; repeat split].
    unfold create_skill_level, store_call. rewrite accepts.
    eexists _, _, _; repeat split. }
  destruct First as (o & c1 & d1 & E & T1 & C1). unfold bind. rewrite E.
  simpl. destruct o as [l|]; [eexists _, _, _; repeat split; eauto|].
  unfold resolve_default. destruct (default_level c1).
  - eexists _, _, _; repeat split; eauto.
  - unfold bind.
    destruct (default_level_returns d1) as (l & d2 & -> & T2).
    eexists _, _, _. repeat split; [congruence | exact C1].
Qed.

Lemma associate_level_returns (type level : nat) (d : db) :
  find_skill_type d type <> None ->
  exists d', associate_level h type level d = (Ok tt, d')
             /\ forall t, find_skill_type d t <> None ->
                          find_skill_type d' t <> None.
Proof.
  intros F. unfold associate_level.
  destruct (find_skill_type d type) as [r|] eqn:Fr; [|contradiction].
  destruct (has_id level (skill_level_ids r)); [eauto|].
  unfold add_type_level. rewrite Fr. unfold store_call. rewrite accepts.
  eexists. split; [reflexivity|]. intros t.
  unfold find_skill_type. simpl. rewrite find_map.
  - now destruct (find _ (skill_types d)).
  - intros x. destruct (skill_type_id x =? type)%nat eqn:Q; simpl; auto.
Qed.

Lemma resolve_skill_returns (n : string) (type : nat) (c : caches) (d : db) :
  exists s c' d',
    resolve_skill h n type c d = (Ok (s, c'), d')
    /\ skill_types d' = skill_types d
    /\ type_cache c' = type_cache c.
Proof.
  unfold resolve_skill.
  destruct (cache_get _ _); [eexists _, _, _; repeat split|].
  unfold bind. destruct (search_skill d n) as [r|] eqn:S.
  - destruct (skill_type_of r =? type)%nat;
      [eexists _, _, _; repeat split|].
    unfold write_skill_type, store_call.
    destruct (find_skill d (skill_id r)) eqn:F.
    + rewrite accepts. eexists _, _, _; repeat split.
    + exfalso. apply (find_skill_in d r); [|exact F].
      unfold search_skill in S. now apply find_some in S.
  - unfold create_skill, store_call. rewrite accepts.
    eexists _, _, _; repeat split.
Qed.

Lemma link_skill_returns (self skill level type : nat) (d : db) :
  exists d', link_skill h self skill level type d = (Ok tt, d')
             /\ skill_types d' = skill_types d.
Proof.
  unfold link_skill. destruct (search_link d self skill); [eauto|].
  unfold create_applicant_skill, store_call. rewrite accepts. eauto.
Qed.

Lemma type_cache_ok_same (c c' : caches) (d d' : db) :
  type_cache c' = type_cache c ->
  (forall t, find_skill_type d t <> None -> find_skill_type d' t <> None) ->
  type_cache_ok c d -> type_cache_ok c' d'.
Proof.
  intros C G Inv k t. rewrite C. intros E. apply G. exact (Inv _ _ E).
Qed.

Lemma find_type_same (d d' : db) :
  skill_types d' = skill_types d ->
  forall t, find_skill_type d t <> None -> find_skill_type d' t <> None.
Proof. intros E t. unfold find_skill_type. now rewrite E. Qed.

Lemma process_skill_returns (self : nat) (item : json) (c : caches)
  (d : db) :
  well_formed item = true -> type_cache_ok c d ->
  exists c' d',
    process_skill h self item c d = (Ok c', d') /\ type_cache_ok c' d'.
Proof.
  intros WF Inv. unfold process_skill.
  destruct item; try (exists c, d; split; [reflexivity | exact Inv]).
  simpl in WF.
  destruct (truthy (py_get fields "skill")) eqn:Ts;
    [|exists c, d; split; [reflexivity | exact Inv]].
  simpl in WF. apply andb_prop in WF. destruct WF as [WF Wl].
  apply andb_prop in WF. destruct WF as [Ws Wt].
  simpl negb. cbv iota.
  assert (exists n, or_general (py_get fields "type") = JStr n) as (tn & ->).
  { unfold or_general. destruct (truthy (py_get fields "type")) eqn:Tt;
      [|eauto].
    destruct (py_get fields "type"); simpl in Wt, Tt; try discriminate;
      try (rewrite Tt in Wt; discriminate Wt). eauto. }
  assert (exists n, py_get fields "skill" = JStr n) as (sn & Es).
  { destruct (py_get fields "skill"); simpl in Ws, Ts; try discriminate;
      try (rewrite Ts in Ws; discriminate Ws). eauto. }
  destruct (resolve_type_returns tn c d Inv) as (t & c1 & d1 & E1 & F1 & I1).
  destruct (resolve_level_returns (py_get fields "level") c1 d1 Wl)
    as (l & c2 & d2 & E2 & T2 & C2).
  pose proof (find_type_same _ _ T2) as G2.
  destruct (associate_level_returns t l d2 (G2 _ F1)) as (d3 & E3 & G3).
  destruct (resolve_skill_returns sn t c2 d3) as (s & c4 & d4 & E4 & T4 & C4).
  destruct (link_skill_returns self s l t d4) as (d5 & E5 & T5).
  exists c4, d5. split.
  - change (negb true) with false. cbv iota. rewrite Es.
    unfold bind. rewrite E1. simpl. rewrite E2. simpl. rewrite E3.
    rewrite E4. simpl. rewrite E5. reflexivity.
  - apply (type_cache_ok_same c1 c4 d1 d5); [congruence| |exact I1].
    intros x Fx. apply (find_type_same _ _ T5), (find_type_same _ _ T4).
    auto.
Qed.

Lemma process_skill_list_returns (self : nat) (items : list json) :
  forallb well_formed items = true ->
  forall c d, type_cache_ok c d ->
    exists c' d', process_skill_list h self items c d = (Ok c', d').
Proof.
  induction items as [|item items IH]; intros WF c d Inv; simpl.
  - exists c, d. reflexivity.
  - simpl in WF. apply andb_prop in WF. destruct WF as [W1 W2].
    destruct (process_skill_returns self item c d W1 Inv)
      as (c1 & d1 & E1 & I1).
    destruct (IH W2 c1 d1 I1) as (c2 & d2 & E2).
    exists c2, d2. unfold bind. now rewrite E1.
Qed.

End Returns.

End AddFacts.

Section ReconcilerRuns.
Variable h : host.
Import StoreFacts ReconcilerFacts CallFacts RewriteFacts AddFacts.

(** X14.  Whatever the list and whether the reconciler returns or
    raises, it removes no row: types, levels, skills and links are added at
    the end of their tables, types and skills keep their ids and names,
    levels are left as they are, every link added is a link of the
    applicant of the run, and the applicants, the degrees and the settings
    are left alone. *)
Theorem reconciler_only_adds (self : nat) (v : json) (d : db) :
  only_adds self d (snd (_process_skills h self v d)).
Proof.
  destruct (_process_skills h self v d) as [r d'] eqn:E.
  exact (process_skills_adds h self v _ _ _ E).
Qed.

(** X13.  With a store that carries every call out, the reconciler
    returns on every list whose items are skipped or have, for skill, type
    and level, a string or a value that counts as missing. *)
Theorem reconciler_returns (self : nat) (items : list json) (d : db) :
  (forall op x, rejects h op x = None) ->
  forallb well_formed items = true ->
  exists d', _process_skills h self (JArr items) d = (Ok tt, d').
Proof.
  intros Acc WF. unfold _process_skills.
  destruct items as [|item items]; [eauto|].
  change (negb (truthy (JArr (item :: items)))) with false. cbv iota.
  destruct (process_skill_list_returns h Acc self (item :: items) WF
              no_caches d) as (c' & d' & E).
  { intros k t. discriminate. }
  exists d'. unfold bind. now rewrite E.
Qed.

End ReconcilerRuns.

(** ** Answers and records the job cannot use *)

Section Unusable.
Variable h : host.
Import StoreFacts ReconcilerFacts JobFacts LifeFacts RewriteFacts RunFacts.

(** X4.  An answer that decodes to a value that is not an
    object, be it null, a number, a string or a list, makes the first block
    fail on the method [get] that the value lacks: the writer passes over a
    value that counts as empty, but the reading of the skills does not.
    Nothing is written. *)
Theorem non_object_answer_is_an_error (batch : list nat)
  (self : nat) (text : string)
  (data : json) (w : world) :
  _parse_gemini_response h batch text = Ok data ->
  (forall fields, data <> JObj fields) ->
  apply_response h batch self text w = (Raise (no_attribute data "get"), w).
Proof.
  intros P N. unfold apply_response. unfold bind at 1. unfold lift.
  rewrite P. unfold bind, on_working.
  destruct data as [|b|z|nz lit|s|items|fields];
    try (unfold _write_extracted_data;
         destruct (negb _); unfold ret, raise; now rewrite world_eta).
  now contradiction (N fields).
Qed.

(** X20.  A record that is no longer in the tables when its turn
    comes is passed over: the job fails on its first reading, the handler
    finds no record to mark, and nothing is written or committed. *)
Theorem deleted_record_is_passed_over (batch : list nat)
  (self : nat) (w : world) :
  find_applicant (working w) self = None ->
  find_applicant (committed w) self = None ->
  extract_one h batch self w = rollback w.
Proof.
  intros F1 F2.
  assert (V : validate (working w) self = Raise missing_record).
  { unfold validate. now rewrite F1. }
  unfold extract_one. rewrite (core_step_checks h batch self w _ V).
  unfold record_error, write_applicant. simpl. now rewrite F2.
Qed.

End Unusable.

(** ** The writes of the state field, in order *)

Module OrderFacts.
Import StoreFacts ReconcilerFacts JobFacts LifeFacts RewriteFacts RunFacts.

Lemma quiet_refl (w : world) : quiet w w.
Proof. reflexivity. Qed.

Lemma quiet_trans (a b c : world) : quiet a b -> quiet b c -> quiet a c.
Proof. unfold quiet. congruence. Qed.

Section Order.
Variable h : host.

Lemma on_working_quiet {A : Type} (m : M db A) : preserves quiet (on_working m).
Proof.
  intros w r w'. unfold on_working.
  destruct (m (working w)) as [r0 d]. now intros [= _ <-].
Qed.

Lemma savepoint_block_quiet {A : Type} (m : M world A) :
  preserves quiet m -> preserves quiet (savepoint_block m).
Proof.
  intros P w r w'. unfold savepoint_block.
  destruct (m w) as [[a|e] w1] eqn:E; intros [= _ <-];
    exact (P _ _ _ E).
Qed.

Lemma apply_response_quiet (batch : list nat) (self : nat) (text : string) :
  preserves quiet (apply_response h batch self text).
Proof.
  pose proof quiet_refl as Rf. pose proof quiet_trans as Tr.
  unfold apply_response.
  apply preserves_bind; [eauto | apply preserves_lift; auto|].
  intros data. apply preserves_bind; [eauto | apply on_working_quiet|].
  intros _. destruct data; try (apply preserves_raise; auto).
  intros w r w'. destruct (_ && _); intros [= _ <-]; auto.
Qed.

Lemma skills_step_quiet (self : nat) (v : json) :
  preserves quiet (skills_step h self v).
Proof.
  pose proof quiet_refl as Rf. pose proof quiet_trans as Tr.
  unfold skills_step. apply savepoint_block_quiet.
  apply preserves_bind; [eauto | apply preserves_lift; auto|].
  intros _. apply on_working_quiet.
Qed.

(** A write of a state: one entry when it is carried out, none
    otherwise. *)
Lemma write_state_journal (self : nat) (st : extract_state) (status : string)
  (w w' : world) (r : result unit) :
  write_state h self st status w = (r, w') ->
  (r = Ok tt
   /\ exists t, journal w' = (journal w ++ [t])%list
                /\ tr_to t = st /\ tr_record t = self)
  \/ ((exists e, r = Raise e) /\ journal w' = journal w).
Proof.
  unfold write_state.
  destruct (write_applicant h self _ (working w)) as [[u|e] d] eqn:W;
    intros [= <- <-].
  - left. destruct u. split; [reflexivity|].
    apply write_applicant_ok in W. destruct W as (_ & _ & a & F).
    unfold entry. rewrite F. eexists. simpl. repeat split.
  - right. split; [eauto | reflexivity].
Qed.

Lemma record_error_writes (self : nat) (e : exn) (w : world) :
  journal (record_error h self e w) = journal w
  \/ exists t, journal (record_error h self e w) = (journal w ++ [t])%list
               /\ tr_to t = error /\ tr_record t = self.
Proof.
  unfold record_error. simpl.
  destruct (write_applicant h self _ (committed w)) as [[u|e'] d] eqn:W;
    [|now left].
  right. apply write_applicant_ok in W. destruct W as (_ & _ & a & F).
  unfold entry. simpl. rewrite F. eexists. simpl. repeat split.
Qed.

(** The first block writes Processing once when it gets past its checks,
    and nothing else. *)
Lemma core_step_journal (batch : list nat)
  (self : nat) (w w1 : world) (r : result json) :
  core_step h batch self w = (r, w1) ->
  ((exists e, r = Raise e) /\ journal w1 = journal w)
  \/ exists t, journal w1 = (journal w ++ [t])%list
               /\ tr_to t = processing /\ tr_record t = self.
Proof.
  pose proof quiet_refl as Rf. pose proof quiet_trans as Tr.
  unfold core_step, savepoint_block.
  destruct ((response_text <- call_model h self;;
             apply_response h batch self response_text) w)
    as [r0 w2] eqn:B.
  assert (J : ((exists e, r0 = Raise e) /\ journal w2 = journal w)
              \/ exists t, journal w2 = (journal w ++ [t])%list
                           /\ tr_to t = processing /\ tr_record t = self).
  { apply bind_inv in B. destruct B as [(text & wa & C & B) | (e & C & ->)].
    - apply apply_response_quiet in B. unfold quiet in B. rewrite B.
      right. unfold call_model in C. apply bind_inv in C.
      destruct C as [([[k m] att] & wb & V & C) | (e & _ & [=])].
      injection V as _ <-.
      apply bind_inv in C. destruct C as [(u & wc & W & C) | (e & _ & [=])].
      apply write_state_journal in W.
      destruct W as [(_ & t & Jt & T1 & T2) | ((e & [=]) & _)].
      exists t. split; [|auto]. rewrite <- Jt.
      apply bind_inv in C. destruct C as [(x & wd & G & C) | (e & _ & [=])].
      injection G as _ <-.
      apply bind_inv in C. destruct C as [(y & we & O & C) | (e & _ & [=])].
      apply on_working_quiet in O. injection C as _ <-. exact O.
    - unfold call_model in C. apply bind_inv in C.
      destruct C as [([[k m] att] & wb & V & C) | (e' & V & _)].
      + injection V as _ <-.
        apply bind_inv in C. destruct C as [(u & wc & W & C) | (e' & W & _)].
        * apply write_state_journal in W.
          destruct W as [(_ & t & Jt & T1 & T2) | ((e' & [=]) & _)].
          right. exists t. split; [|auto]. rewrite <- Jt.
          apply bind_inv in C.
          destruct C as [(x & wd & G & C) | (e' & G & _)];
            [|now injection G as _ <-].
          injection G as _ <-.
          apply bind_inv in C.
          destruct C as [(y & we & O & C) | (e' & O & _)];
            [|exact (on_working_quiet _ _ _ _ O)].
          discriminate C.
        * apply write_state_journal in W.
          destruct W as [([=] & _) | (_ & Jw)]. left. split; [eauto|].
          exact Jw.
      + left. split; [eauto|]. now injection V as _ <-. }
  destruct r0 as [a|e]; intros [= <- <-]; simpl; exact J.
Qed.

End Order.

End OrderFacts.

Section Protocol.
Variable h : host.
Import StoreFacts ReconcilerFacts JobFacts LifeFacts RewriteFacts RunFacts
  OrderFacts.

(** X21.  The job on one record writes the state field of that record
    alone, and in one of these orders: nothing; Error; Processing;
    Processing then Error; Processing then Done.  So Done is written only
    after Processing, and nothing is written after Done or Error. *)
Theorem job_writes_states_in_order (batch : list nat) (self : nat) (w : world) :
  exists new,
    journal (extract_one h batch self w) = (journal w ++ new)%list
    /\ run_writes (map tr_to new)
    /\ Forall (fun t => tr_record t = self) new.
Proof.
  unfold extract_one, run_writes.
  destruct (core_step h batch self w) as [[v|e] w1] eqn:C.
  - apply core_step_journal in C.
    destruct C as [((e & [=]) & _) | (tp & J1 & P1 & P2)].
    destruct (if truthy v then _ else _) as [msg w2] eqn:S.
    assert (J2 : journal w2 = journal w1).
    { destruct (truthy v); [|now injection S as _ <-].
      destruct (skills_step h self v w1) as [[u|e] w3] eqn:K;
        injection S as _ <-; exact (skills_step_quiet h _ _ _ _ _ K). }
    destruct (write_state h self done msg w2) as [[u|e] w3] eqn:W;
      apply write_state_journal in W.
    + destruct W as [(_ & td & J3 & D1 & D2) | ((e & [=]) & _)].
      exists [tp; td]. simpl. rewrite J3, J2, J1, <- List.app_assoc.
      split; [reflexivity|]. rewrite P1, D1. split; [tauto|].
      repeat constructor; assumption.
    + destruct W as [([=] & _) | (_ & J3)].
      destruct (record_error_writes h self e w3)
        as [J4 | (te & J4 & E1 & E2)]; rewrite J4, J3, J2, J1.
      * exists [tp]. simpl. rewrite P1. split; [reflexivity|].
        split; [tauto|]. repeat constructor; assumption.
      * exists [tp; te]. simpl. rewrite <- List.app_assoc, P1, E1.
        split; [reflexivity|]. split; [tauto|].
        repeat constructor; assumption.
  - apply core_step_journal in C.
    destruct (record_error_writes h self e w1)
      as [J4 | (te & J4 & E1 & E2)]; rewrite J4;
      destruct C as [(_ & J1) | (tp & J1 & P1 & P2)]; rewrite J1.
    + exists []. rewrite List.app_nil_r. simpl. split; [reflexivity|].
      split; [tauto | constructor].
    + exists [tp]. simpl. rewrite P1. split; [reflexivity|].
      split; [tauto|]. repeat constructor; assumption.
    + exists [te]. simpl. rewrite E1. split; [reflexivity|].
      split; [tauto|]. repeat constructor; assumption.
    + exists [tp; te]. simpl. rewrite <- List.app_assoc, P1, E1.
      split; [reflexivity|]. split; [tauto|].
      repeat constructor; assumption.
Qed.

(** X3.  White space around the text that a search has found is
    ignored: the text is decoded as it is without it. *)
Theorem white_space_around_payload_is_ignored (self : list nat)
  (response_text before json_text after : string) :
  blank before = true -> blank after = true ->
  decode h self response_text (before ++ json_text ++ after)
  = decode h self response_text json_text.
Proof.
  intros B1 B2. unfold decode.
  assert (Text.strip (before ++ json_text ++ after) = Text.strip json_text)
    as ->; [|reflexivity].
  unfold Text.strip. rewrite LabelFacts.lstrip_blank_app by exact B1.
  exact (LabelFacts.strip_app_blank json_text after B2).
Qed.

End Protocol.

(** X3 on sample data. *)
Lemma white_space_around_payload_is_ignored_witness :
  let h := Sample.answering "{}" (Some (JObj [])) Sample.accept_all in
  let nl := String "010" EmptyString in
  blank (nl ++ "  ") = true /\ blank nl = true
  /\ decode h [1] "{}" ((nl ++ "  ") ++ "{}" ++ nl) = Ok (JObj []).
Proof.
  intros h nl.
  assert (H1 : blank (nl ++ "  ") = true) by reflexivity.
  assert (H2 : blank nl = true) by reflexivity.
  repeat (split; [assumption|]).
  exact (white_space_around_payload_is_ignored h [1] "{}" (nl ++ "  ") "{}"
           nl H1 H2).
Defined.

(** ** From the click to the end of the thread *)

Section Submitted.
Variable h : host.
Import StoreFacts ReconcilerFacts JobFacts LifeFacts RewriteFacts RunFacts
  QueueFacts.

(** X27.  After a click that the action accepts, and once its thread
    has run, every record that was ready is committed Done or in Error
    with the message of its outcome, when the store carries the writes of
    the state Error out; every other record is as the click found it. *)
Theorem submitted_records_finish (ids : list nat) (w w' : world) :
  (forall self msg d,
     rejects h (WriteApplicant self (state_vals error msg)) d = None) ->
  submit h ids w = (Ok tt, w') ->
  forall id,
    (In id (ready (working w) ids) ->
     exists a', find_applicant (committed w') id = Some a' /\ finished a')
    /\ (~ In id (ready (working w) ids) ->
        find_applicant (committed w') id = find_applicant (working w) id).
Proof.
  intros Acc. unfold submit.
  destruct (action_extract_with_gemini h ids w) as [[to_process|e] w1] eqn:E;
    [|discriminate].
  intros [= <-] id.
  destruct (action_ok h _ _ _ _ E) as (T & WC & u & W).
  destruct (write_each_find h _ _ _ _ _ W) as [_ F]. subst to_process.
  rewrite thread_committed. split.
  - intros I. destruct (ready_eligible _ _ _ I) as (a & Fa & _).
    apply (run_finishes h _ Acc (rollback w1) id
             (apply_vals pending_vals a)); auto.
    simpl. rewrite F, Fa. simpl.
    assert (existsb (Nat.eqb id) (ready (working w) ids) = true) as ->;
      [|reflexivity].
    apply existsb_exists. exists id. split; [exact I | apply Nat.eqb_refl].
  - intros N. rewrite (run_others h _ id N (rollback w1) eq_refl).
    simpl. rewrite F.
    assert (existsb (Nat.eqb id) (ready (working w) ids) = false) as ->.
    { destruct (existsb _ _) eqn:X; [|reflexivity].
      apply existsb_exists in X. destruct X as (x & I & Q).
      apply Nat.eqb_eq in Q. subst x. contradiction. }
    now destruct (find_applicant (working w) id).
Qed.

End Submitted.

(** X27 on sample data. *)
Lemma submitted_records_finish_witness :
  let h := Sample.garbled in
  let w := Stock.two_records in
  let w' := snd (submit h [1; 2] w) in
  (forall self msg d,
     rejects h (WriteApplicant self (state_vals error msg)) d = None)
  /\ submit h [1; 2] w = (Ok tt, w')
  /\ forall id,
       (In id (ready (working w) [1; 2]) ->
        exists a', find_applicant (committed w') id = Some a' /\ finished a')
       /\ (~ In id (ready (working w) [1; 2]) ->
           find_applicant (committed w') id = find_applicant (working w) id).
Proof.
  intros h w w'.
  assert (H1 : forall self msg d,
            rejects h (WriteApplicant self (state_vals error msg)) d = None)
    by reflexivity.
  assert (H2 : submit h [1; 2] w = (Ok tt, w')) by reflexivity.
  repeat (split; [assumption|]).
  exact (submitted_records_finish h [1; 2] w w' H1 H2).
Defined.

(** ** The properties on sample data *)

Ltac no_char := simpl; intuition discriminate.

(** X10 on sample data. *)
Lemma formatted_label_parses_witness :
  "Advanced" <> EmptyString
  /\ ~ occurs "(" "Advanced" /\ ~ occurs "010" "Advanced"
  /\ blank " " = true /\ "80" <> EmptyString /\ digits "80" = true
  /\ parse_level "Advanced (80%)" = Some ("Advanced", 80%Z).
Proof.
  assert (H1 : "Advanced" <> EmptyString) by discriminate.
  assert (H2 : ~ occurs "(" "Advanced") by no_char.
  assert (H3 : ~ occurs "010" "Advanced") by no_char.
  assert (H4 : blank " " = true) by reflexivity.
  assert (H5 : "80" <> EmptyString) by discriminate.
  assert (H6 : digits "80" = true) by reflexivity.
  repeat (split; [assumption|]).
  exact (formatted_label_parses "Advanced" " " "80" EmptyString
           H1 H2 H3 H4 H5 H6).
Defined.

(** X11 on sample data. *)
Lemma parsed_label_has_percentage_witness :
  parse_level "B2 (75%)" = Some ("B2", 75%Z)
  /\ (0 <= 75)%Z
  /\ exists g ws ds rest,
       "B2 (75%)" = g ++ ws ++ "(" ++ ds ++ "%)" ++ rest
       /\ g <> EmptyString /\ ~ occurs "010" g
       /\ blank ws = true /\ ds <> EmptyString /\ digits ds = true
       /\ "B2" = Text.strip g /\ 75%Z = int_of_digits 0 ds.
Proof.
  split; [reflexivity|].
  exact (parsed_label_has_percentage "B2 (75%)" "B2" 75 eq_refl).
Defined.

(** X1 on sample data. *)
Lemma object_amid_text_is_decoded_witness :
  let h := Sample.answering "{ }" (Some (JObj [])) Sample.accept_all in
  let text := "Here is the data: { } Bye" in
  ~ has_fence text
  /\ ~ occurs "{" "Here is the data: " /\ ~ occurs "}" " Bye"
  /\ _parse_gemini_response h [1] text = Ok (JObj []).
Proof.
  intros h text.
  assert (H1 : ~ has_fence text).
  { apply ParserFacts.search_fence_none. reflexivity. }
  assert (H2 : ~ occurs "{" "Here is the data: ") by no_char.
  assert (H3 : ~ occurs "}" " Bye") by no_char.
  repeat (split; [assumption|]).
  exact (object_amid_text_is_decoded h [1] "Here is the data: " " " " Bye"
           H1 H2 H3).
Defined.

(** X2 on sample data. *)
Lemma fenced_answer_is_decoded_witness :
  let h := Sample.answering "{}" (Some (JObj [])) Sample.accept_all in
  let text := "Here {x}: " ++ fence_open ++ "{}" ++ fence_close ++ " done }" in
  ~ occurs "`" "Here {x}: " /\ ~ occurs "`" "{}"
  /\ _parse_gemini_response h [1] text = Ok (JObj []).
Proof.
  intros h text.
  assert (H1 : ~ occurs "`" "Here {x}: ") by no_char.
  assert (H2 : ~ occurs "`" "{}") by no_char.
  repeat (split; [assumption|]).
  exact (fenced_answer_is_decoded h [1] "Here {x}: " "{}" " done }" H1 H2).
Defined.

(** X6 on sample data. *)
Lemma null_fields_overwrite_nothing_witness :
  let h := Stock.willing in
  let a := Sample.candidate 1 pending EmptyString in
  let d := Stock.one_queued in
  let d' := snd (_write_extracted_data h 1 (JObj Stock.bob_no_email) d) in
  find_applicant d 1 = Some a
  /\ _write_extracted_data h 1 (JObj Stock.bob_no_email) d = (Ok tt, d')
  /\ exists a', find_applicant d' 1 = Some a'
       /\ partner_name a' = "Bob"
       /\ email_from a' = email_from a
       /\ partner_phone a' = partner_phone a
       /\ linkedin_profile a' = linkedin_profile a
       /\ (truthy (py_get Stock.bob_no_email "degree") = false ->
           type_id a' = type_id a).
Proof.
  intros h a d d'.
  assert (H1 : find_applicant d 1 = Some a) by reflexivity.
  assert (H2 : _write_extracted_data h 1 (JObj Stock.bob_no_email) d
               = (Ok tt, d')) by reflexivity.
  repeat (split; [assumption|]).
  exact (null_fields_overwrite_nothing h 1 a Stock.bob_no_email d d' H1 H2).
Defined.

(** X7 on sample data. *)
Lemma writer_is_idempotent_witness :
  let h := Stock.willing in
  let out := _write_extracted_data h 1 (JObj Sample.bob) Stock.one_queued in
  (forall op x, rejects h op x = None)
  /\ _write_extracted_data h 1 (JObj Sample.bob) (snd out) = out.
Proof.
  intros h out.
  assert (H1 : forall op x, rejects h op x = None) by reflexivity.
  split; [assumption|].
  exact (writer_is_idempotent h 1 (JObj Sample.bob) Stock.one_queued H1).
Defined.

(** X8 on sample data. *)
Lemma writer_adds_no_duplicate_degree_witness :
  let h := Stock.willing in
  let d := Stock.one_queued in
  degrees_unique d
  /\ degrees_unique (snd (_write_extracted_data h 1 (JObj Sample.bob) d)).
Proof.
  intros h d.
  assert (H1 : degrees_unique d) by constructor.
  split; [assumption|].
  exact (writer_adds_no_duplicate_degree h 1 (JObj Sample.bob) d H1).
Defined.

(** X9 on sample data. *)
Lemma default_level_is_stable_witness :
  let h := Stock.willing in
  let d := Sample.tables [] [] in
  let d' := snd (_get_or_create_default_skill_level h d) in
  _get_or_create_default_skill_level h d = (Ok 1, d')
  /\ (exists r, In r (skill_levels d') /\ skill_level_id r = 1)
  /\ _get_or_create_default_skill_level h d' = (Ok 1, d').
Proof.
  intros h d d'.
  assert (H1 : _get_or_create_default_skill_level h d = (Ok 1, d'))
    by reflexivity.
  split; [assumption|].
  exact (default_level_is_stable h d d' 1 H1).
Defined.

(** X16 on sample data. *)
Lemma links_keep_levels_of_their_type_witness :
  let h := Stock.willing in
  let d := Stock.one_queued in
  links_typed d
  /\ links_typed (snd (_process_skills h 1 (JArr Sample.python_twice) d)).
Proof.
  intros h d.
  assert (H1 : links_typed d) by constructor.
  split; [assumption|].
  exact (links_keep_levels_of_their_type h 1 (JArr Sample.python_twice) d H1).
Defined.

(** X15 on sample data. *)
Lemma reconciler_adds_no_duplicate_witness :
  let h := Stock.willing in
  let d := Stock.typed_python in
  taxonomy_unique d
  /\ taxonomy_unique (snd (_process_skills h 1 (JArr Sample.python_twice) d)).
Proof.
  intros h d.
  assert (H1 : taxonomy_unique d).
  { repeat split; repeat constructor; simpl; intuition discriminate. }
  split; [assumption|].
  exact (reconciler_adds_no_duplicate h 1 (JArr Sample.python_twice) d H1).
Defined.

(** X17 on sample data. *)
Lemma found_skill_moves_to_item_type_witness :
  let h := Stock.willing in
  let d := Stock.typed_python in
  let r := {| skill_id := 1; skill_name := "Python"; skill_type_of := 1 |} in
  let c' := remember_skill no_caches "python" 1 in
  let d' := snd (resolve_skill h "python" 2 no_caches d) in
  cache_get (skill_cache no_caches) (Text.lower "python") = None
  /\ search_skill d "python" = Some r
  /\ resolve_skill h "python" 2 no_caches d = (Ok (1, c'), d')
  /\ 1 = skill_id r
  /\ search_skill d' "python"
     = Some {| skill_id := 1; skill_name := "Python"; skill_type_of := 2 |}.
Proof.
  intros h d r c' d'.
  assert (H1 : cache_get (skill_cache no_caches) (Text.lower "python") = None)
    by reflexivity.
  assert (H2 : search_skill d "python" = Some r) by reflexivity.
  assert (H3 : resolve_skill h "python" 2 no_caches d = (Ok (1, c'), d'))
    by reflexivity.
  repeat (split; [assumption|]).
  exact (found_skill_moves_to_item_type h "python" 2 no_caches c' d d' 1 r
           H1 H2 H3).
Defined.

(** X19 on sample data. *)
Lemma failed_check_goes_to_handler_witness :
  let h := Sample.garbled in
  let w := Sample.fresh_world (Sample.tables [Sample.keyless_candidate] []) in
  let e := UserError "Gemini API Key is not set in HR Settings." in
  validate (working w) 1 = Raise e
  /\ core_step h [1] 1 w = (Raise e, w)
  /\ extract_one h [1] 1 w = record_error h 1 e w.
Proof.
  intros h w e.
  assert (H1 : validate (working w) 1 = Raise e) by reflexivity.
  split; [assumption|].
  exact (failed_check_goes_to_handler h [1] 1 w e H1).
Defined.

(** X22 on sample data. *)
Lemma every_record_ends_done_or_error_witness :
  let h := Sample.garbled in
  let w := Sample.queued in
  let a := Sample.candidate 1 pending EmptyString in
  (forall self msg d,
     rejects h (WriteApplicant self (state_vals error msg)) d = None)
  /\ In 1 [1]
  /\ find_applicant (committed w) 1 = Some a
  /\ exists a',
       find_applicant (committed (_run_gemini_extraction_in_thread h [1] w)) 1
       = Some a'
       /\ finished a'.
Proof.
  intros h w a.
  assert (H1 : forall self msg d,
            rejects h (WriteApplicant self (state_vals error msg)) d = None)
    by reflexivity.
  assert (H2 : In 1 [1]) by (left; reflexivity).
  assert (H3 : find_applicant (committed w) 1 = Some a) by reflexivity.
  repeat (split; [assumption|]).
  exact (every_record_ends_done_or_error h [1] w 1 a H1 H2 H3).
Defined.

(** X23 on sample data. *)
Lemma job_touches_only_its_records_witness :
  let h := Sample.garbled in
  let w := Stock.two_records in
  ~ In 2 [1]
  /\ find_applicant (committed (_run_gemini_extraction_in_thread h [1] w)) 2
     = find_applicant (committed w) 2.
Proof.
  intros h w.
  assert (H1 : ~ In 2 [1]) by (simpl; intuition discriminate).
  split; [assumption|].
  exact (job_touches_only_its_records h [1] w 2 H1).
Defined.

(** X24 on sample data. *)
Lemma without_skills_module_taxonomy_stays_witness :
  let h := Sample.answering "{}" (Some Stock.skilled) Sample.accept_all in
  let w := Sample.fresh_world
             (Stock.bare [Sample.candidate 1 pending EmptyString]) in
  hr_recruitment_skills_state (committed w) <> "installed"
  /\ same_taxonomy (committed w)
       (committed (_run_gemini_extraction_in_thread h [1] w)).
Proof.
  intros h w.
  assert (H1 : hr_recruitment_skills_state (committed w) <> "installed")
    by discriminate.
  split; [assumption|].
  exact (without_skills_module_taxonomy_stays h [1] w H1).
Defined.

(** X25 on sample data. *)
Lemma queued_records_are_pending_witness :
  let h := Sample.garbled in
  let w := Stock.two_records in
  let w' := snd (action_extract_with_gemini h [1; 2] w) in
  action_extract_with_gemini h [1; 2] w = (Ok [1], w')
  /\ working w' = committed w'
  /\ forall id,
       find_applicant (committed w') id
       = option_map
           (fun a => if existsb (Nat.eqb id) [1]
                     then apply_vals pending_vals a else a)
           (find_applicant (working w) id).
Proof.
  intros h w w'.
  assert (H1 : action_extract_with_gemini h [1; 2] w = (Ok [1], w'))
    by reflexivity.
  split; [assumption|].
  exact (queued_records_are_pending h [1; 2] [1] w w' H1).
Defined.

(** X26 on sample data. *)
Lemma second_click_finds_nothing_witness :
  let h := Sample.garbled in
  let w := Stock.two_records in
  let w' := snd (action_extract_with_gemini h [1; 2] w) in
  action_extract_with_gemini h [1; 2] w = (Ok [1], w')
  /\ action_extract_with_gemini h [1; 2] w' = (Raise no_applicants, w').
Proof.
  intros h w w'.
  assert (H1 : action_extract_with_gemini h [1; 2] w = (Ok [1], w'))
    by reflexivity.
  split; [assumption|].
  exact (second_click_finds_nothing h [1; 2] [1] w w' H1).
Defined.

(** X13 on sample data. *)
Lemma reconciler_returns_witness :
  let h := Stock.willing in
  (forall op x, rejects h op x = None)
  /\ forallb well_formed Sample.python_twice = true
  /\ exists d',
       _process_skills h 1 (JArr Sample.python_twice) Stock.one_queued
       = (Ok tt, d').
Proof.
  intros h.
  assert (H1 : forall op x, rejects h op x = None) by reflexivity.
  assert (H2 : forallb well_formed Sample.python_twice = true) by reflexivity.
  repeat (split; [assumption|]).
  exact (reconciler_returns h 1 Sample.python_twice Stock.one_queued H1 H2).
Defined.

(** X4 on sample data. *)
Lemma non_object_answer_is_an_error_witness :
  let h := Sample.answering "null" (Some JNull) Sample.accept_all in
  let w := Sample.queued in
  _parse_gemini_response h [1] Stock.fenced_null = Ok JNull
  /\ (forall fields, JNull <> JObj fields)
  /\ apply_response h [1] 1 Stock.fenced_null w
     = (Raise (AttributeError "'NoneType' object has no attribute 'get'"), w).
Proof.
  intros h w.
  assert (H1 : _parse_gemini_response h [1] Stock.fenced_null = Ok JNull)
    by reflexivity.
  assert (H2 : forall fields, JNull <> JObj fields) by discriminate.
  repeat (split; [assumption|]).
  exact (non_object_answer_is_an_error h [1] 1 Stock.fenced_null JNull w H1 H2).
Defined.

(** X20 on sample data. *)
Lemma deleted_record_is_passed_over_witness :
  let h := Sample.garbled in
  let w := Sample.fresh_world (Sample.tables [] []) in
  find_applicant (working w) 1 = None
  /\ find_applicant (committed w) 1 = None
  /\ extract_one h [1] 1 w = rollback w.
Proof.
  intros h w.
  assert (H1 : find_applicant (working w) 1 = None) by reflexivity.
  assert (H2 : find_applicant (committed w) 1 = None) by reflexivity.
  repeat (split; [assumption|]).
  exact (deleted_record_is_passed_over h [1] 1 w H1 H2).
Defined.
